(** * GetPawsy: catalogue search and upsell ranking

    A shallow embedding of [engine_search.py] and
    [engines/upsell_engine_v2.py].

    Modelling conventions.
    - Text is ASCII: a Python [str] is a [string]; the regex classes [\w]
      and [\s] and the methods [lower], [split] and [strip] are given on
      the 7-bit range (bytes above 127 are neither word nor space).
    - Python numbers (JSON ints and floats) are exact rationals [Q]; the
      comparisons of the code are the boolean comparisons of [Q].
    - A product is a JSON object read with [dict.get]: a record whose
      scalar fields are optional ([None] = key absent) and whose list
      fields are empty when the key is absent (the code reads them with
      the default [[]], or tests them for truth).
    - The catalogue that [load_products] reads from disk is an explicit
      argument of every entry point.
    - A Python exception is the [Err] case of [result]. *)

From Stdlib Require Import QArith Qminmax Qabs Lqa Lia.
From Stdlib Require Import Ascii String.
From stdpp Require Import gmap strings list sorting.

Local Open Scope Q_scope.

(* ===================================================================== *)
(** ** Text: the string primitives the engines use                        *)
(* ===================================================================== *)

Module Text.

Definition code (c : ascii) : nat := nat_of_ascii c.

Definition between (lo hi : nat) (c : ascii) : bool :=
  (lo <=? code c)%nat && (code c <=? hi)%nat.

(** [\s] on [str]: tab, newline, vertical tab, form feed, carriage
    return, the four separators 28..31 and the space. *)
Definition is_space (c : ascii) : bool :=
  between 9 13 c || between 28 32 c.

Definition is_upper (c : ascii) : bool := between 65 90 c.
Definition is_lower (c : ascii) : bool := between 97 122 c.
Definition is_digit (c : ascii) : bool := between 48 57 c.

Definition is_alnum (c : ascii) : bool :=
  is_digit c || is_upper c || is_lower c.

(** [\w] on [str]: alphanumeric or underscore. *)
Definition is_word (c : ascii) : bool :=
  is_alnum c || (code c =? 95)%nat.

Definition lower_char (c : ascii) : ascii :=
  if is_upper c then ascii_of_nat (code c + 32) else c.

Fixpoint map_chars (f : ascii -> ascii) (s : string) : string :=
  match s with
  | EmptyString => EmptyString
  | String c s' => String (f c) (map_chars f s')
  end.

(** [str.lower()] *)
Definition lower (s : string) : string := map_chars lower_char s.

Definition space : ascii := ascii_of_nat 32.

(** [re.sub(r'[^\w\s]', ' ', text)] *)
Definition sub_punct (s : string) : string :=
  map_chars (fun c => if is_word c || is_space c then c else space) s.

(** [re.sub(r'\s+', ' ', text)]: a left-to-right scan; [in_run] tells
    that the previous character already belonged to the current run of
    white space, which has been replaced by one space. *)
Fixpoint collapse_ws (in_run : bool) (s : string) : string :=
  match s with
  | EmptyString => EmptyString
  | String c s' =>
      if is_space c
      then (if in_run then collapse_ws true s'
            else String space (collapse_ws true s'))
      else String c (collapse_ws false s')
  end.

Fixpoint lstrip (s : string) : string :=
  match s with
  | EmptyString => EmptyString
  | String c s' => if is_space c then lstrip s' else s
  end.

Definition is_empty (s : string) : bool :=
  match s with EmptyString => true | _ => false end.

Fixpoint rstrip (s : string) : string :=
  match s with
  | EmptyString => EmptyString
  | String c s' =>
      let r := rstrip s' in
      if is_space c && is_empty r then EmptyString else String c r
  end.

(** [str.strip()] *)
Definition strip (s : string) : string := rstrip (lstrip s).

Definition starts_with_space (s : string) : bool :=
  match s with
  | String c _ => is_space c
  | EmptyString => true
  end.

(** Is the first character a white space? *)
Definition leading_space (s : string) : bool :=
  match s with
  | String c _ => is_space c
  | EmptyString => false
  end.

(** [str.split()]: the maximal runs of characters that are not white
    space, in order. *)
Fixpoint split (s : string) : list string :=
  match s with
  | EmptyString => []
  | String c s' =>
      if is_space c then split s'
      else if starts_with_space s' then String c EmptyString :: split s'
      else match split s' with
           | w :: ws => String c w :: ws
           | [] => [String c EmptyString]
           end
  end.

(** [' '.join(words)] *)
Fixpoint join_sp (ws : list string) : string :=
  match ws with
  | [] => EmptyString
  | [w] => w
  | w :: ws' => w +:+ String space (join_sp ws')
  end.

Fixpoint prefix_of (p s : string) : bool :=
  match p, s with
  | EmptyString, _ => true
  | String a p', String b s' => if Ascii.eqb a b then prefix_of p' s' else false
  | String _ _, EmptyString => false
  end.

(** [p in s] on strings: [p] occurs in [s] as a contiguous block. *)
Fixpoint contains (s p : string) : bool :=
  prefix_of p s ||
  match s with
  | EmptyString => false
  | String _ s' => contains s' p
  end.

(** [len(s)] *)
Definition len (s : string) : nat := String.length s.

(** [all(f(c) for c in s)] *)
Fixpoint all_chars (f : ascii -> bool) (s : string) : bool :=
  match s with
  | EmptyString => true
  | String c s' => f c && all_chars f s'
  end.

(** [c in s] for a character [c]. *)
Fixpoint has_char (c : ascii) (s : string) : bool :=
  match s with
  | EmptyString => false
  | String c' s' => Ascii.eqb c c' || has_char c s'
  end.

Definition quote : ascii := ascii_of_nat 39.
Definition double_quote : ascii := ascii_of_nat 34.
Definition backslash : ascii := ascii_of_nat 92.

(** A hexadecimal digit, in lower case. *)
Definition hex_digit (n : nat) : ascii :=
  if (n <? 10)%nat then ascii_of_nat (48 + n) else ascii_of_nat (87 + n).

(** How [repr] writes one character inside the quotes [q]: the
    backslash and the quote are escaped, tab, newline and carriage
    return have their letters, the other control characters are written
    in hexadecimal. *)
Definition repr_char (q c : ascii) : string :=
  if Ascii.eqb c backslash || Ascii.eqb c q
  then String backslash (String c EmptyString)
  else if (code c =? 9)%nat then String backslash "t"
  else if (code c =? 10)%nat then String backslash "n"
  else if (code c =? 13)%nat then String backslash "r"
  else if (code c <? 32)%nat || (code c =? 127)%nat
  then String backslash
         (String "x" (String (hex_digit (code c / 16))
                        (String (hex_digit (code c mod 16)) EmptyString)))
  else String c EmptyString.

Fixpoint repr_chars (q : ascii) (s : string) : string :=
  match s with
  | EmptyString => EmptyString
  | String c s' => repr_char q c +:+ repr_chars q s'
  end.

(** [repr(s)] on [str]: single quotes, unless the text holds a single
    quote and no double quote. *)
Definition repr (s : string) : string :=
  let q := if has_char quote s && negb (has_char double_quote s)
           then double_quote else quote in
  String q (repr_chars q s +:+ String q EmptyString).

End Text.

(* ===================================================================== *)
(** ** [engine_search.normalize_text]                                     *)
(* ===================================================================== *)

(** [normalize_text(text)]; [None] stands for [None] or a missing value.
    The guard [if not text] also catches the empty string. *)
Definition normalize_text (text : option string) : string :=
  match text with
  | None => EmptyString
  | Some t =>
      if Text.is_empty t then EmptyString
      else
        let t1 := Text.lower t in
        let t2 := Text.sub_punct t1 in
        Text.strip (Text.collapse_ws false t2)
  end.

(** The normaliser as the specification words it: characters that are
    neither alphanumeric nor white space become a space. *)
Definition normalize_text_as_specified (text : option string) : string :=
  match text with
  | None => EmptyString
  | Some t =>
      let t1 := Text.lower t in
      let t2 := Text.map_chars
                  (fun c => if Text.is_alnum c || Text.is_space c
                            then c else Text.space) t1 in
      Text.strip (Text.collapse_ws false t2)
  end.

(** The tokens of a text: its maximal runs of word characters, lowered. *)
Definition tokens (t : string) : list string :=
  Text.split (Text.sub_punct (Text.lower t)).

(** A well-formed token: not empty, made of word characters, none of
    them upper case. *)
Definition token_ok (w : string) : bool :=
  negb (Text.is_empty w)
  && Text.all_chars (fun c => Text.is_word c && negb (Text.is_upper c)) w.


(* ===================================================================== *)
(** ** Python values shared by the two engines                            *)
(* ===================================================================== *)

(** The exceptions the modelled code can raise. *)
Inductive error : Type :=
  | ZeroDivisionError
  | ValueError (msg : string).

Inductive result (A : Type) : Type :=
  | Ok (a : A)
  | Err (e : error).

Arguments Ok {A} a.
Arguments Err {A} e.

#[global] Instance result_ret : MRet result := fun A a => Ok a.

#[global] Instance result_bind : MBind result :=
  fun A B k r =>
    match r with
    | Ok a => k a
    | Err e => Err e
    end.

#[global] Instance result_fmap : FMap result :=
  fun A B f r =>
    match r with
    | Ok a => Ok (f a)
    | Err e => Err e
    end.

(** [a / b] on Python numbers. *)
Definition py_div (a b : Q) : result Q :=
  if Qeq_bool b 0 then Err ZeroDivisionError else Ok (a / b).

(** [len(x)] as a number. *)
Definition of_nat (n : nat) : Q := inject_Z (Z.of_nat n).

(** [l[:limit]], with Python's reading of a negative bound. *)
Definition slice_to {A : Type} (limit : Z) (l : list A) : list A :=
  if (0 <=? limit)%Z then take (Z.to_nat limit) l
  else take (length l - Z.to_nat (- limit)) l.

(** [sorted(l, key=key, reverse=reverse)]: a stable sort.  Elements are
    inserted from the right end of the list; an element goes in front of
    the first one that does not have to precede it, so elements with
    equal keys keep their order, in both directions. *)
Section StableSort.
Context {A K : Type} (le : K -> K -> bool) (key : A -> K).

Fixpoint insert_by (x : A) (l : list A) : list A :=
  match l with
  | [] => [x]
  | y :: l' => if le (key x) (key y) then x :: y :: l'
               else y :: insert_by x l'
  end.

Definition sort_by (l : list A) : list A := foldr insert_by [] l.

(** The order the sort establishes. *)
Definition ordered (a b : A) : Prop := le (key a) (key b) = true.
End StableSort.

Definition py_sorted {A K : Type} (le : K -> K -> bool) (key : A -> K)
    (reverse : bool) (l : list A) : list A :=
  sort_by (if reverse then (fun a b => le b a) else le) key l.

(** A product identifier: a JSON string or number. *)
Inductive pid : Type :=
  | IdStr (s : string)
  | IdNum (n : Z).

#[global] Instance pid_eq_dec : EqDecision pid.
Proof. solve_decision. Defined.

#[global] Instance pid_countable : Countable pid.
Proof.
  refine (inj_countable'
    (fun i => match i with IdStr s => inl s | IdNum n => inr n end)
    (fun x => match x with inl s => IdStr s | inr n => IdNum n end) _).
  intros []; reflexivity.
Defined.

(** Truth value of an identifier ([if not pid]). *)
Definition pid_truthy (i : pid) : bool :=
  match i with
  | IdStr s => negb (Text.is_empty s)
  | IdNum n => negb (n =? 0)%Z
  end.

(** The product record of the catalogue. *)
Record product : Type := {
  id : option pid;
  title : option string;
  tags : list string;
  category : option string;
  category_slug : option string;
  category_name : option string;
  product_type : option string;
  animal : option string;
  price : option Q;
  images : list string;
  bullets : list string;
  seo_description : option string;
  rating : option Q;
  reviews_count : option Z;
  stock : option Z;
  published : option bool;
  badge : option string;
  is_bundle : option bool
}.

(** [x or d] on an optional number: [None] and [0] are both false. *)
Definition num_or (x : option Q) (d : Q) : Q :=
  match x with
  | Some q => if Qeq_bool q 0 then d else q
  | None => d
  end.

(** [x or ""] on an optional string. *)
Definition str_or_empty (x : option string) : string := default EmptyString x.

(** The product [p] with the price [d] written in when it has none: the
    record a reader has in mind who says that a missing price counts as
    [d]. *)
Definition assume_price (d : Q) (p : product) : product :=
  {| id := id p; title := title p; tags := tags p; category := category p;
     category_slug := category_slug p; category_name := category_name p;
     product_type := product_type p; animal := animal p;
     price := match price p with Some q => Some q | None => Some d end;
     images := images p; bullets := bullets p;
     seo_description := seo_description p; rating := rating p;
     reviews_count := reviews_count p; stock := stock p;
     published := published p; badge := badge p; is_bundle := is_bundle p |}.

(** The price of [p], a missing price read as [d]. *)
Definition price_or (d : Q) (p : product) : Q := default d (price p).

(* ===================================================================== *)
(** ** [engine_search]                                                    *)
(* ===================================================================== *)

(** A price bound of a filter set: a JSON number or a string. *)
Inductive bound : Type :=
  | BNum (q : Q)
  | BStr (s : string).

(** The filter set ([None] = key absent). *)
Record filters : Type := {
  f_category : option string;
  f_animal : option string;
  price_min : option bound;
  price_max : option bound;
  has_images : option bool
}.

(** The dictionary [search_products] returns; the early return for an
    empty catalogue has neither ["filters"] nor ["sort"]. *)
Record response : Type := {
  results : list product;
  total : nat;
  resp_query : string;
  resp_filters : option (option filters);
  resp_sort : option string
}.

Section Search.

(** [difflib.SequenceMatcher(None, a, b).ratio()] and [float(s)] on a
    string belong to Python's library: [float_of_str s] is [None]
    where [float] raises [ValueError]. *)
Variable ratio : string -> string -> Q.
Variable float_of_str : string -> option Q.

Definition fuzzy_match (query text : string) : Q :=
  if Text.is_empty query || Text.is_empty text then 0
  else
    let query := normalize_text (Some query) in
    let text := normalize_text (Some text) in
    if Text.contains text query then 1
    else
      let query_words : gset string := list_to_set (Text.split query) in
      let text_words : gset string := list_to_set (Text.split text) in
      let word_matches := size (query_words ∩ text_words) in
      if (0 <? word_matches)%nat
      then (8 # 10) + (of_nat word_matches / of_nat (size query_words)) * (2 # 10)
      else ratio query text.

Definition calculate_relevance (p : product) (query : string) : Q :=
  let score := 0 in
  let query_lower := normalize_text (Some query) in
  let title := normalize_text (Some (str_or_empty (title p))) in
  let title_score := fuzzy_match query_lower title in
  let score := score + title_score * 100 in
  let score := if Text.contains title query_lower then score + 50 else score in
  let score :=
    foldl (fun sc tag => sc + fuzzy_match query_lower tag * 20) score (tags p) in
  let seo_desc := normalize_text (Some (str_or_empty (seo_description p))) in
  let desc_score := fuzzy_match query_lower seo_desc in
  let score := score + desc_score * 15 in
  let score :=
    foldl (fun sc bullet => sc + fuzzy_match query_lower bullet * 10) score (bullets p) in
  let category := normalize_text (Some (str_or_empty (category_name p))) in
  let score := if Text.contains category query_lower then score + 25 else score in
  let animal := str_or_empty (animal p) in
  let score := if Text.contains (Text.lower animal) query_lower then score + 30 else score in
  let score := if bool_decide (images p <> []) then score + 5 else score in
  score.

(** [float(x)] on a price bound; the message of the [ValueError] quotes
    the string with [repr]. *)
Definition to_float (b : bound) : result Q :=
  match b with
  | BNum q => Ok q
  | BStr s =>
      match float_of_str s with
      | Some q => Ok q
      | None =>
          Err (ValueError ("could not convert string to float: " +:+ Text.repr s))
      end
  end.

(** [not filters]: no filter set, or an empty one. *)
Definition no_filters (fs : option filters) : bool :=
  match fs with
  | None => true
  | Some f =>
      match f_category f, f_animal f, price_min f, price_max f, has_images f with
      | None, None, None, None, None => true
      | _, _, _, _, _ => false
      end
  end.

Definition truthy_str (x : option string) : option string :=
  match x with
  | Some s => if Text.is_empty s then None else Some s
  | None => None
  end.

Definition apply_filters (products : list product) (fs : option filters)
    : result (list product) :=
  let filtered := products in
  if no_filters fs then Ok filtered
  else
    match fs with
    | None => Ok filtered
    | Some f =>
        let filtered :=
          match truthy_str (f_category f) with
          | Some c =>
              let cat := Text.lower c in
              List.filter (fun p =>
                Text.contains (Text.lower (str_or_empty (category_slug p))) cat
                || Text.contains (Text.lower (str_or_empty (product_type p))) cat)
                filtered
          | None => filtered
          end in
        let filtered :=
          match truthy_str (f_animal f) with
          | Some a =>
              let an := Text.lower a in
              List.filter (fun p =>
                String.eqb (Text.lower (str_or_empty (animal p))) an) filtered
          | None => filtered
          end in
        filtered ←
          match price_min f with
          | Some b =>
              min_price ← to_float b ;
              Ok (List.filter (fun p => Qle_bool min_price (num_or (price p) 0)) filtered)
          | None => Ok filtered
          end ;
        filtered ←
          match price_max f with
          | Some b =>
              max_price ← to_float b ;
              Ok (List.filter (fun p => Qle_bool (num_or (price p) 999999) max_price) filtered)
          | None => Ok filtered
          end ;
        let filtered :=
          match has_images f with
          | Some true => List.filter (fun p => bool_decide (images p <> [])) filtered
          | _ => filtered
          end in
        Ok filtered
    end.

(** [scores.get(p.get("id"), 0)] *)
Definition score_of (scores : gmap (option pid) Q) (p : product) : Q :=
  default 0 (scores !! id p).

Definition sort_products (products : list product) (sort_by : string)
    (scores : gmap (option pid) Q) : list product :=
  if String.eqb sort_by "relevance" && bool_decide (scores <> ∅) then
    py_sorted Qle_bool (score_of scores) true products
  else if String.eqb sort_by "price_low" then
    py_sorted Qle_bool (fun p => num_or (price p) 0) false products
  else if String.eqb sort_by "price_high" then
    py_sorted Qle_bool (fun p => num_or (price p) 0) true products
  else if String.eqb sort_by "name" then
    py_sorted String.leb (fun p => Text.lower (str_or_empty (title p))) false products
  else products.

(** The loop that fills [scores]: a later product overwrites the entry
    of an earlier one with the same identifier. *)
Definition record_score (query : string) (scores : gmap (option pid) Q)
    (p : product) : gmap (option pid) Q :=
  let score := calculate_relevance p query in
  <[id p := score]> scores.

Definition build_scores (products : list product) (query : string)
    : gmap (option pid) Q :=
  foldl (record_score query) ∅ products.

Definition min_score : Q := 10.

Definition search_products (catalog : list product) (query : string)
    (fs : option filters) (sort_by : string) (limit : Z) : result response :=
  let products := catalog in
  match products with
  | [] => Ok {| results := []; total := 0; resp_query := query;
                resp_filters := None; resp_sort := None |}
  | _ =>
      let scores := build_scores products query in
      let matched :=
        List.filter (fun p => Qle_bool min_score (score_of scores p)) products in
      filtered ← apply_filters matched fs ;
      let sorted_results := sort_products filtered sort_by scores in
      let results := slice_to limit sorted_results in
      Ok {| results := results; total := length filtered; resp_query := query;
            resp_filters := Some fs; resp_sort := Some sort_by |}
  end.

End Search.

(** A query that is empty or made of white space only. *)
Definition blank (query : string) : bool := Text.all_chars Text.is_space query.

(** The sort keys [sort_products] knows. *)
Definition known_sort (sort_by : string) : bool :=
  bool_decide (sort_by ∈ ["relevance"; "price_low"; "price_high"; "name"]).

(** A price bound that is present and that [float] refuses. *)
Definition bad_bound (float_of_str : string -> option Q) (b : option bound) : bool :=
  match b with
  | Some (BStr s) => match float_of_str s with None => true | Some _ => false end
  | _ => false
  end.

Definition has_bad_bound (float_of_str : string -> option Q)
    (fs : option filters) : bool :=
  match fs with
  | Some f => bad_bound float_of_str (price_min f) || bad_bound float_of_str (price_max f)
  | None => false
  end.

(* ===================================================================== *)
(** ** [engine_search.build_search_index]                                 *)
(* ===================================================================== *)

Record index_entry : Type := {
  entry_title : option string;
  entry_price : option Q;
  entry_image : option string
}.

Record search_index : Type := {
  idx_products : gmap pid index_entry;
  terms : gmap string (list pid);
  categories : gmap string (list pid);
  animals : gmap string (list pid)
}.

(** [if k not in d: d[k] = []] followed by [d[k].append(i)]. *)
Definition add_posting (k : string) (i : pid) (d : gmap string (list pid))
    : gmap string (list pid) :=
  <[k := default [] (d !! k) ++ [i]]> d.

Definition index_title_word (i : pid) (d : gmap string (list pid)) (word : string)
    : gmap string (list pid) :=
  if (2 <? Text.len word)%nat then add_posting word i d else d.

Definition index_tag (i : pid) (d : gmap string (list pid)) (tag : string)
    : gmap string (list pid) :=
  let tag_norm := normalize_text (Some tag) in
  if negb (Text.is_empty tag_norm) then add_posting tag_norm i d else d.

(** One turn of the loop over the catalogue. *)
Definition index_product (index : search_index) (p : product) : search_index :=
  match id p with
  | None => index
  | Some i =>
      if negb (pid_truthy i) then index
      else
        let entry := {| entry_title := title p; entry_price := price p;
                        entry_image := head (images p) |} in
        let title := normalize_text (Some (str_or_empty (title p))) in
        let terms1 := foldl (index_title_word i) (terms index) (Text.split title) in
        let terms2 := foldl (index_tag i) terms1 (tags p) in
        let cat := default "other" (category_slug p) in
        let animal := default "dog" (animal p) in
        {| idx_products := <[i := entry]> (idx_products index);
           terms := terms2;
           categories := add_posting cat i (categories index);
           animals := add_posting animal i (animals index) |}
  end.

Definition empty_index : search_index :=
  {| idx_products := ∅; terms := ∅; categories := ∅; animals := ∅ |}.

Definition build_search_index (catalog : list product) : search_index :=
  foldl index_product empty_index catalog.

(** [d.get(w, [])] *)
Definition entry_of (d : gmap string (list pid)) (w : string) : list pid :=
  default [] (d !! w).

(** [index["terms"].get(w, [])] *)
Definition postings (index : search_index) (w : string) : list pid :=
  default [] (terms index !! w).

(** What one product adds to the postings of the term [w], read off the
    loop body: its identifier once for each word of the normalised title
    that is longer than two characters and equals [w], then once for each
    tag whose normalised text is not empty and equals [w]. *)
Definition title_hits (w : string) (p : product) : list string :=
  List.filter (fun word => (2 <? Text.len word)%nat && String.eqb word w)
    (Text.split (normalize_text (Some (str_or_empty (title p))))).

Definition tag_hits (w : string) (p : product) : list string :=
  List.filter (fun tag => negb (Text.is_empty (normalize_text (Some tag)))
                          && String.eqb (normalize_text (Some tag)) w)
    (tags p).

Definition contribution (w : string) (p : product) : list pid :=
  match id p with
  | Some i =>
      if pid_truthy i
      then map (fun _ => i) (title_hits w p) ++ map (fun _ => i) (tag_hits w p)
      else []
  | None => []
  end.

(* ===================================================================== *)
(** ** [engines/upsell_engine_v2]                                         *)
(* ===================================================================== *)

(** [a < b] on numbers. *)
Definition Qltb (a b : Q) : bool := negb (Qle_bool b a).

(** [set(p.get("tags", []))] *)
Definition tag_set (p : product) : gset string := list_to_set (tags p).

Definition calculate_similarity_score (product1 product2 : product) : result Q :=
  let score := 0 in
  let score :=
    if bool_decide (category product1 = category product2) then score + 30 else score in
  let tags1 := tag_set product1 in
  let tags2 := tag_set product2 in
  score ←
    (if bool_decide (tags1 <> ∅) && bool_decide (tags2 <> ∅) then
       overlap ← py_div (of_nat (size (tags1 ∩ tags2))) (of_nat (size (tags1 ∪ tags2))) ;
       Ok (score + overlap * 40)
     else Ok score) ;
  let price1 := default 0 (price product1) in
  let price2 := default 0 (price product2) in
  score ←
    (if Qltb 0 price1 && Qltb 0 price2 then
       price_diff ← py_div (Qabs (price1 - price2)) (Qmax price1 price2) ;
       let price_score := Qmax 0 (20 - price_diff * 40) in
       Ok (score + price_score)
     else Ok score) ;
  let rating2 := default 0 (rating product2) in
  let score :=
    if Qle_bool (45 # 10) rating2 then score + 10
    else if Qle_bool 4 rating2 then score + 5
    else score in
  Ok score.

(** [p.get("published", True)] as a truth value. *)
Definition is_published (p : product) : bool := default true (published p).

(** [p.get("stock", 0) <= 0] *)
Definition out_of_stock (p : product) : bool := (default 0%Z (stock p) <=? 0)%Z.

(** The score [get_popular_products] gives a product. *)
Definition popularity_score (p : product) : result Q :=
  per_review ← py_div (inject_Z (default 0%Z (reviews_count p))) 10 ;
  let score := default 0 (rating p) * 20 + per_review in
  let score :=
    if bool_decide (badge p = Some "Bestseller") then score + 50 else score in
  Ok score.

(** [xs.sort(key=lambda x: x[1], reverse=True)] and
    [[x[0] for x in xs[:limit]]]. *)
Definition rank {A : Type} (scored : list (A * Q)) (limit : Z) : list A :=
  (slice_to limit (py_sorted Qle_bool snd true scored)).*1.

Definition get_popular_products (catalog : list product) (limit : Z)
    : result (list product) :=
  let products := catalog in
  scored ← mapM (fun p => score ← popularity_score p ; Ok (p, score))
             (List.filter is_published products) ;
  Ok (rank scored limit).

(** The score of one candidate in [get_upsells_for_product]. *)
Definition upsell_score (source_product p : product) : result Q :=
  score ← calculate_similarity_score source_product p ;
  let source_price := default 0 (price source_product) in
  let p_price := default 0 (price p) in
  let score :=
    if Qltb source_price p_price && Qle_bool p_price (source_price * (15 # 10))
    then score + 15 else score in
  Ok score.

(** The first product of the catalogue with the given identifier.  A
    product that is found has the key ["id"], so it is a non-empty
    dictionary and [not source_product] holds exactly when none is
    found. *)
Definition find_product (products : list product) (product_id : pid)
    : option product :=
  List.find (fun p => bool_decide (id p = Some product_id)) products.

Definition is_candidate (product_id : pid) (p : product) : bool :=
  negb (bool_decide (id p = Some product_id))
  && is_published p && negb (out_of_stock p).

Definition get_upsells_for_product (catalog : list product) (product_id : pid)
    (limit : Z) : result (list product) :=
  let products := catalog in
  match find_product products product_id with
  | None => get_popular_products catalog limit
  | Some source_product =>
      candidates ←
        mapM (fun p => score ← upsell_score source_product p ; Ok (p, score))
          (List.filter (is_candidate product_id) products) ;
      Ok (rank candidates limit)
  end.

(** An entry of a cart or of an order. *)
Record cart_item : Type := {
  item_id : option pid;
  item_category : option string;
  item_tags : list string;
  item_price : option Q;
  item_quantity : option Q
}.

Definition cart_ids (cart_items : list cart_item) : gset (option pid) :=
  list_to_set (item_id <$> cart_items).

Definition cart_categories (cart_items : list cart_item) : gset string :=
  list_to_set ((fun item => str_or_empty (item_category item)) <$> cart_items).

Definition cart_tags (cart_items : list cart_item) : gset string :=
  list_to_set (cart_items ≫= item_tags).

(** [p.get("category") in categories] *)
Definition category_in (p : product) (cats : gset string) : bool :=
  match category p with
  | Some c => bool_decide (c ∈ cats)
  | None => false
  end.

(** [p.get("badge") in names] *)
Definition badge_in (p : product) (names : list string) : bool :=
  match badge p with
  | Some b => bool_decide (b ∈ names)
  | None => false
  end.

(** The score of one candidate in [get_cart_upsells].  (The function
    also sums the prices of the cart into [total_price], which it never
    reads.) *)
Definition cart_score (cats tgs : gset string) (p : product) : result Q :=
  let score := 0 in
  let score := if category_in p cats then score + 20 else score in
  let p_tags := tag_set p in
  score ←
    (if bool_decide (p_tags ∩ tgs <> ∅) then
       overlap ←
         (if bool_decide (p_tags <> ∅)
          then py_div (of_nat (size (p_tags ∩ tgs))) (of_nat (size (p_tags ∪ tgs)))
          else Ok 0) ;
       Ok (score + overlap * 30)
     else Ok score) ;
  let p_price := default 0 (price p) in
  let score :=
    if Qltb p_price 20 then score + 25
    else if Qltb p_price 40 then score + 15
    else score in
  let score :=
    if badge_in p ["Bestseller"; "Hot"; "Trending"] then score + 10 else score in
  let score :=
    if Qle_bool (45 # 10) (default 0 (rating p)) then score + 10 else score in
  Ok score.

Definition get_cart_upsells (catalog : list product) (cart_items : list cart_item)
    (limit : Z) : result (list product) :=
  let products := catalog in
  let ids := cart_ids cart_items in
  let cats := cart_categories cart_items in
  let tgs := cart_tags cart_items in
  candidates ←
    mapM (fun p => score ← cart_score cats tgs p ; Ok (p, score))
      (List.filter (fun p => negb (bool_decide (id p ∈ ids))
                             && is_published p && negb (out_of_stock p)) products) ;
  Ok (rank candidates limit).

(** The score of one candidate in [get_checkout_upsells]. *)
Definition checkout_score (p : product) : Q :=
  let score := 0 in
  let p_price := default 0 (price p) in
  let score :=
    if Qle_bool p_price 15 then score + 40
    else if Qle_bool p_price 25 then score + 20
    else score in
  let score := if badge_in p ["Bestseller"; "Hot"] then score + 20 else score in
  let score :=
    if Qle_bool (47 # 10) (default 0 (rating p)) then score + 15 else score in
  let score :=
    if bool_decide ("bundle" ∈ tags p) || default false (is_bundle p)
    then score + 10 else score in
  score.

Definition get_checkout_upsells (catalog : list product) (cart_items : list cart_item)
    (limit : Z) : result (list product) :=
  let products := catalog in
  let ids := cart_ids cart_items in
  let candidates :=
    (fun p => (p, checkout_score p)) <$>
      List.filter (fun p => negb (bool_decide (id p ∈ ids)) && is_published p) products in
  Ok (rank candidates limit).

(** The score of one candidate in [get_post_purchase_upsells]. *)
Definition post_purchase_score (cats : gset string) (p : product) : Q :=
  let score := 0 in
  let score := if category_in p cats then score + 25 else score in
  let score :=
    if badge_in p ["Bestseller"; "New"; "Trending"] then score + 15 else score in
  score + (default 0 (rating p) - 4) * 20.

Definition get_post_purchase_upsells (catalog : list product)
    (order_items : list cart_item) (limit : Z) : result (list product) :=
  let products := catalog in
  let ids := cart_ids order_items in
  let cats := cart_categories order_items in
  let candidates :=
    (fun p => (p, post_purchase_score cats p)) <$>
      List.filter (fun p => negb (bool_decide (id p ∈ ids)) && is_published p) products in
  Ok (rank candidates limit).

(** The [elif] chain of [get_ai_recommendations]. *)
Definition recommend_for_context (catalog : list product) (context : string)
    (limit : Z) : result (list product) :=
  if String.eqb context "cart" then
    let cart_items := [] in
    get_cart_upsells catalog cart_items limit
  else if String.eqb context "checkout" then get_checkout_upsells catalog [] limit
  else if String.eqb context "post_purchase"
  then get_post_purchase_upsells catalog [] limit
  else get_popular_products catalog limit.

(** [product_id] and [user_id] default to [None]; the test
    [context == "product" and product_id] needs a true identifier. *)
Definition get_ai_recommendations (catalog : list product)
    (product_id : option pid) (user_id : option string) (context : string)
    (limit : Z) : result (list product) :=
  match product_id with
  | Some i =>
      if String.eqb context "product" && pid_truthy i
      then get_upsells_for_product catalog i limit
      else recommend_for_context catalog context limit
  | None => recommend_for_context catalog context limit
  end.

(** The values the three scores of [get_upsells_for_product] and
    [get_popular_products] have when no division fails. *)
Definition similarity_value (product1 product2 : product) : Q :=
  let score := 0 in
  let score :=
    if bool_decide (category product1 = category product2) then score + 30 else score in
  let tags1 := tag_set product1 in
  let tags2 := tag_set product2 in
  let score :=
    if bool_decide (tags1 <> ∅) && bool_decide (tags2 <> ∅)
    then score + of_nat (size (tags1 ∩ tags2)) / of_nat (size (tags1 ∪ tags2)) * 40
    else score in
  let price1 := default 0 (price product1) in
  let price2 := default 0 (price product2) in
  let score :=
    if Qltb 0 price1 && Qltb 0 price2
    then score + Qmax 0 (20 - Qabs (price1 - price2) / Qmax price1 price2 * 40)
    else score in
  let rating2 := default 0 (rating product2) in
  if Qle_bool (45 # 10) rating2 then score + 10
  else if Qle_bool 4 rating2 then score + 5
  else score.

Definition upsell_value (source_product p : product) : Q :=
  let score := similarity_value source_product p in
  let source_price := default 0 (price source_product) in
  let p_price := default 0 (price p) in
  if Qltb source_price p_price && Qle_bool p_price (source_price * (15 # 10))
  then score + 15 else score.

Definition popularity_value (p : product) : Q :=
  let score := default 0 (rating p) * 20 + inject_Z (default 0%Z (reviews_count p)) / 10 in
  if bool_decide (badge p = Some "Bestseller") then score + 50 else score.

(** The product [p] with the price [x]. *)
Definition with_price (x : Q) (p : product) : product :=
  {| id := id p; title := title p; tags := tags p; category := category p;
     category_slug := category_slug p; category_name := category_name p;
     product_type := product_type p; animal := animal p;
     price := Some x;
     images := images p; bullets := bullets p;
     seo_description := seo_description p; rating := rating p;
     reviews_count := reviews_count p; stock := stock p;
     published := published p; badge := badge p; is_bundle := is_bundle p |}.

(** [price_diff] of [calculate_similarity_score]: the distance of the two
    prices relative to the larger one. *)
Definition price_gap (s x : Q) : Q := Qabs (s - x) / Qmax s x.

(** The distance of a price [x] from the seed price [s], relative to the
    seed price. *)
Definition relative_difference (s x : Q) : Q := Qabs (x - s) / s.

(** [r] is what ranking the products of [pool] by [score] gives: the
    first [limit] products of an arrangement of the pool, with their
    scores, in descending order of score. *)
Definition ranked_by (score : product -> result Q) (pool : list product)
    (limit : Z) (r : list product) : Prop :=
  exists scored : list (product * Q),
    Forall (fun ps => score ps.1 = Ok ps.2) scored
    /\ scored.*1 ≡ₚ pool
    /\ StronglySorted (fun a b => b.2 <= a.2) scored
    /\ r = (slice_to limit scored).*1.

(** The part of [cart_score] that does not look at the cart: the bonuses
    for a low price, for a badge and for a high rating. *)
Definition cart_base_score (p : product) : Q :=
  (if Qltb (default 0 (price p)) 20 then 25
   else if Qltb (default 0 (price p)) 40 then 15 else 0)
  + (if badge_in p ["Bestseller"; "Hot"; "Trending"] then 10 else 0)
  + (if Qle_bool (45 # 10) (default 0 (rating p)) then 10 else 0).

(* ===================================================================== *)
(** ** Sample data                                                        *)
(* ===================================================================== *)

(** A product with an identifier, a title and a price, and nothing else. *)
Definition bare_product (i : Z) (t : string) (pr : option Q) : product :=
  {| id := Some (IdNum i); title := Some t; tags := []; category := None;
     category_slug := None; category_name := None; product_type := None;
     animal := None; price := pr; images := []; bullets := [];
     seo_description := None; rating := None; reviews_count := None;
     stock := None; published := None; badge := None; is_bundle := None |}.

(** A product of the upsell catalogue. *)
Definition item (i : Z) (cat : string) (tg : list string) (pr : option Q)
    (st : option Z) : product :=
  {| id := Some (IdNum i); title := None; tags := tg; category := Some cat;
     category_slug := None; category_name := None; product_type := None;
     animal := None; price := pr; images := []; bullets := [];
     seo_description := None; rating := None; reviews_count := None;
     stock := st; published := None; badge := None; is_bundle := None |}.

(** A product with a title and tags, for the index. *)
Definition tagged_product (i : Z) (t : string) (tg : list string) : product :=
  {| id := Some (IdNum i); title := Some t; tags := tg; category := None;
     category_slug := None; category_name := None; product_type := None;
     animal := None; price := None; images := []; bullets := [];
     seo_description := None; rating := None; reviews_count := None;
     stock := None; published := None; badge := None; is_bundle := None |}.

(** Stand-ins for the two library functions in the examples: a matcher
    that finds nothing in common and a [float] that accepts no string. *)
Definition no_ratio (a b : string) : Q := 0.
Definition no_float (s : string) : option Q := None.

Definition sample_catalog : list product :=
  [ bare_product 1 "Squeaky Dog Ball" (Some 8);
    bare_product 2 "Cat Feather Wand" (Some 10);
    bare_product 3 "Dog Bed" None ].

Definition sample_response : response :=
  {| results := [bare_product 1 "Squeaky Dog Ball" (Some 8); bare_product 3 "Dog Bed" None];
     total := 2; resp_query := "dog"; resp_filters := Some None;
     resp_sort := Some "relevance" |}.

(** A filter set whose lower price bound is a word. *)
Definition word_bound : option filters :=
  Some {| f_category := None; f_animal := None; price_min := Some (BStr "cheap");
          price_max := None; has_images := None |}.

(** A catalogue on which a search for "dog" never gets to the library
    matcher: every title either holds the query or is empty. *)
Definition dog_catalog : list product :=
  [ bare_product 1 "Squeaky Dog Ball" (Some 8);
    bare_product 2 "" (Some 10);
    bare_product 3 "Dog Bed" None ].

(** What the search for "dog" finds in it, whatever the sort key does
    with two products of equal relevance. *)
Definition dog_response (sort_by : string) : response :=
  {| results := [bare_product 1 "Squeaky Dog Ball" (Some 8); bare_product 3 "Dog Bed" None];
     total := 2; resp_query := "dog"; resp_filters := Some None;
     resp_sort := Some sort_by |}.

(* ===================================================================== *)
(** ** [engine_search.get_suggestions]                                    *)
(* ===================================================================== *)

(** [get_suggestions] walks the keys of [index["terms"]] in the order
    Python keeps them and [json] stores them: the order of their first
    insertion.  The dictionary with its order is a list of items with
    distinct keys; the loop of [build_search_index], read at that level,
    gives [terms_in_order]. *)
Definition add_posting_ordered (k : string) (i : pid) (d : list (string * list pid))
    : list (string * list pid) :=
  if bool_decide (k ∈ d.*1)
  then (fun kv : string * list pid =>
          if String.eqb kv.1 k then (kv.1, kv.2 ++ [i]) else kv) <$> d
  else d ++ [(k, [i])].

Definition index_title_word_ordered (i : pid) (d : list (string * list pid))
    (word : string) : list (string * list pid) :=
  if (2 <? Text.len word)%nat then add_posting_ordered word i d else d.

Definition index_tag_ordered (i : pid) (d : list (string * list pid))
    (tag : string) : list (string * list pid) :=
  let tag_norm := normalize_text (Some tag) in
  if negb (Text.is_empty tag_norm) then add_posting_ordered tag_norm i d else d.

Definition index_terms_ordered (d : list (string * list pid)) (p : product)
    : list (string * list pid) :=
  match id p with
  | None => d
  | Some i =>
      if negb (pid_truthy i) then d
      else
        let title := normalize_text (Some (str_or_empty (title p))) in
        let d1 := foldl (index_title_word_ordered i) d (Text.split title) in
        foldl (index_tag_ordered i) d1 (tags p)
  end.

Definition terms_in_order (catalog : list product) : list (string * list pid) :=
  foldl index_terms_ordered [] catalog.

(** [d.get(w, [])] on the ordered dictionary. *)
Fixpoint item_of (d : list (string * list pid)) (w : string) : list pid :=
  match d with
  | [] => []
  | (k, v) :: d' => if String.eqb k w then v else item_of d' w
  end.

(** The shape the loop keeps the ordered dictionary in: distinct keys,
    no empty postings. *)
Definition well_formed (d : list (string * list pid)) : Prop :=
  NoDup d.*1 /\ Forall (fun kv => kv.2 <> []) d.

(** One suggestion: [{"term": term, "count": count}]. *)
Record suggestion : Type := {
  term : string;
  count : nat
}.

(** [get_suggestions(query, limit)] on the terms of the stored index. *)
Definition get_suggestions (index_terms : list (string * list pid))
    (query : string) (limit : Z) : list suggestion :=
  let query_norm := normalize_text (Some query) in
  let suggestions :=
    (fun kv : string * list pid => {| term := kv.1; count := length kv.2 |})
      <$> List.filter (fun kv => Text.prefix_of query_norm kv.1) index_terms in
  let suggestions := py_sorted Nat.leb count true suggestions in
  slice_to limit suggestions.

(* ===================================================================== *)
(** ** The callers of [search_products]                                   *)
(* ===================================================================== *)

Module EngineCore.

(** [engine_core.search(query, limit)].  [search_mod] tells whether the
    module [engine_search] could be loaded and has [search_products]. *)
Definition search (ratio : string -> string -> Q)
    (float_of_str : string -> option Q) (search_mod : bool)
    (catalog : list product) (query : string) (limit : Z)
    : result (list product) :=
  if search_mod then
    r ← search_products ratio float_of_str catalog query None "relevance" limit ;
    Ok (results r)
  else Ok [].

End EngineCore.

Module EngineStorefront.

(** The page dictionary of [build_search_page]. *)
Record search_page : Type := {
  page_type : string;
  page_title : string;
  meta_description : string;
  meta_keywords : string;
  data_query : string;
  data_results : list product;
  data_total : nat;
  data_filters : option filters;
  data_sort : string
}.

(** [engine_storefront.build_search_page(query, filters, sort)]; the
    search runs with its default limit of 50. *)
Definition build_search_page (ratio : string -> string -> Q)
    (float_of_str : string -> option Q) (catalog : list product)
    (query : string) (fs : option filters) (sort : string) : result search_page :=
  r ← search_products ratio float_of_str catalog query fs sort 50 ;
  Ok {| page_type := "search";
        page_title := "Search: " +:+ query +:+ " | GetPawsy";
        meta_description := "Search results for '" +:+ query +:+ "' at GetPawsy";
        meta_keywords := query;
        data_query := query;
        data_results := results r;
        data_total := total r;
        data_filters := fs;
        data_sort := sort |}.

End EngineStorefront.

(* ===================================================================== *)
(** ** Values and predicates used to state the further properties        *)
(* ===================================================================== *)

(** The value of [cart_score] when no division fails. *)
Definition cart_value (cats tgs : gset string) (p : product) : Q :=
  let score := 0 in
  let score := if category_in p cats then score + 20 else score in
  let p_tags := tag_set p in
  let score :=
    if bool_decide (p_tags ∩ tgs <> ∅) then
      score + (if bool_decide (p_tags <> ∅)
               then of_nat (size (p_tags ∩ tgs)) / of_nat (size (p_tags ∪ tgs))
               else 0) * 30
    else score in
  let p_price := default 0 (price p) in
  let score :=
    if Qltb p_price 20 then score + 25
    else if Qltb p_price 40 then score + 15
    else score in
  let score :=
    if badge_in p ["Bestseller"; "Hot"; "Trending"] then score + 10 else score in
  if Qle_bool (45 # 10) (default 0 (rating p)) then score + 10 else score.

(** The rating bonus of [calculate_similarity_score], which looks at the
    second product only. *)
Definition rating_bonus (p : product) : Q :=
  if Qle_bool (45 # 10) (default 0 (rating p)) then 10
  else if Qle_bool 4 (default 0 (rating p)) then 5
  else 0.

(** The tests of [apply_filters], one product at a time, for price
    bounds that have been converted. *)
Definition passes_category (f : filters) (p : product) : bool :=
  match truthy_str (f_category f) with
  | Some c =>
      Text.contains (Text.lower (str_or_empty (category_slug p))) (Text.lower c)
      || Text.contains (Text.lower (str_or_empty (product_type p))) (Text.lower c)
  | None => true
  end.

Definition passes_animal (f : filters) (p : product) : bool :=
  match truthy_str (f_animal f) with
  | Some a => String.eqb (Text.lower (str_or_empty (animal p))) (Text.lower a)
  | None => true
  end.

Definition passes_images (f : filters) (p : product) : bool :=
  match has_images f with
  | Some true => bool_decide (images p <> [])
  | _ => true
  end.

Definition passes_min (lo : option Q) (p : product) : bool :=
  match lo with
  | Some q => Qle_bool q (num_or (price p) 0)
  | None => true
  end.

Definition passes_max (hi : option Q) (p : product) : bool :=
  match hi with
  | Some q => Qle_bool (num_or (price p) 999999) q
  | None => true
  end.

Definition passes (f : filters) (lo hi : option Q) (p : product) : bool :=
  passes_category f p && passes_animal f p && passes_min lo p
  && passes_max hi p && passes_images f p.

(** [float] on an optional bound. *)
Definition bound_value (float_of_str : string -> option Q) (b : option bound)
    : result (option Q) :=
  match b with
  | Some x => q ← to_float float_of_str x ; Ok (Some q)
  | None => Ok None
  end.

(** A product that the index takes in: its identifier is present and
    true. *)
Definition indexed (p : product) : bool :=
  match id p with
  | Some i => pid_truthy i
  | None => false
  end.

(* ===================================================================== *)
(** ** More sample data                                                   *)
(* ===================================================================== *)

(** The sample catalogue searched for "dog" and sorted by name. *)
Definition sample_response_by_name : response :=
  {| results := [bare_product 3 "Dog Bed" None; bare_product 1 "Squeaky Dog Ball" (Some 8)];
     total := 2; resp_query := "dog"; resp_filters := Some None;
     resp_sort := Some "name" |}.

(** A filter set with the price window from 5 to 9. *)
Definition window_5_9 : filters :=
  {| f_category := None; f_animal := None; price_min := Some (BNum 5);
     price_max := Some (BNum 9); has_images := None |}.

(** The terms of a small stored index. *)
Definition sample_terms : list (string * list pid) :=
  [("dog", [IdNum 1; IdNum 3]); ("door", [IdNum 2]); ("cat", [IdNum 4])].

(** A small upsell catalogue. *)
Definition upsell_catalog : list product :=
  [item 1 "toys" ["dog"] (Some 8) (Some 5%Z);
   item 2 "toys" ["dog"; "ball"] (Some 10) (Some 0%Z);
   item 3 "beds" [] (Some 50) None].

(* ===================================================================== *)
(** * Properties                                                          *)
(* ===================================================================== *)

Example normalize_text_ex1 :
  normalize_text (Some "  Squeaky   Dog-Ball!! ") = "squeaky dog ball".
Proof. reflexivity. Qed.

Example normalize_text_ex2 : normalize_text (Some "a_b") = "a_b".
Proof. reflexivity. Qed.

Example tokens_ex1 : tokens "  Squeaky   Dog-Ball!! " = ["squeaky"; "dog"; "ball"].
Proof. reflexivity. Qed.

(* --------------------------------------------------------------------- *)
(** ** The text normaliser                                                *)
(* --------------------------------------------------------------------- *)

Module TextFacts.
Import Text.

(** A run that is already open swallows leading white space. *)
Lemma lstrip_collapse_open s : lstrip (collapse_ws true s) = collapse_ws true s.
Proof.
  induction s as [|c s IH]; simpl; [reflexivity|].
  destruct (is_space c) eqn:Hc; [exact IH|].
  simpl. now rewrite Hc.
Qed.

Lemma lstrip_collapse s : lstrip (collapse_ws false s) = collapse_ws true s.
Proof.
  destruct s as [|c s]; simpl; [reflexivity|].
  destruct (is_space c) eqn:Hc; simpl.
  - apply lstrip_collapse_open.
  - now rewrite Hc.
Qed.

Lemma split_nonempty s : Forall (fun w => is_empty w = false) (split s).
Proof.
  induction s as [|c s IH]; simpl; [constructor|].
  destruct (is_space c); [exact IH|].
  destruct (starts_with_space s).
  - constructor; [reflexivity|exact IH].
  - destruct (split s) as [|w ws]; [repeat constructor|].
    inversion IH; subst. constructor; [reflexivity|assumption].
Qed.

Lemma join_sp_cons_char c w ws :
  join_sp (String c w :: ws) = String c (join_sp (w :: ws)).
Proof. simpl. destruct ws; reflexivity. Qed.

Lemma join_sp_empty ws :
  Forall (fun w => is_empty w = false) ws ->
  is_empty (join_sp ws) = match ws with [] => true | _ => false end.
Proof.
  intros H. destruct ws as [|w ws]; [reflexivity|].
  inversion H; subst. destruct w as [|c w]; [discriminate|].
  rewrite join_sp_cons_char. reflexivity.
Qed.

Lemma rstrip_collapse s :
  rstrip (collapse_ws true s) = join_sp (split s)
  /\ rstrip (collapse_ws false s) =
       if leading_space s
       then (if is_empty (join_sp (split s)) then EmptyString
             else String space (join_sp (split s)))
       else join_sp (split s).
Proof.
  induction s as [|c s [IHt IHf]]; [split; reflexivity|].
  simpl. destruct (is_space c) eqn:Hc.
  - split; [exact IHt|].
    simpl. rewrite IHt. reflexivity.
  - assert (Hcons : forall X, rstrip (String c X) = String c (rstrip X)).
    { intros X. simpl. now rewrite Hc. }
    rewrite Hcons, IHf.
    assert (Hgoal :
      String c (if leading_space s
                then (if is_empty (join_sp (split s)) then EmptyString
                      else String space (join_sp (split s)))
                else join_sp (split s))
      = join_sp (if starts_with_space s then String c EmptyString :: split s
                 else match split s with
                      | w :: ws => String c w :: ws
                      | [] => [String c EmptyString]
                      end)).
    { pose proof (split_nonempty s) as Hne.
      destruct s as [|d s']; [reflexivity|].
      cbn [leading_space starts_with_space].
      destruct (is_space d) eqn:Hd.
      - rewrite (join_sp_empty _ Hne).
        destruct (split (String d s')) as [|w ws]; reflexivity.
      - destruct (split (String d s')) as [|w ws]; [reflexivity|].
        now rewrite join_sp_cons_char. }
    split; exact Hgoal.
Qed.

Lemma strip_collapse s :
  strip (collapse_ws false s) = join_sp (split s).
Proof.
  unfold strip. rewrite lstrip_collapse. apply rstrip_collapse.
Qed.

(** The words of a text whose characters are white space or satisfy
    [f] are non-empty and made of characters that satisfy [f]. *)
Lemma split_all_chars (f : ascii -> bool) s :
  all_chars (fun c => f c || is_space c) s = true ->
  Forall (fun w => negb (is_empty w) && all_chars f w = true) (split s).
Proof.
  induction s as [|c s IH]; simpl; [constructor|].
  intros [Hc Hs]%andb_prop. specialize (IH Hs).
  destruct (is_space c) eqn:Hsp; [exact IH|].
  rewrite orb_false_r in Hc.
  destruct (starts_with_space s).
  - constructor; [simpl; now rewrite Hc|exact IH].
  - destruct (split s) as [|w ws].
    + repeat constructor. simpl. now rewrite Hc.
    + inversion IH as [|? ? Hw Hws]; subst.
      constructor; [|exact Hws].
      apply andb_prop in Hw as [_ Hw]. simpl. now rewrite Hc, Hw.
Qed.

Lemma lowered_char_class c :
  let d := lower_char c in
  let e := if is_word d || is_space d then d else space in
  (is_word e && negb (is_upper e)) || is_space e = true.
Proof. destruct c as [[] [] [] [] [] [] [] []]; reflexivity. Qed.

Lemma sub_punct_lower_chars t :
  all_chars (fun c => (is_word c && negb (is_upper c)) || is_space c)
    (sub_punct (lower t)) = true.
Proof.
  induction t as [|c t IH]; [reflexivity|].
  cbn [lower sub_punct map_chars all_chars].
  apply andb_true_intro. split; [apply lowered_char_class|exact IH].
Qed.

End TextFacts.

Lemma tokens_ok t : Forall (fun w => token_ok w = true) (tokens t).
Proof.
  unfold tokens, token_ok.
  apply (TextFacts.split_all_chars
           (fun c => Text.is_word c && negb (Text.is_upper c))).
  apply TextFacts.sub_punct_lower_chars.
Qed.

Lemma normalize_text_tokens t : normalize_text (Some t) = Text.join_sp (tokens t).
Proof.
  unfold normalize_text, tokens.
  destruct t as [|c t]; [reflexivity|].
  cbn [Text.is_empty]. apply TextFacts.strip_collapse.
Qed.

(** C9 (as the code has it).  [normalize_text] maps a missing text to the
    empty string and is total; on a text it returns the tokens of the
    text joined by single spaces, where the tokens are the maximal runs
    of word characters (letters, digits and the underscore) of the
    lowered text: every other character, punctuation or white space,
    only separates tokens, and nothing is left at either end. *)
Theorem normalize_text_words :
  normalize_text None = EmptyString
  /\ forall t : string,
       normalize_text (Some t) = Text.join_sp (tokens t)
       /\ Forall (fun w => token_ok w = true) (tokens t).
Proof.
  split; [reflexivity|].
  intros t. split; [apply normalize_text_tokens|apply tokens_ok].
Qed.

(** C9, counterexample.  The underscore is neither alphanumeric nor white
    space, yet [normalize_text] keeps it: on ["a_b"] it differs from the
    normaliser the specification describes. *)
Lemma normalize_text_keeps_underscore :
  normalize_text (Some "a_b") = "a_b"
  /\ normalize_text_as_specified (Some "a_b") = "a b"
  /\ normalize_text (Some "a_b") <> normalize_text_as_specified (Some "a_b").
Proof. repeat split. discriminate. Qed.

(* --------------------------------------------------------------------- *)
(** ** The stable sort                                                    *)
(* --------------------------------------------------------------------- *)

Section SortFacts.
Context {A K : Type} (le : K -> K -> bool) (key : A -> K).

Lemma insert_by_perm x l : insert_by le key x l ≡ₚ x :: l.
Proof.
  induction l as [|y l IH]; simpl; [reflexivity|].
  destruct (le (key x) (key y)); [reflexivity|].
  rewrite IH. apply Permutation_swap.
Qed.

Lemma sort_by_perm l : sort_by le key l ≡ₚ l.
Proof.
  induction l as [|x l IH]; simpl; [reflexivity|].
  rewrite insert_by_perm. now rewrite IH.
Qed.

Lemma sort_by_length l : length (sort_by le key l) = length l.
Proof. apply Permutation_length, sort_by_perm. Qed.

Hypothesis le_total : forall a b, le a b = true \/ le b a = true.
Hypothesis le_trans : forall a b c, le a b = true -> le b c = true -> le a c = true.

Lemma insert_by_sorted x l :
  StronglySorted (ordered le key) l -> StronglySorted (ordered le key) (insert_by le key x l).
Proof.
  induction 1 as [|y l Hl IH Hy]; simpl.
  - repeat constructor.
  - destruct (le (key x) (key y)) eqn:Hxy.
    + constructor; [constructor; assumption|].
      constructor; [exact Hxy|].
      eapply Forall_impl; [exact Hy|].
      intros z Hz. exact (le_trans _ _ _ Hxy Hz).
    + constructor; [exact IH|].
      rewrite insert_by_perm. constructor; [|exact Hy].
      destruct (le_total (key x) (key y)) as [H|H]; [congruence|exact H].
Qed.

Lemma sort_by_sorted l : StronglySorted (ordered le key) (sort_by le key l).
Proof.
  induction l as [|x l IH]; simpl; [constructor|].
  now apply insert_by_sorted.
Qed.

End SortFacts.

Section SortStable.
Context {A K : Type} (le : K -> K -> bool) (key : A -> K).

(** [f] selects a class of elements that the sort never moves an
    element of the class across: whatever has to come before a member
    of the class is not in the class. *)
Variable f : A -> bool.
Hypothesis f_class :
  forall x y, f x = true -> le (key x) (key y) = false -> f y = false.

Lemma filter_insert_by x l :
  List.filter f (insert_by le key x l) = List.filter f (x :: l).
Proof.
  induction l as [|y l IH]; [reflexivity|].
  cbn [insert_by]. destruct (le (key x) (key y)) eqn:Hxy; [reflexivity|].
  cbn [List.filter] in *. rewrite IH.
  destruct (f x) eqn:Hx; [|reflexivity].
  now rewrite (f_class x y Hx Hxy).
Qed.

Lemma filter_sort_by l : List.filter f (sort_by le key l) = List.filter f l.
Proof.
  induction l as [|x l IH]; [reflexivity|].
  cbn [sort_by foldr]. rewrite filter_insert_by.
  cbn [List.filter]. fold (sort_by le key l). now rewrite IH.
Qed.

End SortStable.

(** Sorting commutes with a change of the elements that keeps the keys. *)
Lemma sort_by_map {A K : Type} (le : K -> K -> bool) (key : A -> K) (g : A -> A) l :
  (forall x, key (g x) = key x) ->
  sort_by le key (map g l) = map g (sort_by le key l).
Proof.
  intros Hg.
  assert (Hins : forall x l', insert_by le key (g x) (map g l') = map g (insert_by le key x l')).
  { intros x l'. induction l' as [|y l' IH]; [reflexivity|].
    cbn [insert_by map]. rewrite !Hg.
    destruct (le (key x) (key y)); [reflexivity|].
    cbn [map]. now rewrite IH. }
  induction l as [|x l IH]; [reflexivity|].
  change (sort_by le key (map g (x :: l)))
    with (insert_by le key (g x) (sort_by le key (map g l))).
  rewrite IH. apply Hins.
Qed.

Lemma filter_map_same {A : Type} (f : A -> bool) (g : A -> A) l :
  (forall x, f (g x) = f x) ->
  List.filter f (map g l) = map g (List.filter f l).
Proof.
  intros Hg. induction l as [|x l IH]; [reflexivity|].
  cbn [map List.filter]. rewrite Hg, IH.
  now destruct (f x).
Qed.

Lemma filter_sublist {A : Type} (f : A -> bool) l : List.filter f l `sublist_of` l.
Proof.
  induction l as [|x l IH]; simpl; [constructor|].
  destruct (f x); now constructor.
Qed.

Lemma slice_to_take {A : Type} limit (l : list A) :
  exists n, slice_to limit l = take n l.
Proof. unfold slice_to. destruct (0 <=? limit)%Z; eauto. Qed.

Lemma slice_to_all {A : Type} limit (l : list A) :
  (Z.of_nat (length l) <= limit)%Z -> slice_to limit l = l.
Proof.
  intros H. unfold slice_to.
  destruct (0 <=? limit)%Z eqn:E; [|lia].
  apply take_ge. lia.
Qed.

(* --------------------------------------------------------------------- *)
(** ** Lists: sublists, filters and sorted lists                          *)
(* --------------------------------------------------------------------- *)

Lemma StronglySorted_sublist {A : Type} (R : A -> A -> Prop) l1 l2 :
  l1 `sublist_of` l2 -> StronglySorted R l2 -> StronglySorted R l1.
Proof.
  induction 1 as [|x l1 l2 Hs IH|x l1 l2 Hs IH]; intros H2.
  - constructor.
  - inversion H2 as [|? ? Hl Hx]; subst. constructor; [now apply IH|].
    rewrite Forall_forall in *. intros y Hy. apply Hx.
    eapply elem_of_sublist; eauto.
  - inversion H2; subst. now apply IH.
Qed.

Lemma StronglySorted_weaken {A : Type} (R R' : A -> A -> Prop) l :
  (forall a b, a ∈ l -> b ∈ l -> R a b -> R' a b) ->
  StronglySorted R l -> StronglySorted R' l.
Proof.
  intros HR H. induction H as [|x l Hl IH Hx]; [constructor|].
  constructor.
  - apply IH. intros a b Ha Hb. apply HR; now constructor.
  - rewrite Forall_forall in *. intros y Hy.
    apply HR; [constructor|now constructor|now apply Hx].
Qed.

Lemma filter_sublist_mono {A : Type} (f : A -> bool) l1 l2 :
  l1 `sublist_of` l2 -> List.filter f l1 `sublist_of` List.filter f l2.
Proof.
  induction 1 as [|x l1 l2 Hs IH|x l1 l2 Hs IH]; simpl.
  - constructor.
  - destruct (f x); [now constructor|exact IH].
  - destruct (f x); [now constructor|exact IH].
Qed.

Lemma filter_all {A : Type} (f : A -> bool) l :
  (forall x, x ∈ l -> f x = true) -> List.filter f l = l.
Proof.
  induction l as [|x l IH]; intros H; simpl; [reflexivity|].
  rewrite (H x) by constructor. f_equal. apply IH.
  intros y Hy. apply H. now constructor.
Qed.

Lemma filter_elem_of {A : Type} (f : A -> bool) l x :
  x ∈ List.filter f l <-> x ∈ l /\ f x = true.
Proof. rewrite !list_elem_of_In. apply filter_In. Qed.

Section SearchFacts.
Variable ratio : string -> string -> Q.
Variable float_of_str : string -> option Q.

Lemma fold_scores_absent query l m k :
  k ∉ map id l -> foldl (record_score ratio query) m l !! k = m !! k.
Proof.
  revert m. induction l as [|p l IH]; intros m Hk; [reflexivity|].
  cbn [foldl map] in *. apply not_elem_of_cons in Hk as [Hne Hk].
  rewrite IH by exact Hk. unfold record_score.
  now rewrite lookup_insert_ne.
Qed.

Lemma fold_scores_key query l m k :
  k ∈ map id l ->
  exists p', p' ∈ l /\ id p' = k
             /\ foldl (record_score ratio query) m l !! k = Some (calculate_relevance ratio p' query).
Proof.
  revert m. induction l as [|a l IH]; intros m Hk; [inversion Hk|].
  cbn [foldl].
  destruct (decide (k ∈ map id l)) as [Hin|Hout].
  - destruct (IH (record_score ratio query m a) Hin) as (p' & Hp' & Hid & Hl).
    exists p'. split; [now constructor|]. now split.
  - cbn [map] in Hk. apply elem_of_cons in Hk as [->|Hk]; [|contradiction].
    exists a. split; [constructor|]. split; [reflexivity|].
    rewrite fold_scores_absent by exact Hout.
    unfold record_score. apply lookup_insert_eq.
Qed.

Lemma fold_scores_last query l m p :
  p ∈ l ->
  exists p', p' ∈ l /\ id p' = id p
             /\ foldl (record_score ratio query) m l !! id p = Some (calculate_relevance ratio p' query).
Proof.
  intros Hp. apply fold_scores_key.
  apply list_elem_of_In, in_map. now apply list_elem_of_In.
Qed.

Lemma build_scores_last query l p :
  p ∈ l ->
  exists p', p' ∈ l /\ id p' = id p
             /\ score_of (build_scores ratio l query) p = calculate_relevance ratio p' query.
Proof.
  intros Hp. destruct (fold_scores_last query l ∅ p Hp) as (p' & H1 & H2 & H3).
  exists p'. repeat split; try assumption.
  unfold score_of, build_scores. now rewrite H3.
Qed.

Lemma build_scores_own query l p :
  NoDup (map id l) -> p ∈ l ->
  score_of (build_scores ratio l query) p = calculate_relevance ratio p query.
Proof.
  intros Hnd Hp. destruct (build_scores_last query l p Hp) as (p' & H1 & H2 & H3).
  rewrite H3. f_equal.
  clear H3. induction l as [|a l IH]; [inversion Hp|].
  cbn [map] in Hnd. apply NoDup_cons in Hnd as [Ha Hnd].
  apply elem_of_cons in Hp as [->|Hp]; apply elem_of_cons in H1 as [->|H1];
    try reflexivity.
  - exfalso. apply Ha. rewrite <- H2. apply list_elem_of_In, in_map.
    now apply list_elem_of_In.
  - exfalso. apply Ha. rewrite H2. apply list_elem_of_In, in_map.
    now apply list_elem_of_In.
  - now apply IH.
Qed.

Lemma build_scores_nonempty query p l : build_scores ratio (p :: l) query <> ∅.
Proof.
  intros H.
  destruct (fold_scores_last query (p :: l) ∅ p) as (p' & _ & _ & Hl);
    [constructor|].
  unfold build_scores in H. rewrite H in Hl. now rewrite lookup_empty in Hl.
Qed.
End SearchFacts.

(* --------------------------------------------------------------------- *)
(** ** The search pipeline                                                *)
(* --------------------------------------------------------------------- *)

Lemma apply_filters_sublist float_of_str l fs l' :
  apply_filters float_of_str l fs = Ok l' -> l' `sublist_of` l.
Proof.
  unfold apply_filters. destruct (no_filters fs).
  { intros [= <-]. reflexivity. }
  destruct fs as [f|]; [|intros [= <-]; reflexivity].
  set (l1 := match truthy_str (f_category f) with Some _ => _ | None => l end).
  set (l2 := match truthy_str (f_animal f) with Some _ => _ | None => l1 end).
  assert (H1 : l1 `sublist_of` l).
  { subst l1. destruct (truthy_str (f_category f)); [apply filter_sublist|reflexivity]. }
  assert (H2 : l2 `sublist_of` l1).
  { subst l2. destruct (truthy_str (f_animal f)); [apply filter_sublist|reflexivity]. }
  clearbody l1 l2.
  destruct (price_min f) as [b|]; cbn [mbind result_bind].
  - destruct (to_float float_of_str b) as [q|e]; cbn [mbind result_bind]; [|discriminate].
    destruct (price_max f) as [b'|]; cbn [mbind result_bind].
    + destruct (to_float float_of_str b') as [q'|e']; cbn [mbind result_bind]; [|discriminate].
      intros [= <-]. etrans; [|exact H1]. etrans; [|exact H2].
      etrans; [|apply filter_sublist]. etrans; [|apply filter_sublist].
      destruct (has_images f) as [[]|]; [apply filter_sublist|reflexivity..].
    + intros [= <-]. etrans; [|exact H1]. etrans; [|exact H2].
      etrans; [|apply filter_sublist].
      destruct (has_images f) as [[]|]; [apply filter_sublist|reflexivity..].
  - destruct (price_max f) as [b'|]; cbn [mbind result_bind].
    + destruct (to_float float_of_str b') as [q'|e']; cbn [mbind result_bind]; [|discriminate].
      intros [= <-]. etrans; [|exact H1]. etrans; [|exact H2].
      etrans; [|apply filter_sublist].
      destruct (has_images f) as [[]|]; [apply filter_sublist|reflexivity..].
    + intros [= <-]. etrans; [|exact H1]. etrans; [|exact H2].
      destruct (has_images f) as [[]|]; [apply filter_sublist|reflexivity..].
Qed.

Lemma sort_products_perm l sort_by scores : sort_products l sort_by scores ≡ₚ l.
Proof.
  unfold sort_products, py_sorted.
  repeat match goal with
         | |- context [if ?b then _ else _] => destruct b
         end; try apply sort_by_perm; reflexivity.
Qed.

Lemma sort_products_relevance l scores :
  scores <> ∅ ->
  sort_products l "relevance" scores
  = sort_by (fun a b => Qle_bool b a) (score_of scores) l.
Proof.
  intros H. unfold sort_products, py_sorted.
  now rewrite bool_decide_eq_true_2.
Qed.

Lemma Qge_total a b : Qle_bool b a = true \/ Qle_bool a b = true.
Proof. rewrite !Qle_bool_iff. destruct (Qlt_le_dec a b); [right|left]; lra. Qed.

Lemma Qge_trans a b c : Qle_bool b a = true -> Qle_bool c b = true -> Qle_bool c a = true.
Proof. rewrite !Qle_bool_iff. lra. Qed.

(** Elements whose key equals [v] form a class that the descending sort
    keeps in order. *)
Lemma Qeq_class_desc {A : Type} (key : A -> Q) v x y :
  Qeq_bool (key x) v = true -> Qle_bool (key y) (key x) = false ->
  Qeq_bool (key y) v = false.
Proof.
  intros Hx Hxy. apply Qeq_bool_iff in Hx.
  apply not_true_is_false. intros Hy%Qeq_bool_iff.
  apply not_true_iff_false in Hxy. apply Hxy, Qle_bool_iff. lra.
Qed.

Lemma Qle_total' a b : Qle_bool a b = true \/ Qle_bool b a = true.
Proof. destruct (Qge_total a b); auto. Qed.

Lemma Qle_trans' a b c : Qle_bool a b = true -> Qle_bool b c = true -> Qle_bool a c = true.
Proof. rewrite !Qle_bool_iff. lra. Qed.

Lemma Qeq_class_asc {A : Type} (key : A -> Q) v x y :
  Qeq_bool (key x) v = true -> Qle_bool (key x) (key y) = false ->
  Qeq_bool (key y) v = false.
Proof.
  intros Hx Hxy. apply Qeq_bool_iff in Hx.
  apply not_true_is_false. intros Hy%Qeq_bool_iff.
  apply not_true_iff_false in Hxy. apply Hxy, Qle_bool_iff. lra.
Qed.

(** C4 (as the code has it).  On a catalogue whose identifiers are
    unique, a search by relevance that returns keeps no product whose
    relevance is below 10, lists the products by descending relevance,
    and leaves the products of equal relevance in the order they have in
    the catalogue.  The scores are kept in a dictionary by identifier,
    so products that share an identifier share the score of the last of
    them. *)
Theorem relevance_search_ranked :
  forall (ratio : string -> string -> Q) (float_of_str : string -> option Q)
         (catalog : list product) (query : string) (fs : option filters)
         (limit : Z) (r : response),
    NoDup (map id catalog) ->
    search_products ratio float_of_str catalog query fs "relevance" limit = Ok r ->
    let score := fun p => calculate_relevance ratio p query in
    Forall (fun p => 10 <= score p) (results r)
    /\ StronglySorted (fun a b => score b <= score a) (results r)
    /\ forall v : Q,
         List.filter (fun p => Qeq_bool (score p) v) (results r) `sublist_of` catalog.
Proof.
  intros ratio fl catalog query fs limit r Hnd Hs score.
  unfold search_products in Hs.
  destruct catalog as [|p0 l0] eqn:Hcat.
  { injection Hs as <-. cbn. repeat split; constructor. }
  rewrite <- Hcat in *. 
  set (scores := build_scores ratio catalog query) in *.
  set (matched := List.filter _ catalog) in *.
  destruct (apply_filters fl matched fs) as [filtered|e] eqn:Hf;
    cbn [mbind result_bind] in Hs; [|destruct catalog; discriminate].
  assert (Hr : results r = slice_to limit (sort_products filtered "relevance" scores)).
  { destruct catalog; [discriminate|]. now injection Hs as <-. }
  clear Hs.
  assert (Hne : scores <> ∅).
  { subst scores. rewrite Hcat. apply build_scores_nonempty. }
  rewrite (sort_products_relevance _ _ Hne) in Hr.
  set (desc := fun a b : Q => Qle_bool b a) in *.
  set (sorted := sort_by desc (score_of scores) filtered) in *.
  destruct (slice_to_take limit sorted) as [n Hn]. rewrite Hn in Hr.
  assert (Hsub : filtered `sublist_of` catalog).
  { etrans; [eapply apply_filters_sublist; exact Hf|]. apply filter_sublist. }
  assert (Hown : forall p, p ∈ results r -> p ∈ matched /\ score_of scores p = score p).
  { intros p Hp. rewrite Hr in Hp.
    assert (Hpf : p ∈ filtered).
    { rewrite <- (sort_by_perm desc (score_of scores) filtered).
      eapply elem_of_sublist; [exact Hp|apply sublist_take]. }
    split.
    - eapply elem_of_sublist; [exact Hpf|]. eapply apply_filters_sublist; exact Hf.
    - apply build_scores_own; [exact Hnd|].
      eapply elem_of_sublist; [exact Hpf|exact Hsub]. }
  split; [|split].
  - apply Forall_forall. intros p Hp.
    destruct (Hown p Hp) as [Hm Hsc]. rewrite <- Hsc.
    apply filter_elem_of in Hm as [_ Hm]. now apply Qle_bool_iff in Hm.
  - eapply StronglySorted_weaken;
      [|rewrite Hr; eapply StronglySorted_sublist;
        [apply sublist_take
        |apply (sort_by_sorted desc (score_of scores));
         [intros a b; apply Qge_total|intros a b c; apply Qge_trans]]].
    intros a b Ha Hb Hab.
    destruct (Hown a Ha) as [_ <-], (Hown b Hb) as [_ <-].
    now apply Qle_bool_iff.
  - intros v.
    rewrite (filter_ext_in (fun p => Qeq_bool (score p) v)
               (fun p => Qeq_bool (score_of scores p) v)).
    2:{ intros p Hp%list_elem_of_In. now destruct (Hown p Hp) as [_ ->]. }
    rewrite Hr. etrans; [apply filter_sublist_mono, sublist_take|].
    subst sorted. rewrite filter_sort_by.
    + etrans; [apply filter_sublist|exact Hsub].
    + intros x y. apply Qeq_class_desc.
Qed.

(** C4, at a catalogue on which the library matcher is never called. *)
Lemma relevance_search_ranked_witness :
  let score := fun p => calculate_relevance no_ratio p "dog" in
  NoDup (map id dog_catalog)
  /\ search_products no_ratio no_float dog_catalog "dog" None "relevance" 50
     = Ok (dog_response "relevance")
  /\ Forall (fun p => 10 <= score p) (results (dog_response "relevance"))
  /\ StronglySorted (fun a b => score b <= score a) (results (dog_response "relevance"))
  /\ forall v : Q,
       List.filter (fun p => Qeq_bool (score p) v) (results (dog_response "relevance"))
         `sublist_of` dog_catalog.
Proof.
  intros score.
  assert (Hnd : NoDup (map id dog_catalog)).
  { refine (bool_decide_unpack (NoDup (map id dog_catalog)) _). vm_compute. exact I. }
  assert (Hs : search_products no_ratio no_float dog_catalog "dog" None "relevance" 50
               = Ok (dog_response "relevance")) by (vm_compute; reflexivity).
  split; [exact Hnd|]. split; [exact Hs|].
  exact (relevance_search_ranked no_ratio no_float dog_catalog "dog" None 50 _ Hnd Hs).
Defined.

(** C4, counterexample.  Two products share the identifier 1.  The
    scores are kept by identifier, and the second product, whose title
    holds the query, overwrites the score of the first, whose own
    relevance is 0 whatever the library matcher answers: the first is
    kept by the threshold and returned. *)
Lemma shared_id_shares_score :
  let untitled := bare_product 1 "" None in
  let bed := bare_product 1 "Dog Bed" None in
  (forall (ratio : string -> string -> Q) (float_of_str : string -> option Q),
     search_products ratio float_of_str [untitled; bed] "dog" None "relevance" 50
     = Ok {| results := [untitled; bed]; total := 2; resp_query := "dog";
             resp_filters := Some None; resp_sort := Some "relevance" |}
     /\ calculate_relevance ratio untitled "dog" == 0
     /\ calculate_relevance ratio bed "dog" == 150)
  /\ ~ (forall (ratio : string -> string -> Q) (float_of_str : string -> option Q)
               (catalog : list product) (query : string) (fs : option filters)
               (limit : Z) (r : response),
          search_products ratio float_of_str catalog query fs "relevance" limit = Ok r ->
          let score := fun p => calculate_relevance ratio p query in
          Forall (fun p => 10 <= score p) (results r)
          /\ StronglySorted (fun a b => score b <= score a) (results r)
          /\ forall v : Q,
               List.filter (fun p => Qeq_bool (score p) v) (results r)
                 `sublist_of` catalog).
Proof.
  intros untitled bed.
  assert (Hs : forall (ratio : string -> string -> Q) (fl : string -> option Q),
             search_products ratio fl [untitled; bed] "dog" None "relevance" 50
             = Ok {| results := [untitled; bed]; total := 2; resp_query := "dog";
                     resp_filters := Some None; resp_sort := Some "relevance" |})
    by (intros ratio fl; vm_compute; reflexivity).
  assert (H0 : forall ratio : string -> string -> Q,
             calculate_relevance ratio untitled "dog" == 0)
    by (intros ratio; vm_compute; reflexivity).
  split.
  - intros ratio fl. split; [apply Hs|]. split; [apply H0|].
    vm_compute. reflexivity.
  - intros H.
    destruct (H no_ratio no_float _ _ _ _ _ (Hs no_ratio no_float)) as [Hall _].
    apply Forall_inv in Hall. rewrite (H0 no_ratio) in Hall.
    revert Hall. apply Qlt_not_le. reflexivity.
Qed.

(* --------------------------------------------------------------------- *)
(** ** Missing prices in the filter and sort stage                        *)
(* --------------------------------------------------------------------- *)

Lemma sort_products_price_low l sc :
  sort_products l "price_low" sc
  = py_sorted Qle_bool (fun p => num_or (price p) 0) false l.
Proof. reflexivity. Qed.

Lemma sort_products_price_high l sc :
  sort_products l "price_high" sc
  = py_sorted Qle_bool (fun p => num_or (price p) 0) true l.
Proof. reflexivity. Qed.

Lemma num_or_assume_price d p :
  num_or (price (assume_price d p)) d = num_or (price p) d.
Proof. cbn. destruct (price p) as [q|]; cbn; [reflexivity|]. now destruct (Qeq_bool d 0). Qed.

(** The key of the two price sorts is the price, a missing one read
    as 0. *)
Lemma num_or_price_or p : num_or (price p) 0 == price_or 0 p.
Proof.
  unfold num_or, price_or. destruct (price p) as [q|]; cbn; [|reflexivity].
  destruct (Qeq_bool q 0) eqn:E; [|reflexivity].
  apply Qeq_bool_iff in E. now rewrite E.
Qed.

(** C5 (as the code has it).  Both price sorts read a missing price as
    0.  The ascending sort returns the products it is given in ascending
    order of price and the descending sort returns them in descending
    order of price, a missing price counting as 0 in the one and in the
    other; products of equal price keep the order they came in.  The
    [price_max] filter reads a missing price as 999999: it gives, on a
    list, what it gives once 999999 is written into the products that
    lack a price. *)
Theorem missing_price_defaults :
  forall (float_of_str : string -> option Q) (l : list product)
         (scores : gmap (option pid) Q),
    let low := sort_products l "price_low" scores in
    let high := sort_products l "price_high" scores in
    (low ≡ₚ l
     /\ StronglySorted (fun a b => price_or 0 a <= price_or 0 b) low
     /\ forall v : Q,
          List.filter (fun p => Qeq_bool (price_or 0 p) v) low
          = List.filter (fun p => Qeq_bool (price_or 0 p) v) l)
    /\ (high ≡ₚ l
        /\ StronglySorted (fun a b => price_or 0 b <= price_or 0 a) high
        /\ forall v : Q,
             List.filter (fun p => Qeq_bool (price_or 0 p) v) high
             = List.filter (fun p => Qeq_bool (price_or 0 p) v) l)
    /\ forall c a b h,
         let fs := Some {| f_category := c; f_animal := a; price_min := None;
                           price_max := b; has_images := h |} in
         apply_filters float_of_str (map (assume_price 999999) l) fs
         = fmap (M := result) (map (assume_price 999999))
             (apply_filters float_of_str l fs).
Proof.
  intros fl l scores low high. subst low high.
  rewrite sort_products_price_low, sort_products_price_high. unfold py_sorted.
  set (key := fun p : product => num_or (price p) 0).
  assert (Hv : forall (v : Q) (l0 : list product),
             List.filter (fun p => Qeq_bool (price_or 0 p) v) l0
             = List.filter (fun p => Qeq_bool (key p) v) l0).
  { intros v l0. apply filter_ext. intros p. unfold key.
    now rewrite (num_or_price_or p). }
  split; [|split].
  - split; [apply sort_by_perm|]. split.
    + eapply StronglySorted_weaken;
        [|apply (sort_by_sorted Qle_bool key);
          [intros a b; apply Qle_total'|intros a b c; apply Qle_trans']].
      intros a b _ _ H. apply Qle_bool_iff in H. unfold key in H.
      now rewrite !num_or_price_or in H.
    + intros v. rewrite !Hv. apply filter_sort_by.
      intros x y. apply (Qeq_class_asc key v x y).
  - split; [apply sort_by_perm|]. split.
    + eapply StronglySorted_weaken;
        [|apply (sort_by_sorted (fun a b => Qle_bool b a) key);
          [intros a b; apply Qge_total|intros a b c; apply Qge_trans]].
      intros a b _ _ H. apply Qle_bool_iff in H. unfold key in H.
      now rewrite !num_or_price_or in H.
    + intros v. rewrite !Hv. apply filter_sort_by.
      intros x y. apply (Qeq_class_desc key v x y).
  - intros c a b h. cbv zeta. unfold apply_filters.
    destruct (no_filters _); [reflexivity|].
    cbn [f_category f_animal price_min price_max has_images].
    destruct (truthy_str c) as [c'|], (truthy_str a) as [a'|];
      repeat (rewrite (filter_map_same _ (assume_price 999999)) by reflexivity).
    all: destruct b as [bd|];
      [destruct (to_float fl bd) as [q|e]; [|reflexivity] |].
    all: cbn [mbind result_bind].
    all: try (rewrite (filter_map_same _ (assume_price 999999))
                by (intros x; now rewrite num_or_assume_price)).
    all: destruct h as [[]|]; cbn [fmap result_fmap];
      repeat (rewrite (filter_map_same _ (assume_price 999999)) by reflexivity);
      reflexivity.
Qed.

(** C5, counterexample.  In the descending price sort a product without
    a price is not ranked as if it cost 999999: it comes last, behind a
    product that costs 5. *)
Lemma missing_price_last_in_descending_sort :
  let a := bare_product 1 "a" None in
  let b := bare_product 2 "b" (Some 5) in
  sort_products [a; b] "price_high" ∅ = [b; a]
  /\ sort_products (map (assume_price 999999) [a; b]) "price_high" ∅
     = [assume_price 999999 a; assume_price 999999 b]
  /\ sort_products (map (assume_price 999999) [a; b]) "price_high" ∅
     <> map (assume_price 999999) (sort_products [a; b] "price_high" ∅).
Proof. repeat split. discriminate. Qed.

(* --------------------------------------------------------------------- *)
(** ** Blank queries                                                      *)
(* --------------------------------------------------------------------- *)

Lemma space_stays_space c :
  implb (Text.is_space c)
    (let d := Text.lower_char c in
     Text.is_space (if Text.is_word d || Text.is_space d then d else Text.space)) = true.
Proof. destruct c as [[] [] [] [] [] [] [] []]; reflexivity. Qed.

Lemma split_blank s : Text.all_chars Text.is_space s = true -> Text.split s = [].
Proof.
  induction s as [|c s IH]; [reflexivity|].
  cbn [Text.all_chars Text.split]. intros [Hc Hs]%andb_prop.
  rewrite Hc. now apply IH.
Qed.

Lemma blank_normalize query :
  blank query = true -> normalize_text (Some query) = EmptyString.
Proof.
  intros Hb. rewrite normalize_text_tokens. unfold tokens.
  rewrite split_blank; [reflexivity|].
  unfold blank in Hb. induction query as [|c q IH]; [reflexivity|].
  cbn [Text.all_chars] in Hb. apply andb_prop in Hb as [Hc Hq].
  cbn [Text.lower Text.sub_punct Text.map_chars Text.all_chars].
  apply andb_true_intro. split; [|now apply IH].
  pose proof (space_stays_space c) as H. rewrite Hc in H. exact H.
Qed.

Lemma contains_empty s : Text.contains s EmptyString = true.
Proof. destruct s; reflexivity. Qed.

Section BlankQuery.
Variable ratio : string -> string -> Q.

Lemma fuzzy_match_empty_query text : fuzzy_match ratio EmptyString text = 0.
Proof. reflexivity. Qed.

Lemma fold_no_match (k : Q) (l : list string) (s : Q) :
  foldl (fun sc t => sc + fuzzy_match ratio EmptyString t * k) s l == s.
Proof.
  revert s. induction l as [|t l IH]; intros s; [reflexivity|].
  cbn [foldl]. rewrite IH, fuzzy_match_empty_query. ring.
Qed.

Lemma blank_relevance p query :
  normalize_text (Some query) = EmptyString ->
  calculate_relevance ratio p query
  == 105 + (if bool_decide (images p <> []) then 5 else 0).
Proof.
  intros Hq. unfold calculate_relevance. rewrite Hq.
  rewrite !contains_empty, !fuzzy_match_empty_query.
  destruct (bool_decide (images p <> [])); rewrite !fold_no_match; ring.
Qed.
End BlankQuery.

(** C1 (as the code has it).  A blank query does not match nothing: every
    product scores 105, or 110 when it has an image, which is above the
    threshold, so the search returns every product that passes the
    filters. *)
Theorem blank_query_matches_all :
  forall (ratio : string -> string -> Q) (float_of_str : string -> option Q)
         (catalog : list product) (query : string) (fs : option filters)
         (sort_by : string) (limit : Z) (filtered : list product),
    blank query = true ->
    apply_filters float_of_str catalog fs = Ok filtered ->
    (forall p, calculate_relevance ratio p query
               == 105 + (if bool_decide (images p <> []) then 5 else 0))
    /\ exists r,
         search_products ratio float_of_str catalog query fs sort_by limit = Ok r
         /\ total r = length filtered
         /\ ((Z.of_nat (length filtered) <= limit)%Z -> results r ≡ₚ filtered).
Proof.
  intros ratio fl catalog query fs sort_by limit filtered Hb Hf.
  pose proof (blank_normalize query Hb) as Hq.
  split; [intros p; now apply blank_relevance|].
  unfold search_products. destruct catalog as [|p0 l0] eqn:Hcat.
  { apply apply_filters_sublist, sublist_nil_r in Hf as ->.
    eexists. split; [reflexivity|]. cbn. split; [reflexivity|]. reflexivity. }
  rewrite <- Hcat in *.
  rewrite (filter_all _ catalog).
  2:{ intros p Hp.
      destruct (build_scores_last ratio query catalog p Hp) as (p' & _ & _ & ->).
      apply Qle_bool_iff. rewrite (blank_relevance ratio p' query Hq).
      unfold min_score. destruct (bool_decide _); lra. }
  rewrite Hf. cbn [mbind result_bind].
  eexists. split; [reflexivity|]. cbn [total results]. split; [reflexivity|].
  intros Hl. rewrite slice_to_all.
  - apply sort_products_perm.
  - now rewrite (Permutation_length (sort_products_perm _ _ _)).
Qed.

(** C1, at a sample catalogue and the query of two spaces. *)
Lemma blank_query_matches_all_witness :
  blank "  " = true
  /\ apply_filters no_float sample_catalog None = Ok sample_catalog
  /\ (forall p, calculate_relevance no_ratio p "  "
                == 105 + (if bool_decide (images p <> []) then 5 else 0))
  /\ exists r,
       search_products no_ratio no_float sample_catalog "  " None "relevance" 50 = Ok r
       /\ total r = length sample_catalog
       /\ ((Z.of_nat (length sample_catalog) <= 50)%Z -> results r ≡ₚ sample_catalog).
Proof.
  split; [reflexivity|]. split; [reflexivity|].
  exact (blank_query_matches_all no_ratio no_float sample_catalog "  " None
           "relevance" 50 sample_catalog eq_refl eq_refl).
Defined.

(** C1, counterexample.  The query of two spaces returns the whole sample
    catalogue (the matcher is never consulted on a blank query), so it is
    not true that a blank query matches nothing. *)
Lemma blank_query_returns_products :
  search_products no_ratio no_float sample_catalog "  " None "relevance" 50
  = Ok {| results := sample_catalog; total := 3; resp_query := "  ";
          resp_filters := Some None; resp_sort := Some "relevance" |}
  /\ ~ (forall (ratio : string -> string -> Q) (float_of_str : string -> option Q)
               (catalog : list product) (query : string) (fs : option filters)
               (sort_by : string) (limit : Z) (r : response),
          blank query = true ->
          search_products ratio float_of_str catalog query fs sort_by limit = Ok r ->
          results r = [] /\ total r = 0%nat).
Proof.
  assert (Hs : search_products no_ratio no_float sample_catalog "  " None "relevance" 50
               = Ok {| results := sample_catalog; total := 3; resp_query := "  ";
                       resp_filters := Some None; resp_sort := Some "relevance" |})
    by (vm_compute; reflexivity).
  split; [exact Hs|].
  intros H.
  destruct (H no_ratio no_float sample_catalog "  " None "relevance" 50%Z _ eq_refl Hs)
    as [_ Ht].
  discriminate Ht.
Qed.

(* --------------------------------------------------------------------- *)
(** ** Malformed filters and sort keys                                    *)
(* --------------------------------------------------------------------- *)

Lemma bad_bound_to_float fl b :
  bad_bound fl (Some b) = true -> exists msg, to_float fl b = Err (ValueError msg).
Proof.
  destruct b as [q|s]; cbn; [discriminate|].
  destruct (fl s); [discriminate|]. eauto.
Qed.

Lemma good_bound_to_float fl b :
  bad_bound fl (Some b) = false -> exists q, to_float fl b = Ok q.
Proof.
  destruct b as [q|s]; cbn; [eauto|].
  destruct (fl s); [eauto|discriminate].
Qed.

Lemma apply_filters_bad_bound fl fs l :
  has_bad_bound fl fs = true -> exists msg, apply_filters fl l fs = Err (ValueError msg).
Proof.
  destruct fs as [f|]; [|discriminate]. cbn [has_bad_bound].
  intros Hbad. unfold apply_filters.
  assert (Hno : no_filters (Some f) = false).
  { cbn. destruct (price_min f), (price_max f); try discriminate Hbad;
      destruct (f_category f), (f_animal f); reflexivity. }
  rewrite Hno.
  destruct (price_min f) as [b|] eqn:Hmin.
  - destruct (bad_bound fl (Some b)) eqn:Hb.
    + destruct (bad_bound_to_float fl b Hb) as [msg ->]. eauto.
    + destruct (good_bound_to_float fl b Hb) as [q ->]. cbn [mbind result_bind].
      cbn [orb] in Hbad. destruct (price_max f) as [b'|]; [|discriminate].
      destruct (bad_bound_to_float fl b' Hbad) as [msg ->]. eauto.
  - cbn in Hbad. destruct (price_max f) as [b'|]; [|discriminate].
    destruct (bad_bound_to_float fl b' Hbad) as [msg ->]. eauto.
Qed.

Lemma apply_filters_good_bounds fl fs l :
  has_bad_bound fl fs = false -> exists l', apply_filters fl l fs = Ok l'.
Proof.
  intros Hgood. unfold apply_filters.
  destruct (no_filters fs); [eauto|].
  destruct fs as [f|]; [|eauto]. cbn [has_bad_bound] in Hgood.
  apply orb_false_elim in Hgood as [Hmin Hmax].
  destruct (price_min f) as [b|].
  - destruct (good_bound_to_float fl b Hmin) as [q ->]. cbn [mbind result_bind].
    destruct (price_max f) as [b'|]; [|cbn; eauto].
    destruct (good_bound_to_float fl b' Hmax) as [q' ->]. cbn. eauto.
  - cbn [mbind result_bind].
    destruct (price_max f) as [b'|]; [|cbn; eauto].
    destruct (good_bound_to_float fl b' Hmax) as [q' ->]. cbn. eauto.
Qed.

Lemma sort_products_unknown l sort_by scores :
  known_sort sort_by = false -> sort_products l sort_by scores = l.
Proof.
  intros Hk. unfold known_sort in Hk. apply bool_decide_eq_false in Hk.
  unfold sort_products.
  destruct (String.eqb_spec sort_by "relevance") as [->|_].
  { exfalso. apply Hk. set_solver. }
  destruct (String.eqb_spec sort_by "price_low") as [->|_].
  { exfalso. apply Hk. set_solver. }
  destruct (String.eqb_spec sort_by "price_high") as [->|_].
  { exfalso. apply Hk. set_solver. }
  destruct (String.eqb_spec sort_by "name") as [->|_].
  { exfalso. apply Hk. set_solver. }
  reflexivity.
Qed.

(** C6 (as the code has it).  [search_products] validates nothing before
    it scores.  On an empty catalogue it returns the empty answer
    whatever the filters and the sort key are.  On any other catalogue a
    price bound that [float] refuses ends the search with the
    [ValueError] of the conversion, which the filter stage raises on the
    list of the products that have passed the scoring.  A sort key that
    is not known is not refused: the search answers, [total] counts the
    products of the catalogue that reach the threshold and pass the
    filters, and [results] lists them in catalogue order, unsorted, cut
    to the limit. *)
Theorem malformed_requests :
  forall (ratio : string -> string -> Q) (float_of_str : string -> option Q)
         (catalog : list product) (query : string) (fs : option filters)
         (sort_by : string) (limit : Z),
    let answer := search_products ratio float_of_str catalog query fs sort_by limit in
    let matched :=
      List.filter
        (fun p => Qle_bool min_score (score_of (build_scores ratio catalog query) p))
        catalog in
    (catalog = [] -> exists r, answer = Ok r /\ results r = [] /\ total r = 0%nat)
    /\ (catalog <> [] -> has_bad_bound float_of_str fs = true ->
        exists msg,
          answer = Err (ValueError msg)
          /\ apply_filters float_of_str matched fs = Err (ValueError msg))
    /\ (has_bad_bound float_of_str fs = false -> known_sort sort_by = false ->
        exists r filtered,
          answer = Ok r
          /\ apply_filters float_of_str matched fs = Ok filtered
          /\ filtered `sublist_of` catalog
          /\ results r = slice_to limit filtered
          /\ total r = length filtered).
Proof.
  intros ratio fl catalog query fs sort_by limit answer matched.
  subst answer matched.
  unfold search_products. split; [|split].
  - intros ->. eauto.
  - intros Hne Hbad. destruct catalog as [|p0 l0] eqn:Hcat; [congruence|].
    rewrite <- Hcat.
    edestruct (apply_filters_bad_bound fl fs) as [msg Hmsg]; [exact Hbad|].
    exists msg. rewrite Hmsg. split; reflexivity.
  - intros Hgood Hsort.
    edestruct (apply_filters_good_bounds fl fs) as [l' Hl']; [exact Hgood|].
    assert (Hsub : l' `sublist_of` catalog).
    { etrans; [eapply apply_filters_sublist; exact Hl'|]. apply filter_sublist. }
    destruct catalog as [|p0 l0] eqn:Hcat.
    { apply sublist_nil_r in Hsub. subst l'.
      eexists. exists []. split; [reflexivity|]. split; [exact Hl'|].
      split; [reflexivity|]. split; [|reflexivity].
      cbn [results]. unfold slice_to. destruct (0 <=? limit)%Z; now rewrite take_nil. }
    rewrite <- Hcat in *. rewrite Hl'. cbn [mbind result_bind].
    eexists. exists l'. split; [reflexivity|]. split; [reflexivity|].
    split; [exact Hsub|]. cbn [results total].
    now rewrite (sort_products_unknown _ _ _ Hsort).
Qed.

(** C6, at sample inputs: the empty catalogue, a lower price bound that
    is a word, and the sort key ["newest"]. *)
Lemma malformed_requests_witness :
  (exists r, search_products no_ratio no_float [] "dog" word_bound "newest" 50 = Ok r
             /\ results r = [] /\ total r = 0%nat)
  /\ (exists msg,
        search_products no_ratio no_float dog_catalog "dog" word_bound
          "relevance" 50 = Err (ValueError msg)
        /\ apply_filters no_float
             (List.filter
                (fun p => Qle_bool min_score
                            (score_of (build_scores no_ratio dog_catalog "dog") p))
                dog_catalog) word_bound
           = Err (ValueError msg))
  /\ (exists r filtered,
        search_products no_ratio no_float dog_catalog "dog" None "newest" 50 = Ok r
        /\ apply_filters no_float
             (List.filter
                (fun p => Qle_bool min_score
                            (score_of (build_scores no_ratio dog_catalog "dog") p))
                dog_catalog) None
           = Ok filtered
        /\ filtered `sublist_of` dog_catalog
        /\ results r = slice_to 50 filtered
        /\ total r = length filtered).
Proof.
  split; [|split].
  - exact (proj1 (malformed_requests no_ratio no_float [] "dog" word_bound "newest" 50)
             eq_refl).
  - refine (proj1 (proj2 (malformed_requests no_ratio no_float dog_catalog "dog"
                            word_bound "relevance" 50)) _ eq_refl).
    discriminate.
  - exact (proj2 (proj2 (malformed_requests no_ratio no_float dog_catalog "dog"
                           None "newest" 50)) eq_refl eq_refl).
Defined.

(** C6, counterexample.  The sort key ["newest"] is unknown, and the
    search returns an answer instead of an error: the two products whose
    title holds the query, in catalogue order.  The library matcher and
    [float] are never called on this input, so the answer is the same
    whatever they are. *)
Lemma unknown_sort_key_accepted :
  (forall (ratio : string -> string -> Q) (float_of_str : string -> option Q),
     search_products ratio float_of_str dog_catalog "dog" None "newest" 50
     = Ok (dog_response "newest"))
  /\ known_sort "newest" = false
  /\ ~ (forall (ratio : string -> string -> Q) (float_of_str : string -> option Q)
               (catalog : list product) (query : string) (fs : option filters)
               (sort_by : string) (limit : Z),
          has_bad_bound float_of_str fs = true \/ known_sort sort_by = false ->
          exists e, search_products ratio float_of_str catalog query fs sort_by limit
                    = Err e).
Proof.
  assert (Hs : forall (ratio : string -> string -> Q) (fl : string -> option Q),
             search_products ratio fl dog_catalog "dog" None "newest" 50
             = Ok (dog_response "newest"))
    by (intros ratio fl; vm_compute; reflexivity).
  split; [exact Hs|]. split; [reflexivity|].
  intros H.
  destruct (H no_ratio no_float dog_catalog "dog" None "newest" 50%Z
              (or_intror eq_refl)) as [e He].
  rewrite Hs in He. discriminate He.
Qed.

(* --------------------------------------------------------------------- *)
(** ** The search index                                                   *)
(* --------------------------------------------------------------------- *)

Lemma entry_of_add_posting k i d w :
  entry_of (add_posting k i d) w
  = entry_of d w ++ (if String.eqb k w then [i] else []).
Proof.
  unfold entry_of, add_posting.
  destruct (String.eqb_spec k w) as [->|Hne].
  - now rewrite lookup_insert_eq.
  - rewrite lookup_insert_ne by exact Hne. now rewrite app_nil_r.
Qed.

Lemma entry_of_title_words i w words d :
  entry_of (foldl (index_title_word i) d words) w
  = entry_of d w
    ++ map (fun _ => i)
         (List.filter (fun word => (2 <? Text.len word)%nat && String.eqb word w) words).
Proof.
  revert d. induction words as [|x words IH]; intros d.
  - cbn. now rewrite app_nil_r.
  - cbn [foldl List.filter]. rewrite IH. unfold index_title_word.
    destruct (2 <? Text.len x)%nat; cbn [andb].
    + rewrite entry_of_add_posting.
      destruct (String.eqb x w); cbn [map]; rewrite <- app_assoc; reflexivity.
    + reflexivity.
Qed.

Lemma entry_of_tags i w tgs d :
  entry_of (foldl (index_tag i) d tgs) w
  = entry_of d w
    ++ map (fun _ => i)
         (List.filter (fun tag => negb (Text.is_empty (normalize_text (Some tag)))
                                  && String.eqb (normalize_text (Some tag)) w) tgs).
Proof.
  revert d. induction tgs as [|x tgs IH]; intros d.
  - cbn. now rewrite app_nil_r.
  - cbn [foldl List.filter]. rewrite IH. unfold index_tag.
    destruct (negb (Text.is_empty (normalize_text (Some x)))); cbn [andb].
    + rewrite entry_of_add_posting.
      destruct (String.eqb (normalize_text (Some x)) w); cbn [map];
        rewrite <- app_assoc; reflexivity.
    + reflexivity.
Qed.

Lemma postings_index_product index p w :
  postings (index_product index p) w = postings index w ++ contribution w p.
Proof.
  unfold index_product, contribution, postings.
  destruct (id p) as [i|]; [|now rewrite app_nil_r].
  destruct (pid_truthy i); cbn [negb]; [|now rewrite app_nil_r].
  cbn [terms]. fold (entry_of (terms index) w).
  change (default [] (?d !! w)) with (entry_of d w).
  rewrite entry_of_tags, entry_of_title_words. now rewrite <- app_assoc.
Qed.

Lemma postings_fold index l w :
  postings (foldl index_product index l) w
  = postings index w ++ flat_map (contribution w) l.
Proof.
  revert index. induction l as [|p l IH]; intros index.
  - cbn. now rewrite app_nil_r.
  - cbn [foldl flat_map]. rewrite IH, postings_index_product.
    now rewrite <- app_assoc.
Qed.

Lemma elem_of_contribution i w p :
  i ∈ contribution w p <->
  id p = Some i /\ pid_truthy i = true
  /\ ((w ∈ Text.split (normalize_text (Some (str_or_empty (title p))))
       /\ (2 < Text.len w)%nat)
      \/ (w <> EmptyString
          /\ exists tag, tag ∈ tags p /\ normalize_text (Some tag) = w)).
Proof.
  unfold contribution.
  destruct (id p) as [j|]; [|split; [intros H; inversion H|intros [? _]; discriminate]].
  destruct (pid_truthy j) eqn:Hj.
  2:{ split; [intros H; inversion H|].
      intros ([= ->] & Ht & _). congruence. }
  rewrite elem_of_app. repeat setoid_rewrite list_elem_of_In.
  rewrite !in_map_iff.
  split.
  - intros [(x & <- & Hx)|(x & <- & Hx)]; (split; [reflexivity|split; [exact Hj|]]).
    + left. unfold title_hits in Hx. apply filter_In in Hx as [Hin Hc].
      apply andb_prop in Hc as [Hlen Heq]. apply String.eqb_eq in Heq as ->.
      split; [exact Hin|]. now apply Nat.ltb_lt in Hlen.
    + right. unfold tag_hits in Hx. apply filter_In in Hx as [Hin Hc].
      apply andb_prop in Hc as [Hne Heq]. apply String.eqb_eq in Heq.
      split.
      * intros ->. rewrite Heq in Hne. discriminate.
      * exists x. split; [exact Hin|exact Heq].
  - intros ([= ->] & _ & [[Hin Hlen]|[Hne (tag & Hin & Htag)]]).
    + left. exists w. split; [reflexivity|]. unfold title_hits.
      apply filter_In. split; [exact Hin|].
      apply andb_true_intro. split; [now apply Nat.ltb_lt|apply String.eqb_refl].
    + right. exists tag. split; [reflexivity|]. unfold tag_hits.
      apply filter_In. split; [exact Hin|].
      apply andb_true_intro. split; [|now apply String.eqb_eq].
      rewrite Htag. destruct w; [congruence|reflexivity].
Qed.

(** C8 (as the code has it).  For every catalogue and every term, the
    postings of the term in the index that [build_search_index] builds
    are the contributions of the products in catalogue order.  A product
    with a true identifier contributes its identifier once for every
    occurrence of the term among the words of more than two characters
    of its normalised title, and once for every tag whose whole
    normalised text is the term and is not empty: a tag is one term, it
    is not split into words and has no minimum length.  Postings are
    lists and repeat an identifier that is contributed more than once. *)
Theorem index_postings :
  forall (catalog : list product) (w : string),
    postings (build_search_index catalog) w = flat_map (contribution w) catalog
    /\ forall i : pid,
         i ∈ postings (build_search_index catalog) w <->
         exists p, p ∈ catalog /\ id p = Some i /\ pid_truthy i = true
           /\ ((w ∈ Text.split (normalize_text (Some (str_or_empty (title p))))
                /\ (2 < Text.len w)%nat)
               \/ (w <> EmptyString
                   /\ exists tag, tag ∈ tags p /\ normalize_text (Some tag) = w)).
Proof.
  intros catalog w.
  assert (H : postings (build_search_index catalog) w = flat_map (contribution w) catalog).
  { unfold build_search_index. rewrite postings_fold. reflexivity. }
  split; [exact H|].
  intros i. rewrite H, list_elem_of_In, in_flat_map.
  split.
  - intros (p & Hp & Hi). exists p. split; [now apply list_elem_of_In|].
    apply elem_of_contribution. now apply list_elem_of_In.
  - intros (p & Hp & Hi). exists p. split; [now apply list_elem_of_In|].
    apply list_elem_of_In. now apply elem_of_contribution.
Qed.

(** C8, counterexample.  A title that says "dog" twice puts the product
    twice into the postings of "dog"; the tag "ab" becomes a term although
    it has two characters; the tag "Dog Toy" becomes the one term
    "dog toy" and adds nothing under "toy". *)
Lemma index_repeats_and_whole_tags :
  let catalog := [tagged_product 1 "Dog dog" ["ab"; "Dog Toy"]] in
  let index := build_search_index catalog in
  postings index "dog" = [IdNum 1; IdNum 1]
  /\ ~ NoDup (postings index "dog")
  /\ postings index "ab" = [IdNum 1]
  /\ postings index "dog toy" = [IdNum 1]
  /\ postings index "toy" = [].
Proof.
  cbv zeta. repeat split; try (vm_compute; reflexivity).
  assert (H : postings (build_search_index [tagged_product 1 "Dog dog" ["ab"; "Dog Toy"]])
                "dog" = [IdNum 1; IdNum 1]) by (vm_compute; reflexivity).
  rewrite H. intros Hnd. apply NoDup_cons in Hnd as [Hnd _]. apply Hnd. constructor.
Qed.

(* --------------------------------------------------------------------- *)
(** ** The upsell scores never fail                                       *)
(* --------------------------------------------------------------------- *)

Lemma py_div_ok a b : ~ b == 0 -> py_div a b = Ok (a / b).
Proof.
  intros Hb. unfold py_div.
  destruct (Qeq_bool b 0) eqn:E; [|reflexivity].
  apply Qeq_bool_eq in E. contradiction.
Qed.

Lemma of_nat_nonzero n : (0 < n)%nat -> ~ of_nat n == 0.
Proof. unfold of_nat, Qeq. cbn. lia. Qed.

Lemma Qltb_lt a b : Qltb a b = true <-> a < b.
Proof.
  unfold Qltb. rewrite negb_true_iff, <- not_true_iff_false, Qle_bool_iff.
  split; [apply Qnot_le_lt|apply Qlt_not_le].
Qed.

Lemma size_union_nonempty (t1 t2 : gset string) : t1 <> ∅ -> (0 < size (t1 ∪ t2))%nat.
Proof.
  intros H. destruct (decide (size (t1 ∪ t2) = 0%nat)) as [E|E]; [|lia].
  apply size_empty_inv in E. exfalso. apply H. set_solver.
Qed.

Lemma calculate_similarity_score_value p1 p2 :
  calculate_similarity_score p1 p2 = Ok (similarity_value p1 p2).
Proof.
  unfold calculate_similarity_score, similarity_value.
  set (s1 := if bool_decide (category p1 = category p2) then 0 + 30 else 0).
  destruct (bool_decide (tag_set p1 <> ∅)) eqn:H1; cbn [andb].
  - destruct (bool_decide (tag_set p2 <> ∅)) eqn:H2.
    + rewrite (py_div_ok (of_nat _) (of_nat _)).
      2:{ apply of_nat_nonzero, size_union_nonempty.
          now apply bool_decide_eq_true in H1. }
      cbn [mbind result_bind].
      destruct (Qltb 0 (default 0 (price p1))) eqn:Hp1; cbn [andb]; [|reflexivity].
      destruct (Qltb 0 (default 0 (price p2))) eqn:Hp2; [|reflexivity].
      rewrite py_div_ok; [reflexivity|].
      apply Qltb_lt in Hp1. intros E.
      pose proof (Q.le_max_l (default 0 (price p1)) (default 0 (price p2))). lra.
    + cbn [mbind result_bind].
      destruct (Qltb 0 (default 0 (price p1))) eqn:Hp1; cbn [andb]; [|reflexivity].
      destruct (Qltb 0 (default 0 (price p2))) eqn:Hp2; [|reflexivity].
      rewrite py_div_ok; [reflexivity|].
      apply Qltb_lt in Hp1. intros E.
      pose proof (Q.le_max_l (default 0 (price p1)) (default 0 (price p2))). lra.
  - cbn [mbind result_bind].
    destruct (Qltb 0 (default 0 (price p1))) eqn:Hp1; cbn [andb]; [|reflexivity].
    destruct (Qltb 0 (default 0 (price p2))) eqn:Hp2; [|reflexivity].
    rewrite py_div_ok; [reflexivity|].
    apply Qltb_lt in Hp1. intros E.
    pose proof (Q.le_max_l (default 0 (price p1)) (default 0 (price p2))). lra.
Qed.

Lemma upsell_score_value sp p : upsell_score sp p = Ok (upsell_value sp p).
Proof. unfold upsell_score. now rewrite calculate_similarity_score_value. Qed.

Lemma popularity_score_value p : popularity_score p = Ok (popularity_value p).
Proof. reflexivity. Qed.

Lemma mapM_step {A B : Type} (f : A -> result B) x l :
  mapM f (x :: l) = (y ← f x ; k ← mapM f l ; Ok (y :: k)).
Proof. reflexivity. Qed.

Lemma mapM_scored (f : product -> result Q) (v : product -> Q) l :
  (forall p, f p = Ok (v p)) ->
  mapM (fun p => score ← f p ; Ok (p, score)) l = Ok (map (fun p => (p, v p)) l).
Proof.
  intros Hf. induction l as [|p l IH]; [reflexivity|].
  rewrite mapM_step, IH, Hf. reflexivity.
Qed.

(* --------------------------------------------------------------------- *)
(** ** Rankings                                                           *)
(* --------------------------------------------------------------------- *)

Lemma rank_ranked (score : product -> result Q) (v : product -> Q) pool limit :
  (forall p, score p = Ok (v p)) ->
  ranked_by score pool limit (rank (map (fun p => (p, v p)) pool) limit).
Proof.
  intros Hv. set (scored := map (fun p => (p, v p)) pool).
  exists (py_sorted Qle_bool snd true scored). unfold py_sorted.
  split; [|split; [|split]].
  - rewrite (sort_by_perm _ snd scored). subst scored.
    apply Forall_forall. intros ps Hps.
    apply list_elem_of_In, in_map_iff in Hps as (p & <- & _). apply Hv.
  - rewrite (sort_by_perm _ snd scored). subst scored.
    clear. induction pool as [|p pool IH]; [reflexivity|].
    cbn. now rewrite IH.
  - eapply StronglySorted_weaken;
      [|apply (sort_by_sorted (fun a b => Qle_bool b a) snd);
        [intros a b; apply Qge_total|intros a b c; apply Qge_trans]].
    intros a b _ _ Hab. now apply Qle_bool_iff.
  - reflexivity.
Qed.

Lemma elem_of_rank (scored : list (product * Q)) limit p :
  p ∈ rank scored limit -> p ∈ scored.*1.
Proof.
  unfold rank, py_sorted. intros Hp.
  rewrite <- (sort_by_perm (fun a b => Qle_bool b a) snd scored).
  destruct (slice_to_take limit (sort_by (fun a b => Qle_bool b a) snd scored)) as [n Hn].
  rewrite Hn in Hp. eapply elem_of_sublist; [exact Hp|].
  apply fmap_sublist, sublist_take.
Qed.

Lemma fst_scored (v : product -> Q) l : (map (fun p => (p, v p)) l).*1 = l.
Proof. induction l as [|p l IH]; [reflexivity|]. cbn. now rewrite IH. Qed.

Lemma get_popular_products_value catalog limit :
  get_popular_products catalog limit
  = Ok (rank (map (fun p => (p, popularity_value p)) (List.filter is_published catalog))
          limit).
Proof.
  unfold get_popular_products.
  rewrite (mapM_scored popularity_score popularity_value)
    by apply popularity_score_value.
  reflexivity.
Qed.

Lemma get_upsells_found catalog product_id limit sp :
  find_product catalog product_id = Some sp ->
  get_upsells_for_product catalog product_id limit
  = Ok (rank (map (fun p => (p, upsell_value sp p))
                (List.filter (is_candidate product_id) catalog)) limit).
Proof.
  intros Hf. unfold get_upsells_for_product. rewrite Hf.
  rewrite (mapM_scored (upsell_score sp) (upsell_value sp))
    by apply upsell_score_value.
  reflexivity.
Qed.

Lemma get_upsells_not_found catalog product_id limit :
  find_product catalog product_id = None ->
  get_upsells_for_product catalog product_id limit = get_popular_products catalog limit.
Proof. intros Hf. unfold get_upsells_for_product. now rewrite Hf. Qed.

Lemma find_product_none catalog product_id :
  find_product catalog product_id = None <-> Some product_id ∉ map id catalog.
Proof.
  unfold find_product. split.
  - intros Hf Hin. apply list_elem_of_In, in_map_iff in Hin as (p & Hp & Hin).
    pose proof (find_none _ _ Hf p Hin) as H. cbn in H.
    apply bool_decide_eq_false in H. congruence.
  - intros Hn. destruct (find _ catalog) as [p|] eqn:Hf; [|reflexivity].
    apply find_some in Hf as [Hin Hp]. apply bool_decide_eq_true in Hp.
    exfalso. apply Hn. rewrite <- Hp. apply list_elem_of_In, in_map. exact Hin.
Qed.

Lemma find_product_some catalog product_id sp :
  find_product catalog product_id = Some sp -> sp ∈ catalog /\ id sp = Some product_id.
Proof.
  unfold find_product. intros Hf. apply find_some in Hf as [Hin Hp].
  apply bool_decide_eq_true in Hp. split; [now apply list_elem_of_In|exact Hp].
Qed.

(* --------------------------------------------------------------------- *)
(** ** An out-of-stock product among the recommendations                *)
(* --------------------------------------------------------------------- *)

(** C2, the failing input.  The seed 2 is not in the catalogue, so
    [get_upsells_for_product] hands over to [get_popular_products],
    which leaves out the unpublished products only: the answer is the
    one product there is, whose stock is 0.  With the seed in the
    catalogue the same product is not offered, since the loop over the
    candidates skips a product whose stock is not positive. *)
Lemma fallback_offers_out_of_stock :
  let sold_out := item 1 "toys" [] (Some 8) (Some 0%Z) in
  let seed := item 2 "toys" [] (Some 9) (Some 4%Z) in
  get_upsells_for_product [sold_out] (IdNum 2) 3 = Ok [sold_out]
  /\ out_of_stock sold_out = true
  /\ get_upsells_for_product [sold_out; seed] (IdNum 2) 3 = Ok []
  /\ ~ (forall (catalog : list product) (product_id : pid) (limit : Z) (r : list product),
          get_upsells_for_product catalog product_id limit = Ok r ->
          Forall (fun p => id p <> Some product_id /\ out_of_stock p = false
                           /\ published p <> Some false) r).
Proof.
  intros sold_out seed.
  assert (Hs : get_upsells_for_product [sold_out] (IdNum 2) 3 = Ok [sold_out])
    by (vm_compute; reflexivity).
  split; [exact Hs|]. split; [reflexivity|].
  split; [vm_compute; reflexivity|].
  intros H. specialize (H _ _ _ _ Hs).
  apply Forall_inv in H as (_ & Hstock & _). discriminate Hstock.
Qed.

(* --------------------------------------------------------------------- *)
(** ** The popularity fallback                                            *)
(* --------------------------------------------------------------------- *)

(** C3 (as the code has it).  [get_upsells_for_product] never raises.
    The popularity score is rating * 20 + reviews_count / 10, plus 50
    for the badge "Bestseller".  When the seed identifier is not in the
    catalogue the answer is that of [get_popular_products]: the first
    [limit] published products by descending popularity.  When the seed
    is in the catalogue the answer is the first [limit] candidates by
    descending upsell score, whatever the scores are: candidates that
    all score zero are returned as they are. *)
Theorem upsells_fallback :
  forall (catalog : list product) (product_id : pid) (limit : Z),
    (exists r, get_upsells_for_product catalog product_id limit = Ok r)
    /\ (forall p, exists s,
          popularity_score p = Ok s
          /\ s == default 0 (rating p) * 20
                  + inject_Z (default 0%Z (reviews_count p)) / 10
                  + (if bool_decide (badge p = Some "Bestseller") then 50 else 0))
    /\ (Some product_id ∉ map id catalog ->
        get_upsells_for_product catalog product_id limit
          = get_popular_products catalog limit
        /\ exists r,
             get_popular_products catalog limit = Ok r
             /\ ranked_by popularity_score (List.filter is_published catalog) limit r)
    /\ (Some product_id ∈ map id catalog ->
        exists sp r,
          sp ∈ catalog /\ id sp = Some product_id
          /\ get_upsells_for_product catalog product_id limit = Ok r
          /\ ranked_by (upsell_score sp)
               (List.filter (is_candidate product_id) catalog) limit r).
Proof.
  intros catalog product_id limit. split; [|split; [|split]].
  - destruct (find_product catalog product_id) as [sp|] eqn:Hf.
    + rewrite (get_upsells_found _ _ _ _ Hf). eauto.
    + rewrite (get_upsells_not_found _ _ _ Hf), get_popular_products_value. eauto.
  - intros p. exists (popularity_value p). split; [apply popularity_score_value|].
    unfold popularity_value. destruct (bool_decide _); ring.
  - intros Hout. pose proof (proj2 (find_product_none _ _) Hout) as Hf.
    split; [now apply get_upsells_not_found|].
    rewrite get_popular_products_value. eexists. split; [reflexivity|].
    apply rank_ranked, popularity_score_value.
  - intros Hin. destruct (find_product catalog product_id) as [sp|] eqn:Hf.
    + destruct (find_product_some _ _ _ Hf) as [Hsp Hid].
      exists sp. eexists. split; [exact Hsp|]. split; [exact Hid|].
      split; [exact (get_upsells_found _ _ _ _ Hf)|].
      apply rank_ranked, upsell_score_value.
    + apply find_product_none in Hf. contradiction.
Qed.

(** C3, at a sample catalogue, for a seed that is absent and one that is
    present. *)
Lemma upsells_fallback_witness :
  let catalog := [item 1 "toys" [] (Some 8) (Some 5%Z); item 2 "toys" [] (Some 10) (Some 3%Z)] in
  (Some (IdNum 9) ∉ map id catalog)
  /\ (Some (IdNum 1) ∈ map id catalog)
  /\ (get_upsells_for_product catalog (IdNum 9) 3 = get_popular_products catalog 3
      /\ exists r,
           get_popular_products catalog 3 = Ok r
           /\ ranked_by popularity_score (List.filter is_published catalog) 3 r)
  /\ (exists sp r,
        sp ∈ catalog /\ id sp = Some (IdNum 1)
        /\ get_upsells_for_product catalog (IdNum 1) 3 = Ok r
        /\ ranked_by (upsell_score sp) (List.filter (is_candidate (IdNum 1)) catalog) 3 r).
Proof.
  intros catalog.
  assert (Hout : Some (IdNum 9) ∉ map id catalog).
  { refine (bool_decide_unpack (Some (IdNum 9) ∉ map id catalog) _). vm_compute. exact I. }
  assert (Hin : Some (IdNum 1) ∈ map id catalog) by (cbn; constructor).
  split; [exact Hout|]. split; [exact Hin|]. split.
  - exact (proj1 (proj2 (proj2 (upsells_fallback catalog (IdNum 9) 3))) Hout).
  - exact (proj2 (proj2 (proj2 (upsells_fallback catalog (IdNum 1) 3))) Hin).
Defined.

(** C3, counterexample.  The seed is found and its only candidate scores
    zero; the answer is that candidate, not the popularity ranking, which
    would list the seed as well. *)
Lemma zero_scores_do_not_fall_back :
  let seed := item 1 "toys" [] None (Some 5%Z) in
  let other := item 2 "beds" [] None (Some 5%Z) in
  let catalog := [seed; other] in
  Some (IdNum 1) ∈ map id catalog
  /\ upsell_score seed other = Ok 0
  /\ get_upsells_for_product catalog (IdNum 1) 3 = Ok [other]
  /\ get_popular_products catalog 3 = Ok [seed; other]
  /\ get_upsells_for_product catalog (IdNum 1) 3 <> get_popular_products catalog 3.
Proof.
  intros seed other catalog.
  split; [cbn; constructor|].
  split; [vm_compute; reflexivity|].
  assert (H1 : get_upsells_for_product catalog (IdNum 1) 3 = Ok [other])
    by (vm_compute; reflexivity).
  assert (H2 : get_popular_products catalog 3 = Ok [seed; other])
    by (vm_compute; reflexivity).
  split; [exact H1|]. split; [exact H2|].
  rewrite H1, H2. discriminate.
Qed.

(* --------------------------------------------------------------------- *)
(** ** Price proximity                                                    *)
(* --------------------------------------------------------------------- *)

Lemma half_le_div (a m : Q) : 0 < m -> (1 # 2 <= a / m <-> m <= 2 * a).
Proof.
  intros Hm. split; intros H.
  - assert (H' : (1 # 2) * m <= a / m * m) by (apply Qmult_le_compat_r; lra).
    assert (E : a / m * m == a) by (field; lra).
    rewrite E in H'. lra.
  - apply Qle_shift_div_l; [exact Hm|]. lra.
Qed.

Lemma price_gap_half (s x : Q) :
  0 < s -> 0 < x -> (1 # 2 <= price_gap s x <-> 2 * x <= s \/ 2 * s <= x).
Proof.
  intros Hs Hx. unfold price_gap.
  destruct (Qlt_le_dec x s) as [Hlt|Hle].
  - rewrite (Q.max_l s x) by lra. rewrite (Qabs_pos (s - x)) by lra.
    rewrite half_le_div by exact Hs. split; [intros; left; lra|intros [H|H]; lra].
  - rewrite (Q.max_r s x) by lra. rewrite (Qabs_neg (s - x)) by lra.
    rewrite half_le_div by exact Hx. split; [intros; right; lra|intros [H|H]; lra].
Qed.

Lemma proximity_bonus_order (g1 g2 : Q) :
  (g1 < g2 -> g1 < 1 # 2 -> Qmax 0 (20 - g2 * 40) < Qmax 0 (20 - g1 * 40))
  /\ (1 # 2 <= g1 -> 1 # 2 <= g2 -> Qmax 0 (20 - g1 * 40) == Qmax 0 (20 - g2 * 40)).
Proof.
  destruct (Q.max_spec 0 (20 - g1 * 40)) as [[H1 E1]|[H1 E1]];
    destruct (Q.max_spec 0 (20 - g2 * 40)) as [[H2 E2]|[H2 E2]];
    rewrite E1, E2; split; intros; lra.
Qed.

(** C7 (as the code has it).  For a seed with a positive price and two
    candidates that differ in their positive prices only, the similarity
    score strictly decreases as the price gap grows, where the gap is
    the distance of the two prices divided by the larger of them, as
    long as the smaller gap is below one half; once both gaps have
    reached one half the scores are equal.  The gap reaches one half
    when the candidate costs at most half or at least twice the seed. *)
Theorem price_proximity :
  forall (seed c : product) (s x1 x2 : Q),
    price seed = Some s -> 0 < s -> 0 < x1 -> 0 < x2 ->
    exists v1 v2,
      calculate_similarity_score seed (with_price x1 c) = Ok v1
      /\ calculate_similarity_score seed (with_price x2 c) = Ok v2
      /\ (price_gap s x1 < price_gap s x2 -> price_gap s x1 < 1 # 2 -> v2 < v1)
      /\ (1 # 2 <= price_gap s x1 -> 1 # 2 <= price_gap s x2 -> v1 == v2)
      /\ (1 # 2 <= price_gap s x1 <-> 2 * x1 <= s \/ 2 * s <= x1).
Proof.
  intros seed c s x1 x2 Hs Hs0 Hx1 Hx2.
  exists (similarity_value seed (with_price x1 c)), (similarity_value seed (with_price x2 c)).
  split; [apply calculate_similarity_score_value|].
  split; [apply calculate_similarity_score_value|].
  unfold similarity_value, tag_set.
  cbn [with_price category tags price rating from_option Datatypes.id]. rewrite Hs.
  cbn [from_option Datatypes.id].
  rewrite (proj2 (Qltb_lt 0 s) Hs0), (proj2 (Qltb_lt 0 x1) Hx1), (proj2 (Qltb_lt 0 x2) Hx2).
  cbn [andb].
  change (Qabs (s - x1) / Qmax s x1) with (price_gap s x1).
  change (Qabs (s - x2) / Qmax s x2) with (price_gap s x2).
  destruct (proximity_bonus_order (price_gap s x1) (price_gap s x2)) as [Hlt Heq].
  set (base := if bool_decide (list_to_set (tags seed) <> ∅) && _ then _ else _).
  destruct (Qle_bool (45 # 10) _); [|destruct (Qle_bool 4 _)];
    (split; [intros Hg Hb; specialize (Hlt Hg Hb); lra|];
     split; [intros H1 H2; rewrite (Heq H1 H2); reflexivity|];
     now apply price_gap_half).
Qed.

(** C7, at the seed price 100 and the candidate prices 90 and 70. *)
Lemma price_proximity_witness :
  let seed := item 1 "toys" [] (Some 100) (Some 5%Z) in
  let c := item 2 "toys" [] None (Some 5%Z) in
  price seed = Some 100 /\ 0 < 100 /\ 0 < 90 /\ 0 < 70
  /\ exists v1 v2,
       calculate_similarity_score seed (with_price 90 c) = Ok v1
       /\ calculate_similarity_score seed (with_price 70 c) = Ok v2
       /\ (price_gap 100 90 < price_gap 100 70 -> price_gap 100 90 < 1 # 2 -> v2 < v1)
       /\ (1 # 2 <= price_gap 100 90 -> 1 # 2 <= price_gap 100 70 -> v1 == v2)
       /\ (1 # 2 <= price_gap 100 90 <-> 2 * 90 <= 100 \/ 2 * 100 <= 90).
Proof.
  intros seed c.
  split; [reflexivity|]. split; [reflexivity|]. split; [reflexivity|]. split; [reflexivity|].
  exact (price_proximity seed c 100 90 70 eq_refl eq_refl eq_refl eq_refl).
Defined.

(** C7, counterexample.  Relative to the seed price 100, the price 140
    is further away (40%) than the price 70 (30%), and both are inside
    the 50% band; yet the candidate at 140 scores higher, 270/7 against
    38, because the code divides the distance by the larger price. *)
Lemma dearer_candidate_scores_higher :
  let seed := item 1 "toys" [] (Some 100) (Some 5%Z) in
  let c := item 2 "toys" [] None (Some 5%Z) in
  relative_difference 100 70 < relative_difference 100 140
  /\ relative_difference 100 140 < 1 # 2
  /\ exists v1 v2,
       calculate_similarity_score seed (with_price 70 c) = Ok v1
       /\ calculate_similarity_score seed (with_price 140 c) = Ok v2
       /\ v1 == 38 /\ v2 == 270 # 7 /\ v1 < v2.
Proof.
  intros seed c.
  split; [reflexivity|]. split; [reflexivity|].
  exists (similarity_value seed (with_price 70 c)), (similarity_value seed (with_price 140 c)).
  split; [apply calculate_similarity_score_value|].
  split; [apply calculate_similarity_score_value|].
  split; [vm_compute; reflexivity|]. split; [vm_compute; reflexivity|].
  vm_compute. reflexivity.
Qed.

(* --------------------------------------------------------------------- *)
(** ** Recommendations by context                                         *)
(* --------------------------------------------------------------------- *)

Lemma cart_score_empty_cart p :
  exists s, cart_score (cart_categories []) (cart_tags []) p = Ok s
            /\ s == cart_base_score p.
Proof.
  unfold cart_score, cart_base_score.
  assert (Hc : category_in p (cart_categories []) = false).
  { unfold category_in. destruct (category p); [|reflexivity].
    apply bool_decide_eq_false_2. set_solver. }
  assert (Ht : bool_decide (tag_set p ∩ cart_tags [] <> ∅) = false).
  { apply bool_decide_eq_false_2. intros H. apply H.
    change (cart_tags []) with (∅ : gset string). apply intersection_empty_r_L. }
  rewrite Hc, Ht. cbn [mbind result_bind].
  eexists. split; [reflexivity|].
  destruct (Qltb _ 20); [|destruct (Qltb _ 40)];
    destruct (badge_in p _); destruct (Qle_bool _ _); ring.
Qed.

(** C10.  In the contexts "cart", "checkout" and "post_purchase",
    [get_ai_recommendations] answers what the context's function answers
    on the empty list of items, whatever [product_id] and [user_id] are;
    and against the empty cart the cart score of a product is only its
    bonuses for price, badge and rating: the bonuses for a shared
    category and for shared tags never apply. *)
Theorem context_recommendations :
  forall (catalog : list product) (product_id : option pid) (user_id : option string)
         (limit : Z),
    get_ai_recommendations catalog product_id user_id "cart" limit
      = get_cart_upsells catalog [] limit
    /\ get_ai_recommendations catalog product_id user_id "checkout" limit
      = get_checkout_upsells catalog [] limit
    /\ get_ai_recommendations catalog product_id user_id "post_purchase" limit
      = get_post_purchase_upsells catalog [] limit
    /\ forall p, exists s,
         cart_score (cart_categories []) (cart_tags []) p = Ok s
         /\ s == cart_base_score p.
Proof.
  intros catalog product_id user_id limit.
  repeat split; try (destruct product_id; reflexivity).
  apply cart_score_empty_cart.
Qed.

(* ===================================================================== *)
(** * Further properties of the two engines and their callers            *)
(* ===================================================================== *)


(* --------------------------------------------------------------------- *)
(** ** More on the text normaliser                                        *)
(* --------------------------------------------------------------------- *)

Lemma all_chars_impl (f g : ascii -> bool) s :
  (forall c, f c = true -> g c = true) ->
  Text.all_chars f s = true -> Text.all_chars g s = true.
Proof.
  intros Hfg. induction s as [|c s IH]; [reflexivity|].
  cbn [Text.all_chars]. intros [Hc Hs]%andb_prop.
  apply andb_true_intro. split; [now apply Hfg|now apply IH].
Qed.

Lemma all_chars_append f s1 s2 :
  Text.all_chars f (s1 +:+ s2) = Text.all_chars f s1 && Text.all_chars f s2.
Proof.
  induction s1 as [|c s1 IH]; [reflexivity|].
  change (String c s1 +:+ s2) with (String c (s1 +:+ s2)).
  cbn [Text.all_chars]. now rewrite IH, andb_assoc.
Qed.

Lemma all_chars_join f ws :
  f Text.space = true ->
  Forall (fun w => Text.all_chars f w = true) ws ->
  Text.all_chars f (Text.join_sp ws) = true.
Proof.
  intros Hsp. induction 1 as [|w ws Hw Hws IH]; [reflexivity|].
  cbn [Text.join_sp]. destruct ws as [|w' ws']; [exact Hw|].
  rewrite all_chars_append, Hw. cbn [Text.all_chars andb]. now rewrite Hsp, IH.
Qed.

Lemma lower_fixed s :
  Text.all_chars (fun c => negb (Text.is_upper c)) s = true -> Text.lower s = s.
Proof.
  induction s as [|c s IH]; [reflexivity|].
  cbn [Text.all_chars]. intros [Hc Hs]%andb_prop.
  cbn [Text.lower Text.map_chars]. fold (Text.lower s). rewrite (IH Hs).
  unfold Text.lower_char. apply negb_true_iff in Hc. now rewrite Hc.
Qed.

Lemma sub_punct_fixed s :
  Text.all_chars (fun c => Text.is_word c || Text.is_space c) s = true ->
  Text.sub_punct s = s.
Proof.
  induction s as [|c s IH]; [reflexivity|].
  cbn [Text.all_chars]. intros [Hc Hs]%andb_prop.
  cbn [Text.sub_punct Text.map_chars]. fold (Text.sub_punct s).
  now rewrite (IH Hs), Hc.
Qed.

Lemma word_not_space c : Text.is_word c = true -> Text.is_space c = false.
Proof.
  assert (H : implb (Text.is_word c) (negb (Text.is_space c)) = true)
    by (destruct c as [[] [] [] [] [] [] [] []]; reflexivity).
  intros Hw. rewrite Hw in H. now apply negb_true_iff in H.
Qed.

(** A string without white space is its own single word. *)
Lemma split_word w :
  Text.is_empty w = false ->
  Text.all_chars (fun c => negb (Text.is_space c)) w = true ->
  Text.split w = [w].
Proof.
  induction w as [|c w IH]; [discriminate|]. intros _.
  cbn [Text.all_chars]. intros [Hc Hw]%andb_prop. apply negb_true_iff in Hc.
  cbn [Text.split]. rewrite Hc.
  destruct w as [|d w']; [reflexivity|].
  cbn [Text.all_chars] in Hw. pose proof Hw as Hw'.
  apply andb_prop in Hw' as [Hd _]. apply negb_true_iff in Hd.
  cbn [Text.starts_with_space]. rewrite Hd.
  now rewrite (IH eq_refl Hw).
Qed.

Lemma split_word_space w rest :
  Text.is_empty w = false ->
  Text.all_chars (fun c => negb (Text.is_space c)) w = true ->
  Text.split (w +:+ String Text.space rest) = w :: Text.split rest.
Proof.
  induction w as [|c w IH]; [discriminate|]. intros _.
  cbn [Text.all_chars]. intros [Hc Hw]%andb_prop. apply negb_true_iff in Hc.
  change (String c w +:+ String Text.space rest)
    with (String c (w +:+ String Text.space rest)).
  cbn [Text.split]. rewrite Hc.
  destruct w as [|d w']; [reflexivity|].
  cbn [Text.all_chars] in Hw. pose proof Hw as Hw'.
  apply andb_prop in Hw' as [Hd _]. apply negb_true_iff in Hd.
  change (String d w' +:+ String Text.space rest)
    with (String d (w' +:+ String Text.space rest)) in *.
  cbn [Text.starts_with_space]. rewrite Hd.
  now rewrite (IH eq_refl Hw).
Qed.

Lemma split_join ws :
  Forall (fun w => Text.is_empty w = false
                   /\ Text.all_chars (fun c => negb (Text.is_space c)) w = true) ws ->
  Text.split (Text.join_sp ws) = ws.
Proof.
  induction 1 as [|w ws [Hne Hw] Hws IH]; [reflexivity|].
  cbn [Text.join_sp]. destruct ws as [|w' ws'].
  - now apply split_word.
  - rewrite split_word_space by assumption. now rewrite IH.
Qed.

Lemma tokens_join ws :
  Forall (fun w => token_ok w = true) ws -> tokens (Text.join_sp ws) = ws.
Proof.
  intros Hok. unfold tokens.
  assert (Hw : Forall (fun w => Text.all_chars
                          (fun c => Text.is_word c && negb (Text.is_upper c)) w = true) ws).
  { eapply Forall_impl; [exact Hok|]. intros w H. now apply andb_prop in H as [_ H]. }
  rewrite lower_fixed.
  2:{ apply all_chars_join; [reflexivity|].
      eapply Forall_impl; [exact Hw|]. intros w. apply all_chars_impl.
      intros c Hc. now apply andb_prop in Hc as [_ Hc]. }
  rewrite sub_punct_fixed.
  2:{ apply all_chars_join; [reflexivity|].
      eapply Forall_impl; [exact Hw|]. intros w. apply all_chars_impl.
      intros c Hc. apply andb_prop in Hc as [Hc _]. now rewrite Hc. }
  apply split_join. eapply Forall_impl; [exact Hok|]. intros w H.
  apply andb_prop in H as [Hne Hc]. split; [now apply negb_true_iff in Hne|].
  revert Hc. apply all_chars_impl. intros c Hc.
  apply andb_prop in Hc as [Hc _]. now rewrite (word_not_space c Hc).
Qed.

Lemma normalize_text_fixed x :
  normalize_text (Some (normalize_text x)) = normalize_text x.
Proof.
  destruct x as [t|]; [|reflexivity].
  rewrite (normalize_text_tokens t), normalize_text_tokens.
  now rewrite tokens_join by apply tokens_ok.
Qed.

(** The normal form holds no upper-case letter and no character outside
    the word class and the space. *)
Lemma normalize_text_chars x :
  Text.all_chars (fun c => (Text.is_word c && negb (Text.is_upper c))
                           || Ascii.eqb c Text.space) (normalize_text x) = true.
Proof.
  destruct x as [t|]; [|reflexivity].
  rewrite normalize_text_tokens. apply all_chars_join; [reflexivity|].
  eapply Forall_impl; [apply tokens_ok|]. intros w H.
  apply andb_prop in H as [_ H]. revert H. apply all_chars_impl.
  intros c ->. reflexivity.
Qed.

(** X1.  [normalize_text] is idempotent: a text that has been normalised
    is left as it is by a second pass, so the second normalisation that
    [fuzzy_match] applies to an already normalised query or field changes
    nothing.  The normal form holds lower-case word characters and
    single spaces only. *)
Theorem normalize_text_idempotent :
  forall x : option string,
    normalize_text (Some (normalize_text x)) = normalize_text x
    /\ Text.all_chars (fun c => (Text.is_word c && negb (Text.is_upper c))
                                || Ascii.eqb c Text.space) (normalize_text x) = true.
Proof.
  intros x. split; [apply normalize_text_fixed|apply normalize_text_chars].
Qed.


(* --------------------------------------------------------------------- *)
(** ** The matcher and the relevance score                                *)
(* --------------------------------------------------------------------- *)

Lemma of_nat_le m n : (m <= n)%nat -> of_nat m <= of_nat n.
Proof. intros H. unfold of_nat. rewrite <- Zle_Qle. lia. Qed.

Lemma of_nat_pos n : (0 < n)%nat -> 0 < of_nat n.
Proof. intros H. unfold of_nat. change 0 with (inject_Z 0). rewrite <- Zlt_Qlt. lia. Qed.

Lemma share_ratio (m n : nat) :
  (0 < m)%nat -> (m <= n)%nat -> 0 < of_nat m / of_nat n /\ of_nat m / of_nat n <= 1.
Proof.
  intros Hm Hmn.
  assert (Hn : 0 < of_nat n) by (apply of_nat_pos; lia).
  pose proof (of_nat_pos m Hm). pose proof (of_nat_le m n Hmn).
  split.
  - apply Qlt_shift_div_l; [exact Hn|]. lra.
  - apply Qle_shift_div_r; [exact Hn|]. lra.
Qed.

Lemma contains_nonempty t q :
  Text.is_empty q = false -> Text.contains t q = true -> Text.is_empty t = false.
Proof. destruct t; [|reflexivity]. destruct q; [discriminate|]. discriminate. Qed.

Section Matcher.
Variable ratio : string -> string -> Q.

(** X2.  When the library's similarity ratio lies between 0 and 1, so
    does [fuzzy_match]. *)
Theorem fuzzy_match_range :
  (forall a b, 0 <= ratio a b <= 1) ->
  forall query text, 0 <= fuzzy_match ratio query text <= 1.
Proof.
  intros Hr query text. unfold fuzzy_match.
  destruct (Text.is_empty query || Text.is_empty text); [lra|].
  destruct (Text.contains _ _); [lra|].
  set (qw := list_to_set (Text.split (normalize_text (Some query))) : gset string).
  set (tw := list_to_set (Text.split (normalize_text (Some text))) : gset string).
  destruct (0 <? size (qw ∩ tw))%nat eqn:Hm; [|apply Hr].
  apply Nat.ltb_lt in Hm.
  destruct (share_ratio (size (qw ∩ tw)) (size qw) Hm) as [H1 H2].
  { apply subseteq_size, intersection_subseteq_l. }
  lra.
Qed.

(** X3.  Whatever the similarity ratio is: when the query and the text
    are not empty and their normal forms share a word, [fuzzy_match] is
    above 0.8 and at most 1. *)
Theorem fuzzy_match_shared_word :
  forall query text w,
    Text.is_empty query = false -> Text.is_empty text = false ->
    w ∈ Text.split (normalize_text (Some query)) ->
    w ∈ Text.split (normalize_text (Some text)) ->
    8 # 10 < fuzzy_match ratio query text /\ fuzzy_match ratio query text <= 1.
Proof.
  intros query text w Hq Ht Hwq Hwt. unfold fuzzy_match.
  rewrite Hq, Ht. cbn [orb].
  destruct (Text.contains _ _); [lra|].
  set (qw := list_to_set (Text.split (normalize_text (Some query))) : gset string).
  set (tw := list_to_set (Text.split (normalize_text (Some text))) : gset string).
  assert (Hm : (0 < size (qw ∩ tw))%nat).
  { destruct (decide (size (qw ∩ tw) = 0%nat)) as [E|E]; [|lia].
    apply size_empty_inv in E. exfalso.
    assert (Hin : w ∈ qw ∩ tw).
    { subst qw tw. apply elem_of_intersection.
      split; apply elem_of_list_to_set; assumption. }
    rewrite E in Hin. now apply not_elem_of_empty in Hin. }
  rewrite (proj2 (Nat.ltb_lt _ _) Hm).
  destruct (share_ratio (size (qw ∩ tw)) (size qw) Hm) as [H1 H2].
  { apply subseteq_size, intersection_subseteq_l. }
  lra.
Qed.

Lemma fuzzy_match_contained q t :
  Text.is_empty q = false ->
  normalize_text (Some q) = q -> normalize_text (Some t) = t ->
  Text.contains t q = true -> fuzzy_match ratio q t = 1.
Proof.
  intros Hq Hnq Hnt Hc. unfold fuzzy_match.
  rewrite Hq, (contains_nonempty t q Hq Hc). cbn [orb].
  now rewrite Hnq, Hnt, Hc.
Qed.

Hypothesis ratio_nonneg : forall a b, 0 <= ratio a b.

Lemma fuzzy_match_nonneg query text : 0 <= fuzzy_match ratio query text.
Proof.
  unfold fuzzy_match.
  destruct (Text.is_empty query || Text.is_empty text); [lra|].
  destruct (Text.contains _ _); [lra|].
  set (qw := list_to_set (Text.split (normalize_text (Some query))) : gset string).
  set (tw := list_to_set (Text.split (normalize_text (Some text))) : gset string).
  destruct (0 <? size (qw ∩ tw))%nat eqn:Hm; [|apply ratio_nonneg].
  apply Nat.ltb_lt in Hm.
  destruct (share_ratio (size (qw ∩ tw)) (size qw) Hm) as [H1 H2].
  { apply subseteq_size, intersection_subseteq_l. }
  lra.
Qed.

Lemma fold_matches_grow (q : string) (k : Q) (l : list string) (s : Q) :
  0 <= k -> s <= foldl (fun sc t => sc + fuzzy_match ratio q t * k) s l.
Proof.
  intros Hk. revert s. induction l as [|t l IH]; intros s; [cbn; lra|].
  cbn [foldl]. eapply Qle_trans; [|apply IH].
  pose proof (fuzzy_match_nonneg q t).
  assert (0 <= fuzzy_match ratio q t * k) by (apply Qmult_le_0_compat; assumption).
  lra.
Qed.

(** The score after the title has been looked at, and what the rest of
    [calculate_relevance] adds to it. *)
Lemma relevance_above_title p query :
  let q := normalize_text (Some query) in
  let t := normalize_text (Some (str_or_empty (title p))) in
  0 + fuzzy_match ratio q t * 100 + (if Text.contains t q then 50 else 0)
  <= calculate_relevance ratio p query.
Proof.
  intros q t. unfold calculate_relevance. fold q. fold t.
  set (s1 := if Text.contains t q then _ + 50 else _).
  assert (H1 : 0 + fuzzy_match ratio q t * 100 + (if Text.contains t q then 50 else 0)
               <= s1).
  { subst s1. destruct (Text.contains t q); lra. }
  pose proof (fold_matches_grow q 20 (tags p) s1 ltac:(lra)) as H2.
  set (s2 := foldl _ s1 (tags p)) in *.
  pose proof (fuzzy_match_nonneg q
                (normalize_text (Some (str_or_empty (seo_description p))))) as H3.
  set (s3 := s2 + _ * 15).
  assert (H3' : s2 <= s3) by (subst s3; lra).
  pose proof (fold_matches_grow q 10 (bullets p) s3 ltac:(lra)) as H4.
  set (s4 := foldl _ s3 (bullets p)) in *.
  repeat match goal with
         | |- context [if ?b then _ else _] => destruct b
         end; lra.
Qed.

End Matcher.

Lemma relevance_title_match ratio :
  (forall a b, 0 <= ratio a b) ->
  forall p query,
    normalize_text (Some query) <> EmptyString ->
    Text.contains (normalize_text (Some (str_or_empty (title p))))
      (normalize_text (Some query)) = true ->
    150 <= calculate_relevance ratio p query.
Proof.
  intros Hr p query Hq Hc.
  pose proof (relevance_above_title ratio Hr p query) as H. cbv zeta in H.
  rewrite Hc in H.
  rewrite (fuzzy_match_contained ratio) in H; [lra| | | |exact Hc].
  - destruct (normalize_text (Some query)); [congruence|reflexivity].
  - apply normalize_text_fixed.
  - apply (normalize_text_fixed (Some (str_or_empty (title p)))).
Qed.

(** X4.  When the similarity ratio is never negative, neither is the
    relevance of a product; and a product whose normalised title holds
    the normalised query, the query not being blank, scores at least 150:
    100 for the full title match and 50 for the occurrence. *)
Theorem relevance_bounds :
  forall (ratio : string -> string -> Q),
    (forall a b, 0 <= ratio a b) ->
    forall (p : product) (query : string),
      0 <= calculate_relevance ratio p query
      /\ (normalize_text (Some query) <> EmptyString ->
          Text.contains (normalize_text (Some (str_or_empty (title p))))
            (normalize_text (Some query)) = true ->
          150 <= calculate_relevance ratio p query).
Proof.
  intros ratio Hr p query.
  pose proof (relevance_above_title ratio Hr p query) as H. cbv zeta in H.
  split.
  - pose proof (fuzzy_match_nonneg ratio Hr (normalize_text (Some query))
                  (normalize_text (Some (str_or_empty (title p))))).
    destruct (Text.contains _ _); lra.
  - intros Hq Hc. now apply relevance_title_match.
Qed.


(* --------------------------------------------------------------------- *)
(** ** The filter stage, product by product                               *)
(* --------------------------------------------------------------------- *)

Lemma filter_true {A : Type} (l : list A) : List.filter (fun _ => true) l = l.
Proof. induction l as [|x l IH]; [reflexivity|]. cbn. now rewrite IH. Qed.

Lemma filter_fuse {A : Type} (f g : A -> bool) l :
  List.filter g (List.filter f l) = List.filter (fun x => f x && g x) l.
Proof.
  induction l as [|x l IH]; [reflexivity|].
  cbn [List.filter]. destruct (f x); cbn [List.filter andb]; now rewrite IH.
Qed.

Lemma bound_value_ok fl b lo :
  bound_value fl b = Ok lo ->
  match b with
  | Some x => exists q, to_float fl x = Ok q /\ lo = Some q
  | None => lo = None
  end.
Proof.
  destruct b as [x|]; cbn.
  - destruct (to_float fl x) as [q|e]; cbn; [|discriminate].
    intros [= <-]. eauto.
  - now intros [= <-].
Qed.

(** The five steps of [apply_filters] amount to one test on each
    product. *)
Lemma apply_filters_passes fl l f lo hi :
  bound_value fl (price_min f) = Ok lo ->
  bound_value fl (price_max f) = Ok hi ->
  apply_filters fl l (Some f) = Ok (List.filter (passes f lo hi) l).
Proof.
  intros Hlo%bound_value_ok Hhi%bound_value_ok. unfold apply_filters.
  destruct (no_filters (Some f)) eqn:Hno.
  { cbn in Hno. unfold passes, passes_category, passes_animal, passes_images.
    destruct (f_category f), (f_animal f), (price_min f), (price_max f),
      (has_images f); try discriminate Hno.
    subst lo hi. cbn. now rewrite filter_true. }
  assert (Hc : forall l0,
    match truthy_str (f_category f) with
    | Some c =>
        let cat := Text.lower c in
        List.filter (fun p =>
          Text.contains (Text.lower (str_or_empty (category_slug p))) cat
          || Text.contains (Text.lower (str_or_empty (product_type p))) cat) l0
    | None => l0
    end = List.filter (passes_category f) l0).
  { intros l0. unfold passes_category.
    destruct (truthy_str (f_category f)); [reflexivity|now rewrite filter_true]. }
  assert (Ha : forall l0,
    match truthy_str (f_animal f) with
    | Some a =>
        let an := Text.lower a in
        List.filter (fun p =>
          String.eqb (Text.lower (str_or_empty (animal p))) an) l0
    | None => l0
    end = List.filter (passes_animal f) l0).
  { intros l0. unfold passes_animal.
    destruct (truthy_str (f_animal f)); [reflexivity|now rewrite filter_true]. }
  assert (Hi : forall l0,
    match has_images f with
    | Some true => List.filter (fun p => bool_decide (images p <> [])) l0
    | _ => l0
    end = List.filter (passes_images f) l0).
  { intros l0. unfold passes_images.
    destruct (has_images f) as [[]|]; [reflexivity|now rewrite filter_true..]. }
  rewrite Hc, Ha.
  assert (Hmin : match price_min f with
                 | Some b =>
                     min_price ← to_float fl b ;
                     Ok (List.filter (fun p => Qle_bool min_price (num_or (price p) 0))
                           (List.filter (passes_animal f)
                              (List.filter (passes_category f) l)))
                 | None => Ok (List.filter (passes_animal f)
                                 (List.filter (passes_category f) l))
                 end
                 = Ok (List.filter (passes_min lo)
                         (List.filter (passes_animal f)
                            (List.filter (passes_category f) l)))).
  { revert Hlo. destruct (price_min f) as [b|]; intros Hlo.
    - destruct Hlo as (q & -> & ->). reflexivity.
    - subst lo. cbn [passes_min]. now rewrite filter_true. }
  rewrite Hmin. cbn [mbind result_bind].
  assert (Hmax : forall l0,
            match price_max f with
            | Some b =>
                max_price ← to_float fl b ;
                Ok (List.filter (fun p => Qle_bool (num_or (price p) 999999) max_price) l0)
            | None => Ok l0
            end = Ok (List.filter (passes_max hi) l0)).
  { intros l0. revert Hhi. destruct (price_max f) as [b|]; intros Hhi.
    - destruct Hhi as (q & -> & ->). reflexivity.
    - subst hi. cbn [passes_max]. now rewrite filter_true. }
  rewrite Hmax. cbn [mbind result_bind]. rewrite Hi.
  rewrite !filter_fuse. f_equal. apply filter_ext. intros p. unfold passes.
  destruct (passes_category f p), (passes_animal f p), (passes_min lo p),
    (passes_max hi p), (passes_images f p); reflexivity.
Qed.

Lemma apply_filters_bounds fl l fs l' :
  apply_filters fl l fs = Ok l' ->
  match fs with
  | Some f => exists lo hi, bound_value fl (price_min f) = Ok lo
                            /\ bound_value fl (price_max f) = Ok hi
  | None => True
  end.
Proof.
  destruct fs as [f|]; [|trivial]. intros H.
  destruct (has_bad_bound fl (Some f)) eqn:Hb.
  - destruct (apply_filters_bad_bound fl (Some f) l Hb) as [msg Hm]. congruence.
  - cbn [has_bad_bound] in Hb. apply orb_false_elim in Hb as [Hmin Hmax].
    unfold bound_value.
    destruct (price_min f) as [b|].
    + destruct (good_bound_to_float fl b Hmin) as [q ->].
      destruct (price_max f) as [b'|]; [|cbn; eauto].
      destruct (good_bound_to_float fl b' Hmax) as [q' ->]. cbn. eauto.
    + destruct (price_max f) as [b'|]; [|cbn; eauto].
      destruct (good_bound_to_float fl b' Hmax) as [q' ->]. cbn. eauto.
Qed.

Lemma filter_idem {A : Type} (f : A -> bool) l :
  List.filter f (List.filter f l) = List.filter f l.
Proof.
  rewrite filter_fuse. apply filter_ext. intros x. now destruct (f x).
Qed.

(** X5.  [apply_filters] tests every product on its own: when it
    returns on a list, it returns on that list's parts and on its own
    result; the result of a concatenation is the concatenation of the
    results, and filtering the result again changes nothing. *)
Theorem apply_filters_pointwise :
  forall (float_of_str : string -> option Q) (l1 l2 l' : list product)
         (fs : option filters),
    apply_filters float_of_str (l1 ++ l2) fs = Ok l' ->
    exists r1 r2,
      apply_filters float_of_str l1 fs = Ok r1
      /\ apply_filters float_of_str l2 fs = Ok r2
      /\ l' = r1 ++ r2
      /\ apply_filters float_of_str l' fs = Ok l'.
Proof.
  intros fl l1 l2 l' fs H.
  destruct fs as [f|].
  2:{ cbn in H. injection H as <-. exists l1, l2. repeat split. }
  destruct (apply_filters_bounds _ _ _ _ H) as (lo & hi & Hlo & Hhi).
  rewrite (apply_filters_passes _ _ _ _ _ Hlo Hhi) in H. injection H as <-.
  exists (List.filter (passes f lo hi) l1), (List.filter (passes f lo hi) l2).
  rewrite !(apply_filters_passes _ _ _ _ _ Hlo Hhi).
  split; [reflexivity|]. split; [reflexivity|]. split; [apply List.filter_app|].
  now rewrite filter_idem.
Qed.

(** X6.  With a numeric lower and upper price bound, every product that
    [apply_filters] lets through either has a price other than zero that
    lies between the bounds, or has no price (or the price 0) while the
    lower bound is at most 0 and the upper bound at least 999999. *)
Theorem price_window :
  forall (float_of_str : string -> option Q) (l l' : list product) (f : filters)
         (bmin bmax : bound) (lo hi : Q),
    price_min f = Some bmin -> to_float float_of_str bmin = Ok lo ->
    price_max f = Some bmax -> to_float float_of_str bmax = Ok hi ->
    apply_filters float_of_str l (Some f) = Ok l' ->
    Forall (fun p =>
              match price p with
              | Some x => if Qeq_bool x 0 then lo <= 0 /\ 999999 <= hi
                          else lo <= x /\ x <= hi
              | None => lo <= 0 /\ 999999 <= hi
              end) l'.
Proof.
  intros fl l l' f bmin bmax lo hi Hmin Hlo Hmax Hhi H.
  rewrite (apply_filters_passes fl l f (Some lo) (Some hi)) in H.
  2:{ rewrite Hmin. cbn. now rewrite Hlo. }
  2:{ rewrite Hmax. cbn. now rewrite Hhi. }
  injection H as <-. apply Forall_forall. intros p Hp.
  apply filter_elem_of in Hp as [_ Hp]. unfold passes in Hp.
  repeat (apply andb_prop in Hp as [Hp ?]).
  cbn [passes_min passes_max] in *.
  repeat match goal with
         | H : Qle_bool _ _ = true |- _ => apply Qle_bool_iff in H
         end.
  unfold num_or in *. destruct (price p) as [x|]; [|split; assumption].
  destruct (Qeq_bool x 0); split; assumption.
Qed.

Lemma lower_empty c c' :
  Text.lower c = Text.lower c' -> Text.is_empty c = Text.is_empty c'.
Proof. destruct c, c'; cbn; congruence. Qed.

(** X7.  The category and the animal of a filter set are compared
    without regard to case: two filter sets whose values differ in case
    only give the same result. *)
Theorem filters_ignore_case :
  forall (float_of_str : string -> option Q) (l : list product)
         (c c' a a' : string) (bmin bmax : option bound) (h : option bool),
    Text.lower c = Text.lower c' -> Text.lower a = Text.lower a' ->
    apply_filters float_of_str l
      (Some {| f_category := Some c; f_animal := Some a; price_min := bmin;
               price_max := bmax; has_images := h |})
    = apply_filters float_of_str l
        (Some {| f_category := Some c'; f_animal := Some a'; price_min := bmin;
                 price_max := bmax; has_images := h |}).
Proof.
  intros fl l c c' a a' bmin bmax h Hc Ha. unfold apply_filters.
  cbn [no_filters f_category f_animal price_min price_max has_images truthy_str].
  rewrite (lower_empty c c' Hc), (lower_empty a a' Ha).
  destruct (Text.is_empty c'), (Text.is_empty a'); cbv zeta; rewrite ?Hc, ?Ha;
    reflexivity.
Qed.


(* --------------------------------------------------------------------- *)
(** ** The sort stage                                                     *)
(* --------------------------------------------------------------------- *)

(** Sorting a list that is in order gives the list back. *)
Lemma sort_by_fixed {A K : Type} (le : K -> K -> bool) (key : A -> K) l :
  StronglySorted (ordered le key) l -> sort_by le key l = l.
Proof.
  induction 1 as [|x l Hl IH Hx]; [reflexivity|].
  cbn [sort_by foldr]. fold (sort_by le key l). rewrite IH.
  destruct l as [|y l']; [reflexivity|].
  cbn [insert_by]. apply Forall_inv in Hx. unfold ordered in Hx. now rewrite Hx.
Qed.

Lemma leb_total a b : String.leb a b = true \/ String.leb b a = true.
Proof. apply String.leb_total. Qed.

Lemma leb_trans a b c :
  String.leb a b = true -> String.leb b c = true -> String.leb a c = true.
Proof.
  intros H1 H2. apply Is_true_true.
  apply Is_true_true in H1, H2.
  exact (transitivity (R := String.le) H1 H2).
Qed.

Lemma sort_products_fixed l sort_by scores :
  sort_products (sort_products l sort_by scores) sort_by scores
  = sort_products l sort_by scores.
Proof.
  unfold sort_products, py_sorted.
  destruct (String.eqb sort_by "relevance" && bool_decide (scores <> ∅)).
  { apply sort_by_fixed, sort_by_sorted;
      [intros a b; apply Qge_total|intros a b c; apply Qge_trans]. }
  destruct (String.eqb sort_by "price_low").
  { apply sort_by_fixed, sort_by_sorted;
      [intros a b; apply Qle_total'|intros a b c; apply Qle_trans']. }
  destruct (String.eqb sort_by "price_high").
  { apply sort_by_fixed, sort_by_sorted;
      [intros a b; apply Qge_total|intros a b c; apply Qge_trans]. }
  destruct (String.eqb sort_by "name"); [|reflexivity].
  apply sort_by_fixed, sort_by_sorted;
    [intros a b; apply leb_total|intros a b c; apply leb_trans].
Qed.

(** X8.  Whatever the sort key is, [sort_products] returns the products
    it was given, each as often as it was given, and sorting its result
    again with the same key changes nothing. *)
Theorem sort_products_rearranges :
  forall (l : list product) (sort_by : string) (scores : gmap (option pid) Q),
    sort_products l sort_by scores ≡ₚ l
    /\ sort_products (sort_products l sort_by scores) sort_by scores
       = sort_products l sort_by scores.
Proof.
  intros l sort_by scores. split; [apply sort_products_perm|apply sort_products_fixed].
Qed.

(** X9.  The price sorts order by the price, a missing price counting
    as 0: ["price_low"] ascending, ["price_high"] descending; in both,
    products with equal prices keep the order they came in. *)
Theorem price_sorts_ordered :
  forall (l : list product) (scores : gmap (option pid) Q),
    let key := fun p => num_or (price p) 0 in
    StronglySorted (fun a b => key a <= key b) (sort_products l "price_low" scores)
    /\ StronglySorted (fun a b => key b <= key a) (sort_products l "price_high" scores)
    /\ forall v : Q,
         List.filter (fun p => Qeq_bool (key p) v) (sort_products l "price_low" scores)
           = List.filter (fun p => Qeq_bool (key p) v) l
         /\ List.filter (fun p => Qeq_bool (key p) v) (sort_products l "price_high" scores)
           = List.filter (fun p => Qeq_bool (key p) v) l.
Proof.
  intros l scores key.
  rewrite sort_products_price_low, sort_products_price_high. unfold py_sorted.
  split; [|split; [|intros v; split]].
  - eapply StronglySorted_weaken;
      [|apply (sort_by_sorted Qle_bool key);
        [intros a b; apply Qle_total'|intros a b c; apply Qle_trans']].
    intros a b _ _ H. now apply Qle_bool_iff.
  - eapply StronglySorted_weaken;
      [|apply (sort_by_sorted (fun a b => Qle_bool b a) key);
        [intros a b; apply Qge_total|intros a b c; apply Qge_trans]].
    intros a b _ _ H. now apply Qle_bool_iff.
  - apply filter_sort_by. intros x y. apply (Qeq_class_asc key v x y).
  - apply filter_sort_by. intros x y. apply (Qeq_class_desc key v x y).
Qed.

Lemma leb_antisym_eqb a b :
  String.leb a b = true -> String.leb b a = true -> String.eqb a b = true.
Proof. intros H1 H2. apply String.eqb_eq. now apply String.leb_antisym. Qed.

(** X10.  The sort by name orders by the title in lower case, a missing
    title counting as the empty string; products whose titles differ in
    case only keep the order they came in. *)
Theorem name_sort_ordered :
  forall (l : list product) (scores : gmap (option pid) Q),
    let key := fun p => Text.lower (str_or_empty (title p)) in
    StronglySorted (fun a b => String.leb (key a) (key b) = true)
      (sort_products l "name" scores)
    /\ forall t : string,
         List.filter (fun p => String.eqb (key p) t) (sort_products l "name" scores)
         = List.filter (fun p => String.eqb (key p) t) l.
Proof.
  intros l scores key.
  change (sort_products l "name" scores) with (sort_by String.leb key l).
  split.
  - apply (sort_by_sorted String.leb key);
      [intros a b; apply leb_total|intros a b c; apply leb_trans].
  - intros t. apply filter_sort_by. intros x y Hx Hxy.
    apply String.eqb_eq in Hx. apply not_true_is_false. intros Hy%String.eqb_eq.
    rewrite Hx, Hy in Hxy. destruct (leb_total t t); congruence.
Qed.

(* --------------------------------------------------------------------- *)
(** ** What [search_products] returns                                     *)
(* --------------------------------------------------------------------- *)

Lemma slice_to_length {A : Type} (limit : Z) (l : list A) :
  length (slice_to limit l)
  = if (0 <=? limit)%Z then Nat.min (Z.to_nat limit) (length l)
    else (length l - Z.to_nat (- limit))%nat.
Proof.
  unfold slice_to. destruct (0 <=? limit)%Z; rewrite length_take; lia.
Qed.

Lemma slice_to_sublist {A : Type} (limit : Z) (l : list A) :
  slice_to limit l `sublist_of` l.
Proof. destruct (slice_to_take limit l) as [n ->]. apply sublist_take. Qed.

Lemma slice_sort_nil sort_by scores limit :
  slice_to limit (sort_products [] sort_by scores) = [].
Proof.
  assert (E : sort_products [] sort_by scores = []).
  { apply Permutation_nil_r. apply sort_products_perm. }
  rewrite E. unfold slice_to. destruct (0 <=? limit)%Z; apply take_nil.
Qed.

(** The steps of [search_products]. *)
Lemma search_products_steps ratio fl catalog query fs sort_by limit r :
  search_products ratio fl catalog query fs sort_by limit = Ok r ->
  exists filtered,
    filtered `sublist_of` catalog
    /\ total r = length filtered
    /\ results r
       = slice_to limit (sort_products filtered sort_by (build_scores ratio catalog query))
    /\ (catalog <> [] ->
        apply_filters fl
          (List.filter
             (fun p => Qle_bool min_score (score_of (build_scores ratio catalog query) p))
             catalog) fs = Ok filtered).
Proof.
  unfold search_products. destruct catalog as [|p0 l0] eqn:Hcat.
  { intros [= <-]. exists []. split; [reflexivity|]. split; [reflexivity|].
    split; [cbn [results]; now rewrite slice_sort_nil|]. intros Hne. now destruct Hne. }
  rewrite <- Hcat.
  destruct (apply_filters fl _ fs) as [filtered|e] eqn:Hf; cbn [mbind result_bind];
    [|discriminate].
  intros [= <-]. exists filtered. cbn [total results].
  split; [|repeat split].
  etrans; [eapply apply_filters_sublist; exact Hf|]. apply filter_sublist.
Qed.

(** X11.  When [search_products] returns: [total] counts the products
    that matched and passed the filters, at most the size of the
    catalogue; [results] holds the first [limit] of them, or all but the
    last [-limit] when [limit] is negative; every result is a product of
    the catalogue, and no product is listed more often than the
    catalogue holds it. *)
Theorem search_results_size :
  forall (ratio : string -> string -> Q) (float_of_str : string -> option Q)
         (catalog : list product) (query : string) (fs : option filters)
         (sort_by : string) (limit : Z) (r : response),
    search_products ratio float_of_str catalog query fs sort_by limit = Ok r ->
    (total r <= length catalog)%nat
    /\ length (results r)
       = (if (0 <=? limit)%Z then Nat.min (Z.to_nat limit) (total r)
          else (total r - Z.to_nat (- limit))%nat)
    /\ (forall p, p ∈ results r -> p ∈ catalog)
    /\ (NoDup catalog -> NoDup (results r)).
Proof.
  intros ratio fl catalog query fs sort_by limit r H.
  destruct (search_products_steps _ _ _ _ _ _ _ _ H) as (filtered & Hsub & Ht & Hr & _).
  split; [|split; [|split]].
  - rewrite Ht. now apply sublist_length.
  - rewrite Hr, slice_to_length, Ht.
    now rewrite (Permutation_length (sort_products_perm _ _ _)).
  - intros p Hp. rewrite Hr in Hp.
    eapply elem_of_sublist; [|exact Hsub].
    rewrite <- (sort_products_perm filtered sort_by (build_scores ratio catalog query)).
    eapply elem_of_sublist; [exact Hp|apply slice_to_sublist].
  - intros Hnd. rewrite Hr.
    eapply sublist_NoDup; [|apply slice_to_sublist].
    rewrite (sort_products_perm _ _ _). eapply sublist_NoDup; eassumption.
Qed.

(** X12.  The sort key and the limit do not change what is found: two
    searches that differ in them only report the same [total], and when
    neither limit cuts the list they return the same products, in the
    order of their own sort key. *)
Theorem search_total_stable :
  forall (ratio : string -> string -> Q) (float_of_str : string -> option Q)
         (catalog : list product) (query : string) (fs : option filters)
         (sort1 sort2 : string) (limit1 limit2 : Z) (r1 r2 : response),
    search_products ratio float_of_str catalog query fs sort1 limit1 = Ok r1 ->
    search_products ratio float_of_str catalog query fs sort2 limit2 = Ok r2 ->
    total r1 = total r2
    /\ ((Z.of_nat (total r1) <= limit1)%Z -> (Z.of_nat (total r2) <= limit2)%Z ->
        results r1 ≡ₚ results r2).
Proof.
  intros ratio fl catalog query fs sort1 sort2 limit1 limit2 r1 r2 H1 H2.
  destruct (search_products_steps _ _ _ _ _ _ _ _ H1) as (f1 & _ & Ht1 & Hr1 & Hf1).
  destruct (search_products_steps _ _ _ _ _ _ _ _ H2) as (f2 & _ & Ht2 & Hr2 & Hf2).
  assert (E : f1 = f2).
  { destruct catalog as [|p0 l0].
    - cbn in H1, H2. injection H1 as <-. injection H2 as <-.
      cbn in Ht1, Ht2. destruct f1, f2; try discriminate; reflexivity.
    - specialize (Hf1 ltac:(discriminate)). specialize (Hf2 ltac:(discriminate)).
      congruence. }
  subst f2. split; [congruence|].
  intros Hl1 Hl2. rewrite Hr1, Hr2.
  rewrite !slice_to_all
    by (rewrite (Permutation_length (sort_products_perm _ _ _)); lia).
  now rewrite !sort_products_perm.
Qed.

(** X13.  With unique identifiers, no filters and a limit that does not
    cut the list, a search lists every product of the catalogue whose
    normalised title holds the normalised, non-blank query. *)
Theorem search_finds_title_matches :
  forall (ratio : string -> string -> Q) (float_of_str : string -> option Q)
         (catalog : list product) (query : string) (sort_by : string) (limit : Z)
         (p : product),
    (forall a b, 0 <= ratio a b) ->
    NoDup (map id catalog) ->
    (Z.of_nat (length catalog) <= limit)%Z ->
    p ∈ catalog ->
    normalize_text (Some query) <> EmptyString ->
    Text.contains (normalize_text (Some (str_or_empty (title p))))
      (normalize_text (Some query)) = true ->
    exists r,
      search_products ratio float_of_str catalog query None sort_by limit = Ok r
      /\ p ∈ results r.
Proof.
  intros ratio fl catalog query sort_by limit p Hr Hnd Hlim Hp Hq Hc.
  unfold search_products. destruct catalog as [|p0 l0] eqn:Hcat; [inversion Hp|].
  rewrite <- Hcat in *. cbn [apply_filters no_filters mbind result_bind].
  eexists. split; [reflexivity|]. cbn [results].
  set (scores := build_scores ratio catalog query).
  set (matched := List.filter _ catalog).
  assert (Hm : p ∈ matched).
  { apply filter_elem_of. split; [exact Hp|].
    unfold scores. rewrite (build_scores_own ratio query catalog p Hnd Hp).
    apply Qle_bool_iff. unfold min_score.
    pose proof (relevance_title_match ratio Hr p query Hq Hc). lra. }
  rewrite slice_to_all.
  - now rewrite sort_products_perm.
  - rewrite (Permutation_length (sort_products_perm _ _ _)).
    pose proof (sublist_length _ _ (filter_sublist
      (fun p => Qle_bool min_score (score_of scores p)) catalog)).
    fold matched in H. lia.
Qed.


(* --------------------------------------------------------------------- *)
(** ** The callers of [search_products]                                   *)
(* --------------------------------------------------------------------- *)

(** [search_products] fails exactly on a catalogue that is not empty
    with a price bound that [float] refuses. *)
Lemma search_products_outcome ratio fl catalog query fs sort_by limit :
  (catalog <> [] /\ has_bad_bound fl fs = true
   /\ exists msg, search_products ratio fl catalog query fs sort_by limit
                  = Err (ValueError msg))
  \/ ((catalog = [] \/ has_bad_bound fl fs = false)
      /\ exists r, search_products ratio fl catalog query fs sort_by limit = Ok r).
Proof.
  unfold search_products. destruct catalog as [|p0 l0] eqn:Hcat.
  { right. split; [now left|]. eauto. }
  rewrite <- Hcat.
  destruct (has_bad_bound fl fs) eqn:Hb.
  - left. split; [congruence|]. split; [reflexivity|].
    edestruct (apply_filters_bad_bound fl fs) as [msg ->]; [exact Hb|]. eauto.
  - right. split; [now right|].
    edestruct (apply_filters_good_bounds fl fs) as [l' ->]; [exact Hb|].
    cbn [mbind result_bind]. eauto.
Qed.

(** Without filters the search by relevance keeps the products that
    reach the threshold and lists them by descending relevance. *)
Lemma relevance_results ratio fl catalog query limit r :
  NoDup (map id catalog) ->
  search_products ratio fl catalog query None "relevance" limit = Ok r ->
  Forall (fun p => 10 <= calculate_relevance ratio p query) (results r)
  /\ StronglySorted (fun a b => calculate_relevance ratio b query
                               <= calculate_relevance ratio a query) (results r).
Proof.
  intros Hnd H.
  destruct (search_products_steps _ _ _ _ _ _ _ _ H) as (filtered & Hsub & _ & Hr & Hf).
  destruct catalog as [|p0 l0] eqn:Hcat.
  { cbn in H. injection H as <-. cbn. split; constructor. }
  rewrite <- Hcat in *.
  assert (Hne : catalog <> []) by (rewrite Hcat; discriminate).
  specialize (Hf Hne). cbn [apply_filters no_filters] in Hf. injection Hf as Hf.
  set (scores := build_scores ratio catalog query) in *.
  assert (Hown : forall p, p ∈ filtered ->
            score_of scores p = calculate_relevance ratio p query
            /\ 10 <= calculate_relevance ratio p query).
  { intros p Hp.
    assert (E : score_of scores p = calculate_relevance ratio p query).
    { apply build_scores_own; [exact Hnd|]. eapply elem_of_sublist; eassumption. }
    split; [exact E|]. rewrite <- E, <- Hf in *.
    apply filter_elem_of in Hp as [_ Hp]. now apply Qle_bool_iff in Hp. }
  assert (Hin : forall p, p ∈ results r -> p ∈ filtered).
  { intros p Hp. rewrite Hr in Hp.
    rewrite <- (sort_products_perm filtered "relevance" scores).
    eapply elem_of_sublist; [exact Hp|apply slice_to_sublist]. }
  split.
  - apply Forall_forall. intros p Hp. now apply Hown, Hin.
  - eapply StronglySorted_weaken with
      (R := ordered (fun a b => Qle_bool b a) (score_of scores)).
    + intros a b Ha Hb Hab. unfold ordered in Hab. apply Qle_bool_iff in Hab.
      destruct (Hown a (Hin a Ha)) as [<- _], (Hown b (Hin b Hb)) as [<- _].
      exact Hab.
    + rewrite Hr. eapply StronglySorted_sublist; [apply slice_to_sublist|].
      rewrite sort_products_relevance.
      * apply sort_by_sorted; [intros a b; apply Qge_total|intros a b c; apply Qge_trans].
      * subst scores. rewrite Hcat. apply build_scores_nonempty.
Qed.

(** X14.  [engine_core.search] never fails.  It answers the empty list
    when the search module is not available or the catalogue is empty;
    otherwise, on a catalogue with unique identifiers, it answers
    products of the catalogue whose relevance is at least 10, by
    descending relevance, at most [limit] of them when [limit] is not
    negative. *)
Theorem core_search_answers :
  forall (ratio : string -> string -> Q) (float_of_str : string -> option Q)
         (search_mod : bool) (catalog : list product) (query : string) (limit : Z),
    exists l,
      EngineCore.search ratio float_of_str search_mod catalog query limit = Ok l
      /\ (search_mod = false \/ catalog = [] -> l = [])
      /\ (forall p, p ∈ l -> p ∈ catalog)
      /\ ((0 <= limit)%Z -> (length l <= Z.to_nat limit)%nat)
      /\ (NoDup (map id catalog) ->
          Forall (fun p => 10 <= calculate_relevance ratio p query) l
          /\ StronglySorted (fun a b => calculate_relevance ratio b query
                                       <= calculate_relevance ratio a query) l).
Proof.
  intros ratio fl search_mod catalog query limit. unfold EngineCore.search.
  destruct search_mod.
  2:{ exists []. split; [reflexivity|]. split; [reflexivity|].
      split; [intros p Hp; inversion Hp|]. split; [cbn; lia|].
      intros _. split; constructor. }
  destruct (search_products_outcome ratio fl catalog query None "relevance" limit)
    as [(_ & Hb & _)|(_ & r & Hr)]; [discriminate Hb|].
  rewrite Hr. cbn [mbind result_bind]. exists (results r). split; [reflexivity|].
  destruct (search_products_steps _ _ _ _ _ _ _ _ Hr) as (filtered & Hsub & Ht & Hres & _).
  split; [|split; [|split]].
  - intros [Hm|Hc]; [discriminate|]. subst catalog. cbn in Hr. now injection Hr as <-.
  - intros p Hp. rewrite Hres in Hp.
    eapply elem_of_sublist; [|exact Hsub].
    rewrite <- (sort_products_perm filtered "relevance" (build_scores ratio catalog query)).
    eapply elem_of_sublist; [exact Hp|apply slice_to_sublist].
  - intros Hl. rewrite Hres, slice_to_length.
    destruct (0 <=? limit)%Z eqn:E; lia.
  - intros Hnd. exact (relevance_results ratio fl catalog query limit r Hnd Hr).
Qed.

(** X15.  [build_search_page] fails exactly when the catalogue is not
    empty and a price bound of the filters is refused by [float]; it
    then fails with that [ValueError].  Otherwise the page repeats the
    query and the sort key, reports in [total] how many products were
    found, and lists the first 50 of them at most. *)
Theorem search_page_contents :
  forall (ratio : string -> string -> Q) (float_of_str : string -> option Q)
         (catalog : list product) (query : string) (fs : option filters)
         (sort : string),
    let page :=
      EngineStorefront.build_search_page ratio float_of_str catalog query fs sort in
    (catalog <> [] /\ has_bad_bound float_of_str fs = true
     /\ exists msg, page = Err (ValueError msg))
    \/ ((catalog = [] \/ has_bad_bound float_of_str fs = false)
        /\ exists pg,
             page = Ok pg
             /\ EngineStorefront.data_query pg = query
             /\ EngineStorefront.data_sort pg = sort
             /\ (EngineStorefront.data_total pg <= length catalog)%nat
             /\ length (EngineStorefront.data_results pg)
                = Nat.min 50 (EngineStorefront.data_total pg)).
Proof.
  intros ratio fl catalog query fs sort page. subst page.
  unfold EngineStorefront.build_search_page.
  destruct (search_products_outcome ratio fl catalog query fs sort 50)
    as [(Hne & Hb & msg & Hm)|(Hok & r & Hr)].
  - left. split; [exact Hne|]. split; [exact Hb|]. exists msg. now rewrite Hm.
  - right. split; [exact Hok|]. rewrite Hr. cbn [mbind result_bind].
    eexists. split; [reflexivity|].
    cbn [EngineStorefront.data_query EngineStorefront.data_sort
         EngineStorefront.data_total EngineStorefront.data_results].
    destruct (search_products_steps _ _ _ _ _ _ _ _ Hr) as (filtered & Hsub & Ht & Hres & _).
    split; [reflexivity|]. split; [reflexivity|]. split.
    + rewrite Ht. now apply sublist_length.
    + rewrite Hres, slice_to_length, Ht.
      now rewrite (Permutation_length (sort_products_perm _ _ _)).
Qed.


(* --------------------------------------------------------------------- *)
(** ** More on the search index                                           *)
(* --------------------------------------------------------------------- *)

Lemma index_product_skip index p : indexed p = false -> index_product index p = index.
Proof.
  unfold indexed, index_product. destruct (id p) as [i|]; [|reflexivity].
  now intros ->.
Qed.

Lemma build_fold_skip index l :
  foldl index_product index (List.filter indexed l) = foldl index_product index l.
Proof.
  revert index. induction l as [|p l IH]; intros index; [reflexivity|].
  cbn [List.filter foldl]. destruct (indexed p) eqn:Hp.
  - cbn [foldl]. apply IH.
  - rewrite (index_product_skip index p Hp). apply IH.
Qed.

(** What one product adds to a list of the category or of the animal
    index. *)
Lemma classes_index_product index p c a :
  entry_of (categories (index_product index p)) c
  = entry_of (categories index) c
    ++ (if indexed p && String.eqb (default "other" (category_slug p)) c
        then match id p with Some i => [i] | None => [] end else [])
  /\ entry_of (animals (index_product index p)) a
     = entry_of (animals index) a
       ++ (if indexed p && String.eqb (default "dog" (animal p)) a
           then match id p with Some i => [i] | None => [] end else []).
Proof.
  unfold index_product, indexed. destruct (id p) as [i|].
  2:{ cbn [andb]. now rewrite !app_nil_r. }
  destruct (pid_truthy i); cbn [negb andb].
  2:{ now rewrite !app_nil_r. }
  cbn [categories animals]. rewrite !entry_of_add_posting. split; reflexivity.
Qed.

Lemma classes_fold index l c a :
  entry_of (categories (foldl index_product index l)) c
  = entry_of (categories index) c
    ++ flat_map (fun p =>
         if indexed p && String.eqb (default "other" (category_slug p)) c
         then match id p with Some i => [i] | None => [] end else []) l
  /\ entry_of (animals (foldl index_product index l)) a
     = entry_of (animals index) a
       ++ flat_map (fun p =>
            if indexed p && String.eqb (default "dog" (animal p)) a
            then match id p with Some i => [i] | None => [] end else []) l.
Proof.
  revert index. induction l as [|p l IH]; intros index.
  - cbn. now rewrite !app_nil_r.
  - cbn [foldl flat_map]. destruct (IH (index_product index p)) as [-> ->].
    destruct (classes_index_product index p c a) as [-> ->].
    now rewrite <- !app_assoc.
Qed.

(** X16.  Products without an identifier, and products whose identifier
    is 0 or the empty string, leave no trace in the index: the index of
    a catalogue is the index of its other products. *)
Theorem index_skips_unidentified :
  forall catalog : list product,
    build_search_index catalog = build_search_index (List.filter indexed catalog).
Proof.
  intros catalog. unfold build_search_index. now rewrite build_fold_skip.
Qed.

(** X17.  The category index lists, under a slug, the identifiers of the
    indexed products with that slug, in catalogue order, a product
    without a slug being listed under "other"; the animal index does the
    same with the animal, and lists a product without one under "dog". *)
Theorem index_classes :
  forall (catalog : list product) (c a : string),
    let index := build_search_index catalog in
    entry_of (categories index) c
    = flat_map (fun p =>
        if indexed p && String.eqb (default "other" (category_slug p)) c
        then match id p with Some i => [i] | None => [] end else []) catalog
    /\ entry_of (animals index) a
       = flat_map (fun p =>
           if indexed p && String.eqb (default "dog" (animal p)) a
           then match id p with Some i => [i] | None => [] end else []) catalog.
Proof.
  intros catalog c a index. subst index. unfold build_search_index.
  destruct (classes_fold empty_index catalog c a) as [-> ->]. split; reflexivity.
Qed.

(** The product table of the index holds an identifier exactly when an
    indexed product of the catalogue has it. *)
Lemma idx_products_fold index l i :
  is_Some (idx_products (foldl index_product index l) !! i)
  <-> is_Some (idx_products index !! i)
      \/ exists p, p ∈ l /\ id p = Some i /\ pid_truthy i = true.
Proof.
  revert index. induction l as [|p l IH]; intros index.
  - cbn. split; [auto|]. intros [H|(p & Hp & _)]; [exact H|inversion Hp].
  - cbn [foldl]. rewrite IH. clear IH.
    assert (Hstep : is_Some (idx_products (index_product index p) !! i)
                    <-> is_Some (idx_products index !! i)
                        \/ (id p = Some i /\ pid_truthy i = true)).
    { unfold index_product. destruct (id p) as [j|].
      2:{ split; [auto|]. intros [H|[H _]]; [exact H|discriminate]. }
      destruct (pid_truthy j) eqn:Hj; cbn [negb].
      2:{ split; [auto|]. intros [H|[[= ->] H]]; [exact H|congruence]. }
      cbn [idx_products]. destruct (decide (j = i)) as [->|Hne].
      - rewrite lookup_insert_eq. split; [intros _; right; auto|eauto].
      - rewrite lookup_insert_ne by exact Hne.
        split; [auto|]. intros [H|[[= ->] _]]; [exact H|congruence]. }
    rewrite Hstep. split.
    + intros [[H|[Hid Ht]]|(q & Hq & Hid & Ht)]; [now left|right..].
      * exists p. split; [constructor|]. now split.
      * exists q. split; [now constructor|]. now split.
    + intros [H|(q & Hq & Hid & Ht)]; [now left; left|].
      apply elem_of_cons in Hq as [->|Hq]; [left; right; now split|].
      right. exists q. split; [exact Hq|]. now split.
Qed.

Lemma in_class_list (f : product -> bool) l i :
  i ∈ flat_map (fun p => if indexed p && f p
                         then match id p with Some i => [i] | None => [] end
                         else []) l ->
  exists p, p ∈ l /\ id p = Some i /\ pid_truthy i = true.
Proof.
  intros H. apply list_elem_of_In, in_flat_map in H as (p & Hp & Hi).
  exists p. split; [now apply list_elem_of_In|].
  unfold indexed in Hi. destruct (id p) as [j|]; [|inversion Hi].
  destruct (pid_truthy j) eqn:Hj; [|inversion Hi].
  cbn [andb] in Hi. destruct (f p); [|inversion Hi].
  destruct Hi as [->|[]]. now split.
Qed.

Lemma in_contribution w p i :
  In i (contribution w p) -> id p = Some i /\ pid_truthy i = true.
Proof.
  unfold contribution. destruct (id p) as [j|]; [|intros []].
  destruct (pid_truthy j) eqn:Hj; [|intros []].
  intros H. apply in_app_or in H as [H|H]; apply in_map_iff in H as (x & <- & _);
    now split.
Qed.

(** X18.  The index is closed: every identifier in the postings of a
    term, in a category list or in an animal list has an entry in the
    product table of the index; and the table holds exactly the true
    identifiers of the catalogue. *)
Theorem index_closed :
  forall (catalog : list product) (i : pid),
    let index := build_search_index catalog in
    (is_Some (idx_products index !! i)
     <-> exists p, p ∈ catalog /\ id p = Some i /\ pid_truthy i = true)
    /\ (forall w, i ∈ postings index w -> is_Some (idx_products index !! i))
    /\ (forall c, i ∈ entry_of (categories index) c -> is_Some (idx_products index !! i))
    /\ (forall a, i ∈ entry_of (animals index) a -> is_Some (idx_products index !! i)).
Proof.
  intros catalog i index. subst index.
  assert (Htab : is_Some (idx_products (build_search_index catalog) !! i)
                 <-> exists p, p ∈ catalog /\ id p = Some i /\ pid_truthy i = true).
  { unfold build_search_index. rewrite idx_products_fold. cbn [idx_products empty_index].
    rewrite lookup_empty. split; [|auto].
    intros [H|H]; [now apply is_Some_None in H|exact H]. }
  split; [exact Htab|]. split; [|split].
  - intros w Hw. apply Htab. unfold build_search_index in Hw.
    rewrite postings_fold in Hw. unfold postings in Hw.
    cbn [terms empty_index] in Hw. rewrite lookup_empty in Hw. cbn in Hw.
    apply list_elem_of_In, in_flat_map in Hw as (p & Hp & Hi).
    exists p. split; [now apply list_elem_of_In|]. now apply (in_contribution w).
  - intros c Hc. apply Htab.
    destruct (classes_fold empty_index catalog c c) as [E _].
    fold (build_search_index catalog) in E. rewrite E in Hc. cbn in Hc.
    exact (in_class_list _ _ _ Hc).
  - intros a Ha. apply Htab.
    destruct (classes_fold empty_index catalog a a) as [_ E].
    fold (build_search_index catalog) in E. rewrite E in Ha. cbn in Ha.
    exact (in_class_list _ _ _ Ha).
Qed.

(** X19.  The index of two catalogues one after the other has, for every
    term, the postings of the first followed by those of the second. *)
Theorem index_concatenates :
  forall (l1 l2 : list product) (w : string),
    postings (build_search_index (l1 ++ l2)) w
    = postings (build_search_index l1) w ++ postings (build_search_index l2) w.
Proof.
  intros l1 l2 w. unfold build_search_index.
  rewrite foldl_app, (postings_fold (foldl index_product empty_index l1) l2 w).
  f_equal. now rewrite postings_fold.
Qed.


(* --------------------------------------------------------------------- *)
(** ** Suggestions                                                        *)
(* --------------------------------------------------------------------- *)

Lemma leb_nat_total (a b : nat) : Nat.leb b a = true \/ Nat.leb a b = true.
Proof. rewrite !Nat.leb_le. lia. Qed.

Lemma leb_nat_trans (a b c : nat) :
  Nat.leb b a = true -> Nat.leb c b = true -> Nat.leb c a = true.
Proof. rewrite !Nat.leb_le. lia. Qed.

(** The suggestions before they are cut to the limit. *)
Lemma get_suggestions_unfold index_terms query limit :
  get_suggestions index_terms query limit
  = slice_to limit
      (sort_by (fun a b => Nat.leb b a) count
         (map (fun kv : string * list pid => {| term := kv.1; count := length kv.2 |})
            (List.filter (fun kv => Text.prefix_of (normalize_text (Some query)) kv.1)
               index_terms))).
Proof. reflexivity. Qed.

Lemma NoDup_map_term (l : list (string * list pid)) :
  NoDup l.*1 ->
  NoDup (map term (map (fun kv : string * list pid =>
                          {| term := kv.1; count := length kv.2 |}) l)).
Proof.
  intros H. rewrite map_map. cbn [term]. exact H.
Qed.

Lemma suggestion_origin index_terms query limit s :
  s ∈ get_suggestions index_terms query limit ->
  Text.prefix_of (normalize_text (Some query)) (term s) = true
  /\ exists ids, (term s, ids) ∈ index_terms /\ count s = length ids.
Proof.
  rewrite get_suggestions_unfold. intros Hs.
  eapply elem_of_sublist in Hs; [|apply slice_to_sublist].
  rewrite (sort_by_perm _ count _) in Hs.
  apply list_elem_of_In, in_map_iff in Hs as ([t ids] & <- & Hkv).
  apply filter_In in Hkv as [Hkv Hp]. cbn [term count fst snd] in *.
  split; [exact Hp|]. exists ids. split; [now apply list_elem_of_In|reflexivity].
Qed.

(** X20.  On an index whose terms are distinct, every suggestion of
    [get_suggestions] is a term of the index that begins with the
    normalised query, with the length of its postings as count; the
    suggestions are in descending order of count, no term is suggested
    twice, and a limit that is not negative bounds their number.  A
    limit that does not cut the list leaves every term that begins with
    the normalised query in it. *)
Theorem suggestions_sound :
  forall (index_terms : list (string * list pid)) (query : string) (limit : Z),
    NoDup index_terms.*1 ->
    let out := get_suggestions index_terms query limit in
    Forall (fun s => Text.prefix_of (normalize_text (Some query)) (term s) = true
                     /\ exists ids, (term s, ids) ∈ index_terms /\ count s = length ids) out
    /\ StronglySorted (fun a b => (count b <= count a)%nat) out
    /\ NoDup (map term out)
    /\ ((0 <= limit)%Z -> (length out <= Z.to_nat limit)%nat)
    /\ ((Z.of_nat (length index_terms) <= limit)%Z ->
        forall t ids, (t, ids) ∈ index_terms ->
          Text.prefix_of (normalize_text (Some query)) t = true ->
          {| term := t; count := length ids |} ∈ out).
Proof.
  intros index_terms query limit Hnd out. subst out.
  rewrite get_suggestions_unfold.
  set (q := normalize_text (Some query)).
  set (hits := List.filter (fun kv : string * list pid => Text.prefix_of q kv.1) index_terms).
  set (sug := map (fun kv : string * list pid => {| term := kv.1; count := length kv.2 |}) hits).
  set (sorted := sort_by (fun a b => Nat.leb b a) count sug).
  assert (Hperm : sorted ≡ₚ sug) by apply sort_by_perm.
  assert (Hsub : slice_to limit sorted `sublist_of` sorted) by apply slice_to_sublist.
  split; [|split; [|split; [|split]]].
  - apply Forall_forall. intros s Hs.
    apply (suggestion_origin index_terms query limit s). exact Hs.
  - eapply StronglySorted_sublist; [exact Hsub|].
    eapply StronglySorted_weaken;
      [|apply (sort_by_sorted (fun a b => Nat.leb b a) count);
        [intros a b; apply leb_nat_total|intros a b c; apply leb_nat_trans]].
    intros a b _ _ H. now apply Nat.leb_le.
  - eapply sublist_NoDup; [|apply fmap_sublist; exact Hsub].
    change (NoDup (term <$> sorted)). rewrite Hperm.
    apply NoDup_map_term. subst hits.
    eapply sublist_NoDup; [exact Hnd|]. apply fmap_sublist, filter_sublist.
  - intros Hl. rewrite slice_to_length.
    destruct (0 <=? limit)%Z eqn:E; lia.
  - intros Hl t ids Hin Hp.
    rewrite slice_to_all.
    + rewrite Hperm. apply list_elem_of_In, in_map_iff. exists (t, ids).
      split; [reflexivity|]. apply filter_In. split; [now apply list_elem_of_In|exact Hp].
    + rewrite (Permutation_length Hperm). subst sug. rewrite length_map.
      pose proof (sublist_length _ _ (filter_sublist
        (fun kv : string * list pid => Text.prefix_of q kv.1) index_terms)).
      fold hits in H. lia.
Qed.

(* --------------------------------------------------------------------- *)
(** ** The terms of the index in their order                              *)
(* --------------------------------------------------------------------- *)

(* --------------------------------------------------------------------- *)
(** ** The terms of the index in their order                              *)
(* --------------------------------------------------------------------- *)

Lemma item_of_app d1 d2 w :
  item_of (d1 ++ d2) w = if bool_decide (w ∈ d1.*1) then item_of d1 w else item_of d2 w.
Proof.
  induction d1 as [|[k v] d1 IH]; [reflexivity|].
  cbn [app item_of fmap list_fmap fst]. destruct (String.eqb_spec k w) as [->|Hne].
  - rewrite bool_decide_eq_true_2 by constructor. reflexivity.
  - rewrite IH. destruct (decide (w ∈ d1.*1)) as [Hin|Hout].
    + rewrite !bool_decide_eq_true_2; [reflexivity| |exact Hin]. now constructor.
    + rewrite !bool_decide_eq_false_2; [reflexivity| |exact Hout].
      intros [E|H]%elem_of_cons; [congruence|contradiction].
Qed.

Lemma item_of_absent d w : w ∉ d.*1 -> item_of d w = [].
Proof.
  induction d as [|[k v] d IH]; [reflexivity|].
  cbn [item_of fmap list_fmap fst]. intros [Hne Hout]%not_elem_of_cons.
  destruct (String.eqb_spec k w) as [->|_]; [congruence|]. now apply IH.
Qed.

Lemma item_of_update d k i w :
  k ∈ d.*1 ->
  item_of ((fun kv : string * list pid =>
              if String.eqb kv.1 k then (kv.1, kv.2 ++ [i]) else kv) <$> d) w
  = item_of d w ++ (if String.eqb k w then [i] else []).
Proof.
  induction d as [|[k' v] d IH]; [intros H; inversion H|].
  cbn [fmap list_fmap fst snd item_of]. intros Hk.
  destruct (String.eqb_spec k' k) as [->|Hne]; cbn [item_of].
  - destruct (String.eqb_spec k w) as [->|Hkw]; [reflexivity|].
    destruct (decide (k ∈ d.*1)) as [Hin|Hout].
    + rewrite (IH Hin). destruct (String.eqb_spec k w); [congruence|reflexivity].
    + rewrite app_nil_r. clear IH Hk. induction d as [|[k2 v2] d IH2]; [reflexivity|].
      cbn [fmap list_fmap fst snd item_of] in *.
      apply not_elem_of_cons in Hout as [Hne2 Hout].
      destruct (String.eqb_spec k2 k) as [->|_]; [congruence|].
      cbn [item_of]. destruct (String.eqb k2 w); [reflexivity|]. now apply IH2.
  - apply elem_of_cons in Hk as [E|Hk]; [congruence|].
    destruct (String.eqb_spec k' w) as [->|Hkw].
    + destruct (String.eqb_spec k w) as [E|_]; [congruence|]. now rewrite app_nil_r.
    + now apply IH.
Qed.

Lemma item_of_add_posting k i d w :
  item_of (add_posting_ordered k i d) w
  = item_of d w ++ (if String.eqb k w then [i] else []).
Proof.
  unfold add_posting_ordered. destruct (decide (k ∈ d.*1)) as [Hin|Hout].
  - rewrite bool_decide_eq_true_2 by exact Hin. now apply item_of_update.
  - rewrite bool_decide_eq_false_2 by exact Hout. rewrite item_of_app.
    destruct (String.eqb_spec k w) as [->|Hne].
    + rewrite bool_decide_eq_false_2 by exact Hout.
      rewrite (item_of_absent d w Hout). cbn [item_of].
      now rewrite String.eqb_refl.
    + destruct (bool_decide (w ∈ d.*1)) eqn:Hw; [now rewrite app_nil_r|].
      apply bool_decide_eq_false in Hw. rewrite (item_of_absent d w Hw).
      cbn [item_of]. destruct (String.eqb_spec k w); [congruence|reflexivity].
Qed.

Lemma add_posting_well_formed k i d :
  well_formed d -> well_formed (add_posting_ordered k i d).
Proof.
  intros [Hnd Hne]. unfold add_posting_ordered.
  destruct (decide (k ∈ d.*1)) as [Hin|Hout].
  - rewrite bool_decide_eq_true_2 by exact Hin. split.
    + rewrite <- list_fmap_compose.
      erewrite list_fmap_ext; [exact Hnd|]. intros _ [k' v] _. cbn.
      now destruct (String.eqb k' k).
    + apply Forall_fmap. eapply Forall_impl; [exact Hne|].
      intros [k' v] Hv. cbn in *. destruct (String.eqb k' k); cbn; [|exact Hv].
      intros E. now apply app_eq_nil in E as [_ E].
  - rewrite bool_decide_eq_false_2 by exact Hout. split.
    + rewrite fmap_app. cbn. apply NoDup_app. split; [exact Hnd|]. split.
      * intros x Hx [->|H]%elem_of_cons; [contradiction|inversion H].
      * apply NoDup_singleton.
    + apply Forall_app. split; [exact Hne|]. repeat constructor. discriminate.
Qed.

Lemma terms_step ordered_d p w :
  well_formed ordered_d ->
  well_formed (index_terms_ordered ordered_d p)
  /\ item_of (index_terms_ordered ordered_d p) w
     = item_of ordered_d w ++ contribution w p.
Proof.
  intros Hwf. unfold index_terms_ordered, contribution.
  destruct (id p) as [i|]; [|split; [exact Hwf|now rewrite app_nil_r]].
  destruct (pid_truthy i); cbn [negb]; [|split; [exact Hwf|now rewrite app_nil_r]].
  set (words := Text.split (normalize_text (Some (str_or_empty (title p))))).
  assert (H1 : forall ws d, well_formed d ->
            well_formed (foldl (index_title_word_ordered i) d ws)
            /\ item_of (foldl (index_title_word_ordered i) d ws) w
               = item_of d w
                 ++ map (fun _ => i)
                      (List.filter (fun word => (2 <? Text.len word)%nat
                                                && String.eqb word w) ws)).
  { induction ws as [|x ws IH]; intros d Hd.
    - cbn. split; [exact Hd|now rewrite app_nil_r].
    - cbn [foldl List.filter].
      assert (Hd' : well_formed (index_title_word_ordered i d x)).
      { unfold index_title_word_ordered. destruct (2 <? Text.len x)%nat;
          [now apply add_posting_well_formed|exact Hd]. }
      destruct (IH _ Hd') as [Hw ->]. split; [exact Hw|].
      unfold index_title_word_ordered.
      destruct (2 <? Text.len x)%nat; cbn [andb]; [|reflexivity].
      rewrite item_of_add_posting.
      destruct (String.eqb x w); cbn [map]; rewrite <- app_assoc; reflexivity. }
  assert (H2 : forall ts d, well_formed d ->
            well_formed (foldl (index_tag_ordered i) d ts)
            /\ item_of (foldl (index_tag_ordered i) d ts) w
               = item_of d w
                 ++ map (fun _ => i)
                      (List.filter
                         (fun tag => negb (Text.is_empty (normalize_text (Some tag)))
                                     && String.eqb (normalize_text (Some tag)) w) ts)).
  { induction ts as [|x ts IH]; intros d Hd.
    - cbn. split; [exact Hd|now rewrite app_nil_r].
    - cbn [foldl List.filter].
      assert (Hd' : well_formed (index_tag_ordered i d x)).
      { unfold index_tag_ordered.
        destruct (negb (Text.is_empty (normalize_text (Some x))));
          [now apply add_posting_well_formed|exact Hd]. }
      destruct (IH _ Hd') as [Hw ->]. split; [exact Hw|].
      unfold index_tag_ordered.
      destruct (negb (Text.is_empty (normalize_text (Some x)))); cbn [andb];
        [|reflexivity].
      rewrite item_of_add_posting.
      destruct (String.eqb (normalize_text (Some x)) w); cbn [map];
        rewrite <- app_assoc; reflexivity. }
  destruct (H1 words ordered_d Hwf) as [Hw1 E1].
  destruct (H2 (tags p) _ Hw1) as [Hw2 E2].
  split; [exact Hw2|]. rewrite E2, E1. unfold title_hits, tag_hits.
  now rewrite <- app_assoc.
Qed.

Lemma terms_fold d l w :
  well_formed d ->
  well_formed (foldl index_terms_ordered d l)
  /\ item_of (foldl index_terms_ordered d l) w
     = item_of d w ++ flat_map (contribution w) l.
Proof.
  revert d. induction l as [|p l IH]; intros d Hd.
  - cbn. split; [exact Hd|now rewrite app_nil_r].
  - cbn [foldl flat_map]. destruct (terms_step d p w Hd) as [Hd' E].
    destruct (IH _ Hd') as [Hw ->]. split; [exact Hw|].
    now rewrite E, <- app_assoc.
Qed.

Lemma item_of_member d t ids :
  NoDup d.*1 -> (t, ids) ∈ d -> item_of d t = ids.
Proof.
  induction d as [|[k v] d IH]; [intros _ H; inversion H|].
  cbn [fmap list_fmap fst item_of]. intros [Hk Hnd]%NoDup_cons Hin.
  apply elem_of_cons in Hin as [[= -> ->]|Hin].
  - now rewrite String.eqb_refl.
  - destruct (String.eqb_spec k t) as [->|_]; [|now apply IH].
    exfalso. apply Hk. apply list_elem_of_fmap. now exists (t, ids).
Qed.

(** X21.  The terms of the index in the order [get_suggestions] walks
    them are distinct, and each carries the postings that
    [build_search_index] records for it.  So every suggestion drawn
    from an index that was built from a catalogue begins with the
    normalised query and counts the postings of its term, of which there
    is at least one. *)
Theorem suggestions_of_catalog :
  forall (catalog : list product) (query : string) (limit : Z),
    NoDup (terms_in_order catalog).*1
    /\ (forall w, item_of (terms_in_order catalog) w
                  = postings (build_search_index catalog) w)
    /\ Forall (fun s =>
                 Text.prefix_of (normalize_text (Some query)) (term s) = true
                 /\ count s = length (postings (build_search_index catalog) (term s))
                 /\ (1 <= count s)%nat)
         (get_suggestions (terms_in_order catalog) query limit).
Proof.
  intros catalog query limit.
  assert (Hwf0 : well_formed []) by (split; constructor).
  assert (Hwf : well_formed (terms_in_order catalog))
    by (destruct (terms_fold [] catalog EmptyString Hwf0) as [H _]; exact H).
  assert (Hpost : forall w, item_of (terms_in_order catalog) w
                            = postings (build_search_index catalog) w).
  { intros w. destruct (terms_fold [] catalog w Hwf0) as [_ E].
    unfold terms_in_order. rewrite E. unfold build_search_index.
    rewrite postings_fold. reflexivity. }
  destruct Hwf as [Hnd Hne].
  split; [exact Hnd|]. split; [exact Hpost|].
  apply Forall_forall. intros s Hs.
  destruct (suggestion_origin _ _ _ _ Hs) as (Hp & ids & Hin & Hc).
  split; [exact Hp|].
  rewrite <- Hpost, (item_of_member _ _ _ Hnd Hin). split; [exact Hc|].
  rewrite Forall_forall in Hne. specialize (Hne _ Hin). cbn in Hne.
  rewrite Hc. destruct ids; [congruence|cbn; lia].
Qed.


(* --------------------------------------------------------------------- *)
(** ** More on the similarity score                                       *)
(* --------------------------------------------------------------------- *)

Lemma part_of_whole (m n : nat) :
  (0 < n)%nat -> (m <= n)%nat -> 0 <= of_nat m / of_nat n /\ of_nat m / of_nat n <= 1.
Proof.
  intros Hn Hmn.
  assert (H0 : 0 < of_nat n) by now apply of_nat_pos.
  pose proof (of_nat_le m n Hmn). pose proof (of_nat_le 0 m ltac:(lia)) as Hm.
  change (of_nat 0) with 0 in Hm.
  split.
  - apply Qle_shift_div_l; [exact H0|]. lra.
  - apply Qle_shift_div_r; [exact H0|]. lra.
Qed.

Lemma jaccard_range (t1 t2 : gset string) :
  t1 <> ∅ ->
  0 <= of_nat (size (t1 ∩ t2)) / of_nat (size (t1 ∪ t2))
  /\ of_nat (size (t1 ∩ t2)) / of_nat (size (t1 ∪ t2)) <= 1.
Proof.
  intros H. apply part_of_whole; [now apply size_union_nonempty|].
  apply subseteq_size. etrans; [apply intersection_subseteq_l|apply union_subseteq_l].
Qed.

Lemma proximity_range (a b : Q) :
  0 < a -> 0 <= Qmax 0 (20 - Qabs (a - b) / Qmax a b * 40)
           /\ Qmax 0 (20 - Qabs (a - b) / Qmax a b * 40) <= 20.
Proof.
  intros Ha.
  assert (Hm : 0 < Qmax a b) by (pose proof (Q.le_max_l a b); lra).
  assert (Hd : 0 <= Qabs (a - b) / Qmax a b).
  { apply Qle_shift_div_l; [exact Hm|]. pose proof (Qabs_nonneg (a - b)). lra. }
  destruct (Q.max_spec 0 (20 - Qabs (a - b) / Qmax a b * 40)) as [[H E]|[H E]];
    rewrite E; lra.
Qed.

Lemma similarity_value_range p1 p2 :
  0 <= similarity_value p1 p2 /\ similarity_value p1 p2 <= 100.
Proof.
  unfold similarity_value.
  set (c := if bool_decide (category p1 = category p2) then 0 + 30 else 0).
  assert (Hc : 0 <= c /\ c <= 30) by (subst c; destruct (bool_decide _); lra).
  set (t := if bool_decide (tag_set p1 <> ∅) && bool_decide (tag_set p2 <> ∅)
            then _ else c).
  assert (Ht : 0 <= t /\ t <= 70).
  { subst t. destruct (bool_decide (tag_set p1 <> ∅)) eqn:H1; cbn [andb]; [|lra].
    destruct (bool_decide (tag_set p2 <> ∅)); [|lra].
    apply bool_decide_eq_true in H1.
    destruct (jaccard_range (tag_set p1) (tag_set p2) H1). lra. }
  set (s := if Qltb 0 (default 0 (price p1)) && Qltb 0 (default 0 (price p2))
            then _ else t).
  assert (Hs : 0 <= s /\ s <= 90).
  { subst s. destruct (Qltb 0 (default 0 (price p1))) eqn:H1; cbn [andb]; [|lra].
    destruct (Qltb 0 (default 0 (price p2))); [|lra].
    apply Qltb_lt in H1.
    destruct (proximity_range (default 0 (price p1)) (default 0 (price p2)) H1). lra. }
  destruct (Qle_bool (45 # 10) _); [lra|]. destruct (Qle_bool 4 _); lra.
Qed.

(** X22.  [calculate_similarity_score] never fails and its value lies
    between 0 and 100; the score of a candidate in
    [get_upsells_for_product], which adds the bonus of the upsell band,
    lies between 0 and 115. *)
Theorem similarity_score_range :
  forall p1 p2 : product,
    exists v w,
      calculate_similarity_score p1 p2 = Ok v /\ 0 <= v /\ v <= 100
      /\ upsell_score p1 p2 = Ok w /\ 0 <= w /\ w <= 115.
Proof.
  intros p1 p2. exists (similarity_value p1 p2), (upsell_value p1 p2).
  destruct (similarity_value_range p1 p2) as [H0 H1].
  split; [apply calculate_similarity_score_value|]. split; [exact H0|].
  split; [exact H1|]. split; [apply upsell_score_value|].
  unfold upsell_value. destruct (_ && _); lra.
Qed.

Lemma price_gap_sym a b : price_gap a b == price_gap b a.
Proof.
  unfold price_gap. rewrite (Qabs_Qminus a b), (Q.max_comm a b). reflexivity.
Qed.

Lemma Qmax_zero_compat x y : x == y -> Qmax 0 x == Qmax 0 y.
Proof.
  intros E. destruct (Q.max_spec 0 x) as [[H1 E1]|[H1 E1]];
    destruct (Q.max_spec 0 y) as [[H2 E2]|[H2 E2]]; rewrite E1, E2; lra.
Qed.

(** X23.  Apart from the rating bonus, which looks at the second product
    only, similarity is symmetric: the two scores of a pair of products
    differ by the difference of their rating bonuses. *)
Theorem similarity_symmetric :
  forall p1 p2 : product,
    exists v12 v21,
      calculate_similarity_score p1 p2 = Ok v12
      /\ calculate_similarity_score p2 p1 = Ok v21
      /\ v12 - rating_bonus p2 == v21 - rating_bonus p1.
Proof.
  intros p1 p2. exists (similarity_value p1 p2), (similarity_value p2 p1).
  split; [apply calculate_similarity_score_value|].
  split; [apply calculate_similarity_score_value|].
  unfold similarity_value, rating_bonus.
  assert (Ec : bool_decide (category p2 = category p1)
               = bool_decide (category p1 = category p2)).
  { apply bool_decide_ext. split; congruence. }
  rewrite Ec.
  rewrite (comm_L (∩) (tag_set p2) (tag_set p1)), (comm_L (∪) (tag_set p2) (tag_set p1)).
  rewrite (andb_comm (bool_decide (tag_set p2 <> ∅))).
  rewrite (andb_comm (Qltb 0 (default 0 (price p2)))).
  set (base := if bool_decide (tag_set p1 <> ∅) && bool_decide (tag_set p2 <> ∅)
               then _ else _).
  change (Qabs (default 0 (price p1) - default 0 (price p2))
          / Qmax (default 0 (price p1)) (default 0 (price p2)))
    with (price_gap (default 0 (price p1)) (default 0 (price p2))).
  change (Qabs (default 0 (price p2) - default 0 (price p1))
          / Qmax (default 0 (price p2)) (default 0 (price p1)))
    with (price_gap (default 0 (price p2)) (default 0 (price p1))).
  assert (Eg : Qmax 0 (20 - price_gap (default 0 (price p1)) (default 0 (price p2)) * 40)
               == Qmax 0 (20 - price_gap (default 0 (price p2)) (default 0 (price p1)) * 40)).
  { apply Qmax_zero_compat. rewrite (price_gap_sym (default 0 (price p1))). reflexivity. }
  destruct (Qltb 0 (default 0 (price p1)) && Qltb 0 (default 0 (price p2)));
    destruct (Qle_bool (45 # 10) (default 0 (rating p2)));
    destruct (Qle_bool 4 (default 0 (rating p2)));
    destruct (Qle_bool (45 # 10) (default 0 (rating p1)));
    destruct (Qle_bool 4 (default 0 (rating p1))); lra.
Qed.


(* --------------------------------------------------------------------- *)
(** ** The other recommendation contexts                                  *)
(* --------------------------------------------------------------------- *)

Lemma cart_score_value cats tgs p : cart_score cats tgs p = Ok (cart_value cats tgs p).
Proof.
  unfold cart_score, cart_value.
  destruct (bool_decide (tag_set p ∩ tgs <> ∅)) eqn:Hi; [|reflexivity].
  destruct (bool_decide (tag_set p <> ∅)) eqn:Hp; [|reflexivity].
  rewrite (py_div_ok (of_nat _) (of_nat _)); [reflexivity|].
  apply of_nat_nonzero, size_union_nonempty. now apply bool_decide_eq_true in Hp.
Qed.

Lemma rank_length {A : Type} (scored : list (A * Q)) limit :
  (0 <= limit)%Z -> (length (rank scored limit) <= Z.to_nat limit)%nat.
Proof.
  intros Hl. unfold rank. rewrite length_fmap, slice_to_length.
  destruct (0 <=? limit)%Z eqn:E; lia.
Qed.

Lemma rank_sublist_perm {A : Type} (scored : list (A * Q)) limit :
  exists l, l ≡ₚ scored.*1 /\ rank scored limit `sublist_of` l.
Proof.
  exists (py_sorted Qle_bool snd true scored).*1. split.
  - unfold py_sorted. now rewrite (sort_by_perm _ snd scored).
  - unfold rank. apply fmap_sublist, slice_to_sublist.
Qed.

Lemma rank_elem {A : Type} (scored : list (A * Q)) limit x :
  x ∈ rank scored limit -> x ∈ scored.*1.
Proof.
  intros Hx. destruct (rank_sublist_perm scored limit) as (l & Hp & Hs).
  rewrite <- Hp. eapply elem_of_sublist; eassumption.
Qed.

Lemma rank_NoDup {A : Type} (scored : list (A * Q)) limit :
  NoDup scored.*1 -> NoDup (rank scored limit).
Proof.
  intros Hnd. destruct (rank_sublist_perm scored limit) as (l & Hp & Hs).
  eapply sublist_NoDup; [|exact Hs]. now rewrite Hp.
Qed.

Lemma rank_all {A : Type} (scored : list (A * Q)) limit :
  (Z.of_nat (length scored) <= limit)%Z -> rank scored limit ≡ₚ scored.*1.
Proof.
  intros Hl. unfold rank, py_sorted. rewrite slice_to_all.
  - now rewrite (sort_by_perm _ snd scored).
  - now rewrite sort_by_length.
Qed.

Lemma fst_pairs {A : Type} (v : A -> Q) (l : list A) : (map (fun p => (p, v p)) l).*1 = l.
Proof. induction l as [|p l IH]; [reflexivity|]. cbn. now rewrite IH. Qed.

Lemma fst_fmap_pairs {A : Type} (v : A -> Q) (l : list A) :
  ((fun p => (p, v p)) <$> l).*1 = l.
Proof. apply fst_pairs. Qed.

Lemma get_cart_upsells_value catalog cart_items limit :
  get_cart_upsells catalog cart_items limit
  = Ok (rank (map (fun p => (p, cart_value (cart_categories cart_items)
                                  (cart_tags cart_items) p))
                (List.filter
                   (fun p => negb (bool_decide (id p ∈ cart_ids cart_items))
                             && is_published p && negb (out_of_stock p)) catalog))
          limit).
Proof.
  unfold get_cart_upsells.
  rewrite (mapM_scored (cart_score (cart_categories cart_items) (cart_tags cart_items))
             (cart_value (cart_categories cart_items) (cart_tags cart_items)))
    by apply cart_score_value.
  reflexivity.
Qed.

Lemma in_stock p : out_of_stock p = false -> exists n, stock p = Some n /\ (0 < n)%Z.
Proof.
  unfold out_of_stock. destruct (stock p) as [n|]; cbn; intros H.
  - exists n. split; [reflexivity|]. apply Z.leb_gt in H. exact H.
  - discriminate.
Qed.

(** X24.  [get_cart_upsells] never fails.  It offers products of the
    catalogue only, none whose identifier is the identifier of a cart
    item, none that is unpublished, and none without a stock above zero
    (a product without the key ["stock"] counts as out of stock); it
    offers no product twice and at most [limit] products; and when the
    limit does not cut the list it offers every such product. *)
Theorem cart_upsells_offer :
  forall (catalog : list product) (cart_items : list cart_item) (limit : Z),
    exists r,
      get_cart_upsells catalog cart_items limit = Ok r
      /\ Forall (fun p => p ∈ catalog
                          /\ (id p ∉ map item_id cart_items)
                          /\ is_published p = true
                          /\ exists n, stock p = Some n /\ (0 < n)%Z) r
      /\ ((0 <= limit)%Z -> (length r <= Z.to_nat limit)%nat)
      /\ (NoDup catalog -> NoDup r)
      /\ ((Z.of_nat (length catalog) <= limit)%Z ->
          forall p, p ∈ catalog -> id p ∉ map item_id cart_items ->
                    is_published p = true -> out_of_stock p = false -> p ∈ r).
Proof.
  intros catalog cart_items limit. rewrite get_cart_upsells_value.
  set (keep := fun p => negb (bool_decide (id p ∈ cart_ids cart_items))
                        && is_published p && negb (out_of_stock p)).
  set (v := cart_value (cart_categories cart_items) (cart_tags cart_items)).
  assert (Hids : forall p, id p ∈ cart_ids cart_items <-> id p ∈ map item_id cart_items).
  { intros p. unfold cart_ids. rewrite elem_of_list_to_set. reflexivity. }
  eexists. split; [reflexivity|]. split; [|split; [|split]].
  - apply Forall_forall. intros p Hp%rank_elem. rewrite fst_pairs in Hp.
    apply filter_elem_of in Hp as [Hin Hk]. subst keep. cbn beta in Hk.
    apply andb_prop in Hk as [Hk Hstock]. apply andb_prop in Hk as [Hid Hpub].
    split; [exact Hin|]. split.
    + apply negb_true_iff, bool_decide_eq_false in Hid. now rewrite <- Hids.
    + split; [exact Hpub|]. apply in_stock. now apply negb_true_iff in Hstock.
  - apply rank_length.
  - intros Hnd. apply rank_NoDup. rewrite fst_pairs.
    eapply sublist_NoDup; [exact Hnd|apply filter_sublist].
  - intros Hl p Hin Hid Hpub Hstock. rewrite rank_all.
    + rewrite fst_pairs. apply filter_elem_of. split; [exact Hin|].
      subst keep. cbn beta. rewrite Hpub, Hstock. cbn.
      rewrite bool_decide_eq_false_2; [reflexivity|]. now rewrite Hids.
    + rewrite length_map.
      pose proof (sublist_length _ _ (filter_sublist keep catalog)). lia.
Qed.

Lemma get_checkout_upsells_eq catalog cart_items limit :
  get_checkout_upsells catalog cart_items limit
  = Ok (rank (map (fun p => (p, checkout_score p))
                (List.filter (fun p => negb (bool_decide (id p ∈ cart_ids cart_items))
                                       && is_published p) catalog)) limit).
Proof. reflexivity. Qed.

Lemma get_post_purchase_upsells_eq catalog order_items limit :
  get_post_purchase_upsells catalog order_items limit
  = Ok (rank (map (fun p => (p, post_purchase_score (cart_categories order_items) p))
                (List.filter (fun p => negb (bool_decide (id p ∈ cart_ids order_items))
                                       && is_published p) catalog)) limit).
Proof. reflexivity. Qed.

(** The offers of a function that ranks the products which pass
    [keep]. *)
Lemma ranked_offers (keep : product -> bool) (v : product -> Q) catalog limit :
  let r := rank (map (fun p => (p, v p)) (List.filter keep catalog)) limit in
  Forall (fun p => p ∈ catalog /\ keep p = true) r
  /\ ((0 <= limit)%Z -> (length r <= Z.to_nat limit)%nat)
  /\ (NoDup catalog -> NoDup r)
  /\ ((Z.of_nat (length catalog) <= limit)%Z -> r ≡ₚ List.filter keep catalog).
Proof.
  intros r. subst r. split; [|split; [|split]].
  - apply Forall_forall. intros p Hp%rank_elem. rewrite fst_pairs in Hp.
    now apply filter_elem_of in Hp.
  - apply rank_length.
  - intros Hnd. apply rank_NoDup. rewrite fst_pairs.
    eapply sublist_NoDup; [exact Hnd|apply filter_sublist].
  - intros Hl. rewrite rank_all; [now rewrite fst_pairs|].
    rewrite length_map. pose proof (sublist_length _ _ (filter_sublist keep catalog)). lia.
Qed.

(** X25.  [get_checkout_upsells] and [get_post_purchase_upsells] leave
    out the products of the cart or order and the unpublished products,
    and nothing else: they do not look at the stock.  When the limit
    does not cut the list, each offers exactly the published products
    whose identifier is not among the items. *)
Theorem checkout_offers :
  forall (catalog : list product) (items : list cart_item) (limit : Z),
    (Z.of_nat (length catalog) <= limit)%Z ->
    let keep := fun p => negb (bool_decide (id p ∈ map item_id items)) && is_published p in
    exists r1 r2,
      get_checkout_upsells catalog items limit = Ok r1
      /\ get_post_purchase_upsells catalog items limit = Ok r2
      /\ r1 ≡ₚ List.filter keep catalog
      /\ r2 ≡ₚ List.filter keep catalog.
Proof.
  intros catalog items limit Hl keep.
  rewrite get_checkout_upsells_eq, get_post_purchase_upsells_eq.
  assert (E : List.filter (fun p => negb (bool_decide (id p ∈ cart_ids items))
                                    && is_published p) catalog
              = List.filter keep catalog).
  { apply filter_ext. intros p. subst keep. cbn beta. f_equal. f_equal.
    apply bool_decide_ext. unfold cart_ids. now rewrite elem_of_list_to_set. }
  rewrite E. eexists. eexists. split; [reflexivity|]. split; [reflexivity|].
  split.
  - exact (proj2 (proj2 (proj2 (ranked_offers keep checkout_score catalog limit))) Hl).
  - exact (proj2 (proj2 (proj2 (ranked_offers keep
             (post_purchase_score (cart_categories items)) catalog limit))) Hl).
Qed.

Lemma recommend_for_context_offers catalog context limit :
  exists r,
    recommend_for_context catalog context limit = Ok r
    /\ Forall (fun p => p ∈ catalog /\ is_published p = true) r
    /\ ((0 <= limit)%Z -> (length r <= Z.to_nat limit)%nat)
    /\ (NoDup catalog -> NoDup r).
Proof.
  unfold recommend_for_context.
  destruct (String.eqb context "cart").
  { rewrite get_cart_upsells_value. eexists. split; [reflexivity|].
    destruct (ranked_offers
                (fun p => negb (bool_decide (id p ∈ cart_ids []))
                          && is_published p && negb (out_of_stock p))
                (cart_value (cart_categories []) (cart_tags [])) catalog limit)
      as (H1 & H2 & H3 & _).
    split; [|split; assumption].
    eapply Forall_impl; [exact H1|]. intros p [Hin Hk]. split; [exact Hin|].
    apply andb_prop in Hk as [Hk _]. now apply andb_prop in Hk as [_ Hk]. }
  destruct (String.eqb context "checkout").
  { rewrite get_checkout_upsells_eq. eexists. split; [reflexivity|].
    destruct (ranked_offers
                (fun p => negb (bool_decide (id p ∈ cart_ids [])) && is_published p)
                checkout_score catalog limit) as (H1 & H2 & H3 & _).
    split; [|split; assumption].
    eapply Forall_impl; [exact H1|]. intros p [Hin Hk]. split; [exact Hin|].
    now apply andb_prop in Hk as [_ Hk]. }
  destruct (String.eqb context "post_purchase").
  { rewrite get_post_purchase_upsells_eq. eexists. split; [reflexivity|].
    destruct (ranked_offers
                (fun p => negb (bool_decide (id p ∈ cart_ids [])) && is_published p)
                (post_purchase_score (cart_categories [])) catalog limit)
      as (H1 & H2 & H3 & _).
    split; [|split; assumption].
    eapply Forall_impl; [exact H1|]. intros p [Hin Hk]. split; [exact Hin|].
    now apply andb_prop in Hk as [_ Hk]. }
  rewrite get_popular_products_value. eexists. split; [reflexivity|].
  destruct (ranked_offers is_published popularity_value catalog limit)
    as (H1 & H2 & H3 & _).
  split; [exact H1|]. split; assumption.
Qed.

Lemma get_upsells_offers catalog product_id limit :
  exists r,
    get_upsells_for_product catalog product_id limit = Ok r
    /\ Forall (fun p => p ∈ catalog /\ is_published p = true) r
    /\ ((0 <= limit)%Z -> (length r <= Z.to_nat limit)%nat)
    /\ (NoDup catalog -> NoDup r).
Proof.
  destruct (find_product catalog product_id) as [sp|] eqn:Hf.
  - rewrite (get_upsells_found _ _ _ _ Hf). eexists. split; [reflexivity|].
    destruct (ranked_offers (is_candidate product_id) (upsell_value sp) catalog limit)
      as (H1 & H2 & H3 & _).
    split; [|split; assumption].
    eapply Forall_impl; [exact H1|]. intros p [Hin Hk]. split; [exact Hin|].
    unfold is_candidate in Hk. apply andb_prop in Hk as [Hk _].
    now apply andb_prop in Hk as [_ Hk].
  - rewrite (get_upsells_not_found _ _ _ Hf), get_popular_products_value.
    eexists. split; [reflexivity|].
    destruct (ranked_offers is_published popularity_value catalog limit)
      as (H1 & H2 & H3 & _).
    split; [exact H1|]. split; assumption.
Qed.

(** X26.  Whatever the context, the identifiers and the limit are,
    [get_ai_recommendations] never fails; it recommends published
    products of the catalogue only, none of them twice, and at most
    [limit] of them when [limit] is not negative. *)
Theorem recommendations_safe :
  forall (catalog : list product) (product_id : option pid) (user_id : option string)
         (context : string) (limit : Z),
    exists r,
      get_ai_recommendations catalog product_id user_id context limit = Ok r
      /\ Forall (fun p => p ∈ catalog /\ is_published p = true) r
      /\ ((0 <= limit)%Z -> (length r <= Z.to_nat limit)%nat)
      /\ (NoDup catalog -> NoDup r).
Proof.
  intros catalog product_id user_id context limit. unfold get_ai_recommendations.
  destruct product_id as [i|]; [|apply recommend_for_context_offers].
  destruct (String.eqb context "product" && pid_truthy i);
    [apply get_upsells_offers|apply recommend_for_context_offers].
Qed.

(** X27.  In the context ["product"] a missing identifier, the
    identifier 0 and the empty identifier lead to the popularity
    ranking, and so does every context that is none of ["product"],
    ["cart"], ["checkout"] and ["post_purchase"], whatever the
    identifier is. *)
Theorem recommendations_default :
  forall (catalog : list product) (product_id : option pid) (user_id : option string)
         (context : string) (limit : Z),
    (context = "product" /\ match product_id with
                            | Some i => pid_truthy i = false
                            | None => True
                            end)
    \/ context ∉ ["product"; "cart"; "checkout"; "post_purchase"] ->
    get_ai_recommendations catalog product_id user_id context limit
    = get_popular_products catalog limit.
Proof.
  intros catalog product_id user_id context limit H.
  unfold get_ai_recommendations, recommend_for_context.
  destruct H as [[-> Hid]|Hctx].
  - destruct product_id as [i|]; [rewrite Hid|]; reflexivity.
  - assert (E : forall s, s ∈ ["product"; "cart"; "checkout"; "post_purchase"] ->
                          String.eqb context s = false).
    { intros s Hs. apply String.eqb_neq. intros ->. contradiction. }
    rewrite !E by (repeat constructor).
    destruct product_id; reflexivity.
Qed.


(* --------------------------------------------------------------------- *)
(** ** What the product recommendations leave out                         *)
(* --------------------------------------------------------------------- *)

(** X28.  [get_upsells_for_product] always returns, and what it returns
    holds no product with the seed identifier and no unpublished
    product.  When the seed is in the catalogue it holds no product
    whose stock is missing, zero or negative either. *)
Theorem upsells_exclusions :
  forall (catalog : list product) (product_id : pid) (limit : Z),
    exists r,
      get_upsells_for_product catalog product_id limit = Ok r
      /\ Forall (fun p => id p <> Some product_id /\ is_published p = true) r
      /\ (Some product_id ∈ map id catalog -> Forall (fun p => out_of_stock p = false) r).
Proof.
  intros catalog product_id limit.
  destruct (find_product catalog product_id) as [sp|] eqn:Hf.
  - rewrite (get_upsells_found _ _ _ _ Hf). eexists. split; [reflexivity|].
    assert (Hc : forall p, p ∈ rank (map (fun p => (p, upsell_value sp p))
                                   (List.filter (is_candidate product_id) catalog)) limit ->
                           is_candidate product_id p = true).
    { intros p Hp%elem_of_rank. rewrite fst_scored in Hp.
      now apply filter_elem_of in Hp as [_ Hp]. }
    split; [|intros _]; apply Forall_forall; intros p Hp; specialize (Hc p Hp);
      unfold is_candidate in Hc;
      apply andb_prop in Hc as [Hc Hstock]; apply andb_prop in Hc as [Hid Hpub].
    + split; [|exact Hpub]. apply negb_true_iff, bool_decide_eq_false in Hid. exact Hid.
    + now apply negb_true_iff in Hstock.
  - rewrite (get_upsells_not_found _ _ _ Hf), get_popular_products_value.
    eexists. split; [reflexivity|].
    apply find_product_none in Hf. split; [|contradiction].
    apply Forall_forall. intros p Hp%elem_of_rank. rewrite fst_scored in Hp.
    apply filter_elem_of in Hp as [Hin Hpub]. split; [|exact Hpub].
    intros Hid. apply Hf. rewrite <- Hid. apply list_elem_of_In, in_map.
    now apply list_elem_of_In.
Qed.

(** X28, at a sample catalogue that holds the seed. *)
Lemma upsells_exclusions_witness :
  let catalog := [item 1 "toys" [] (Some 8) (Some 5%Z); item 2 "toys" [] (Some 10) (Some 3%Z);
                  item 3 "beds" [] (Some 50) (Some 0%Z)] in
  Some (IdNum 1) ∈ map id catalog
  /\ exists r,
       get_upsells_for_product catalog (IdNum 1) 3 = Ok r
       /\ Forall (fun p => id p <> Some (IdNum 1) /\ is_published p = true) r
       /\ Forall (fun p => out_of_stock p = false) r.
Proof.
  intros catalog.
  assert (Hin : Some (IdNum 1) ∈ map id catalog) by (cbn; constructor).
  split; [exact Hin|].
  destruct (upsells_exclusions catalog (IdNum 1) 3) as (r & Hr & Hall & Hstock).
  exists r. split; [exact Hr|]. split; [exact Hall|]. exact (Hstock Hin).
Defined.

(* --------------------------------------------------------------------- *)
(** ** The further properties at sample inputs                            *)
(* --------------------------------------------------------------------- *)

Lemma no_ratio_range : forall a b, 0 <= no_ratio a b <= 1.
Proof. intros a b. split; vm_compute; discriminate. Qed.

Lemma no_ratio_nonneg : forall a b, 0 <= no_ratio a b.
Proof. intros a b. vm_compute. discriminate. Qed.

Lemma sample_ids_distinct : NoDup (map id sample_catalog).
Proof.
  refine (bool_decide_unpack (NoDup (map id sample_catalog)) _). vm_compute. exact I.
Qed.

(** X2, with the matcher that always answers 0. *)
Lemma fuzzy_match_range_witness :
  (forall a b, 0 <= no_ratio a b <= 1)
  /\ 0 <= fuzzy_match no_ratio "dog toy" "Dog Chew Toy" <= 1.
Proof.
  split; [exact no_ratio_range|].
  exact (fuzzy_match_range no_ratio no_ratio_range "dog toy" "Dog Chew Toy").
Defined.

(** X3, for a query and a text that share the word "toy". *)
Lemma fuzzy_match_shared_word_witness :
  Text.is_empty "dog toy" = false /\ Text.is_empty "A toy, for cats" = false
  /\ "toy" ∈ Text.split (normalize_text (Some "dog toy"))
  /\ "toy" ∈ Text.split (normalize_text (Some "A toy, for cats"))
  /\ 8 # 10 < fuzzy_match no_ratio "dog toy" "A toy, for cats"
  /\ fuzzy_match no_ratio "dog toy" "A toy, for cats" <= 1.
Proof.
  assert (H1 : "toy" ∈ Text.split (normalize_text (Some "dog toy"))).
  { refine (bool_decide_unpack _ _). vm_compute. exact I. }
  assert (H2 : "toy" ∈ Text.split (normalize_text (Some "A toy, for cats"))).
  { refine (bool_decide_unpack _ _). vm_compute. exact I. }
  split; [reflexivity|]. split; [reflexivity|]. split; [exact H1|]. split; [exact H2|].
  exact (fuzzy_match_shared_word no_ratio "dog toy" "A toy, for cats" "toy"
           eq_refl eq_refl H1 H2).
Defined.

(** X4, for a product whose title holds the query. *)
Lemma relevance_bounds_witness :
  let p := bare_product 1 "Squeaky Dog Ball" (Some 8) in
  (forall a b, 0 <= no_ratio a b)
  /\ normalize_text (Some "Dog!") <> EmptyString
  /\ Text.contains (normalize_text (Some (str_or_empty (title p))))
       (normalize_text (Some "Dog!")) = true
  /\ 0 <= calculate_relevance no_ratio p "Dog!"
  /\ 150 <= calculate_relevance no_ratio p "Dog!".
Proof.
  intros p.
  assert (Hq : normalize_text (Some "Dog!") <> EmptyString) by (vm_compute; discriminate).
  split; [exact no_ratio_nonneg|]. split; [exact Hq|]. split; [reflexivity|].
  destruct (relevance_bounds no_ratio no_ratio_nonneg p "Dog!") as [H0 H150].
  split; [exact H0|]. exact (H150 Hq eq_refl).
Defined.

(** X5, on a list of two products and a price window. *)
Lemma apply_filters_pointwise_witness :
  let p1 := bare_product 1 "Squeaky Dog Ball" (Some 8) in
  let p2 := bare_product 2 "Cat Feather Wand" (Some 10) in
  apply_filters no_float ([p1] ++ [p2]) (Some window_5_9) = Ok [p1]
  /\ exists r1 r2,
       apply_filters no_float [p1] (Some window_5_9) = Ok r1
       /\ apply_filters no_float [p2] (Some window_5_9) = Ok r2
       /\ [p1] = r1 ++ r2
       /\ apply_filters no_float [p1] (Some window_5_9) = Ok [p1].
Proof.
  intros p1 p2.
  assert (H : apply_filters no_float ([p1] ++ [p2]) (Some window_5_9) = Ok [p1])
    by (vm_compute; reflexivity).
  split; [exact H|].
  exact (apply_filters_pointwise no_float [p1] [p2] [p1] (Some window_5_9) H).
Defined.

(** X6, on the sample catalogue with the window from 5 to 9. *)
Lemma price_window_witness :
  price_min window_5_9 = Some (BNum 5) /\ to_float no_float (BNum 5) = Ok 5
  /\ price_max window_5_9 = Some (BNum 9) /\ to_float no_float (BNum 9) = Ok 9
  /\ apply_filters no_float sample_catalog (Some window_5_9)
     = Ok [bare_product 1 "Squeaky Dog Ball" (Some 8)]
  /\ Forall (fun p =>
               match price p with
               | Some x => if Qeq_bool x 0 then 5 <= 0 /\ 999999 <= 9
                           else 5 <= x /\ x <= 9
               | None => 5 <= 0 /\ 999999 <= 9
               end) [bare_product 1 "Squeaky Dog Ball" (Some 8)].
Proof.
  assert (H : apply_filters no_float sample_catalog (Some window_5_9)
              = Ok [bare_product 1 "Squeaky Dog Ball" (Some 8)])
    by (vm_compute; reflexivity).
  split; [reflexivity|]. split; [reflexivity|]. split; [reflexivity|].
  split; [reflexivity|]. split; [exact H|].
  exact (price_window no_float sample_catalog _ window_5_9 (BNum 5) (BNum 9) 5 9
           eq_refl eq_refl eq_refl eq_refl H).
Defined.

(** X7, for filter values that differ in case. *)
Lemma filters_ignore_case_witness :
  Text.lower "Toys" = Text.lower "TOYS" /\ Text.lower "Dog" = Text.lower "dog"
  /\ apply_filters no_float sample_catalog
       (Some {| f_category := Some "Toys"; f_animal := Some "Dog"; price_min := None;
                price_max := None; has_images := None |})
     = apply_filters no_float sample_catalog
         (Some {| f_category := Some "TOYS"; f_animal := Some "dog"; price_min := None;
                  price_max := None; has_images := None |}).
Proof.
  split; [reflexivity|]. split; [reflexivity|].
  exact (filters_ignore_case no_float sample_catalog "Toys" "TOYS" "Dog" "dog"
           None None None eq_refl eq_refl).
Defined.

Lemma sample_search :
  search_products no_ratio no_float sample_catalog "dog" None "relevance" 50
  = Ok sample_response.
Proof. vm_compute. reflexivity. Qed.

Lemma sample_search_by_name :
  search_products no_ratio no_float sample_catalog "dog" None "name" 10
  = Ok sample_response_by_name.
Proof. vm_compute. reflexivity. Qed.

(** X11, for the sample search. *)
Lemma search_results_size_witness :
  search_products no_ratio no_float sample_catalog "dog" None "relevance" 50
  = Ok sample_response
  /\ (total sample_response <= length sample_catalog)%nat
  /\ length (results sample_response)
     = (if (0 <=? 50)%Z then Nat.min (Z.to_nat 50) (total sample_response)
        else (total sample_response - Z.to_nat (- 50))%nat)
  /\ (forall p, p ∈ results sample_response -> p ∈ sample_catalog)
  /\ (NoDup sample_catalog -> NoDup (results sample_response)).
Proof.
  split; [exact sample_search|].
  exact (search_results_size no_ratio no_float sample_catalog "dog" None "relevance" 50
           sample_response sample_search).
Defined.

(** X12, for the sample search by relevance and by name. *)
Lemma search_total_stable_witness :
  search_products no_ratio no_float sample_catalog "dog" None "relevance" 50
  = Ok sample_response
  /\ search_products no_ratio no_float sample_catalog "dog" None "name" 10
     = Ok sample_response_by_name
  /\ total sample_response = total sample_response_by_name
  /\ ((Z.of_nat (total sample_response) <= 50)%Z ->
      (Z.of_nat (total sample_response_by_name) <= 10)%Z ->
      results sample_response ≡ₚ results sample_response_by_name).
Proof.
  split; [exact sample_search|]. split; [exact sample_search_by_name|].
  exact (search_total_stable no_ratio no_float sample_catalog "dog" None
           "relevance" "name" 50 10 _ _ sample_search sample_search_by_name).
Defined.

(** X13, for the sample search. *)
Lemma search_finds_title_matches_witness :
  let p := bare_product 1 "Squeaky Dog Ball" (Some 8) in
  (forall a b, 0 <= no_ratio a b)
  /\ NoDup (map id sample_catalog)
  /\ (Z.of_nat (length sample_catalog) <= 50)%Z
  /\ p ∈ sample_catalog
  /\ normalize_text (Some "dog") <> EmptyString
  /\ Text.contains (normalize_text (Some (str_or_empty (title p))))
       (normalize_text (Some "dog")) = true
  /\ exists r,
       search_products no_ratio no_float sample_catalog "dog" None "relevance" 50 = Ok r
       /\ p ∈ results r.
Proof.
  intros p.
  assert (Hl : (Z.of_nat (length sample_catalog) <= 50)%Z) by (vm_compute; discriminate).
  assert (Hp : p ∈ sample_catalog) by constructor.
  assert (Hq : normalize_text (Some "dog") <> EmptyString) by (vm_compute; discriminate).
  split; [exact no_ratio_nonneg|]. split; [exact sample_ids_distinct|].
  split; [exact Hl|]. split; [exact Hp|]. split; [exact Hq|]. split; [reflexivity|].
  exact (search_finds_title_matches no_ratio no_float sample_catalog "dog" "relevance" 50
           p no_ratio_nonneg sample_ids_distinct Hl Hp Hq eq_refl).
Defined.

(** X20, on a small stored index. *)
Lemma suggestions_sound_witness :
  NoDup sample_terms.*1
  /\ get_suggestions sample_terms "Do" 5
     = [{| term := "dog"; count := 2 |}; {| term := "door"; count := 1 |}]
  /\ StronglySorted (fun a b => (count b <= count a)%nat)
       (get_suggestions sample_terms "Do" 5)
  /\ NoDup (map term (get_suggestions sample_terms "Do" 5)).
Proof.
  assert (Hnd : NoDup sample_terms.*1).
  { refine (bool_decide_unpack (NoDup sample_terms.*1) _). vm_compute. exact I. }
  split; [exact Hnd|]. split; [reflexivity|].
  destruct (suggestions_sound sample_terms "Do" 5 Hnd) as (_ & Hs & Hn & _).
  split; [exact Hs|exact Hn].
Defined.

(** X25, on the small upsell catalogue. *)
Lemma checkout_offers_witness :
  (Z.of_nat (length upsell_catalog) <= 10)%Z
  /\ exists r1 r2,
       get_checkout_upsells upsell_catalog [] 10 = Ok r1
       /\ get_post_purchase_upsells upsell_catalog [] 10 = Ok r2
       /\ r1 ≡ₚ List.filter
                  (fun p => negb (bool_decide (id p ∈ map item_id [])) && is_published p)
                  upsell_catalog
       /\ r2 ≡ₚ List.filter
                  (fun p => negb (bool_decide (id p ∈ map item_id [])) && is_published p)
                  upsell_catalog.
Proof.
  assert (Hl : (Z.of_nat (length upsell_catalog) <= 10)%Z) by (vm_compute; discriminate).
  split; [exact Hl|]. exact (checkout_offers upsell_catalog [] 10 Hl).
Defined.

(** X27, for the context "home". *)
Lemma recommendations_default_witness :
  ("home" ∉ ["product"; "cart"; "checkout"; "post_purchase"])
  /\ get_ai_recommendations upsell_catalog (Some (IdNum 1)) None "home" 3
     = get_popular_products upsell_catalog 3.
Proof.
  assert (H : "home" ∉ ["product"; "cart"; "checkout"; "post_purchase"]).
  { refine (bool_decide_unpack _ _). vm_compute. exact I. }
  split; [exact H|].
  exact (recommendations_default upsell_catalog (Some (IdNum 1)) None "home" 3
           (or_intror H)).
Defined.
